(** * Listing finder: the record normalizer and the tool-calling agent loop

    A shallow embedding of [normalizeAndDedupeListings], [runWorkflow]
    (main.ts) and [runListingAgent] (agent.ts), together with the part of
    the ECMAScript runtime those functions rely on: strings as sequences
    of UTF-16 code units, numbers as IEEE 754 binary64 values, the
    [Number], [String] and [Boolean] coercions, [String.prototype.trim],
    [JSON.stringify], and property lookup on an object literal.

    Further on: the two tools of the agent ([performWebSearch] with
    [runTavilySearch], [fetchListingPage] with [extractTextFromHtml]),
    and the normalizer of the variant built on the agents SDK. *)

From Stdlib Require Import ZArith NArith Ascii String DecimalNat DecimalN.
From Stdlib Require Import SpecFloat.
From stdpp Require Import base tactics option list gmap.

Set Default Proof Using "Type".
Local Open Scope Z_scope.

(** ** Strings *)

Module JS.

(** A JavaScript string is a sequence of UTF-16 code units. *)
Definition jsstring := list N.

Definition unit_of_ascii (a : ascii) : N := N_of_ascii a.

(** [lit s] is the JavaScript literal written with the ASCII characters
    of [s]; code units above 127 are written out as numbers. *)
Definition lit (s : string) : jsstring := map unit_of_ascii (list_ascii_of_string s).

Definition is_digit (c : N) : bool := (48 <=? c)%N && (c <=? 57)%N.
Definition is_dot (c : N) : bool := (c =? 46)%N.
Definition digit_val (c : N) : Z := Z.of_N c - 48.

(** WhiteSpace and LineTerminator code points, the set that
    [String.prototype.trim] and [StringToNumber] strip. *)
Definition is_space (c : N) : bool :=
  match c with
  | 9 | 10 | 11 | 12 | 13 | 32 | 160 | 5760 | 8232 | 8233 | 8239 | 8287
  | 12288 | 65279 => true
  | _ => (8192 <=? c)%N && (c <=? 8202)%N
  end%N.

Fixpoint trimStart (s : jsstring) : jsstring :=
  match s with
  | c :: s' => if is_space c then trimStart s' else s
  | [] => []
  end.

Definition trimEnd (s : jsstring) : jsstring := rev (trimStart (rev s)).

(** [s.trim()] *)
Definition trim (s : jsstring) : jsstring := trimEnd (trimStart s).

(** Replacing [/[^\d]/g] and [/[^\d.]/g] by the empty string: without
    the [u] flag a character class matches one code unit at a time. *)
Definition keep_digits (s : jsstring) : jsstring := filter (fun c => is_digit c = true) s.
Definition keep_digits_dots (s : jsstring) : jsstring :=
  filter (fun c => is_digit c || is_dot c = true) s.

(** Longest prefix whose code units satisfy [p], and the rest. *)
Fixpoint span (p : N -> bool) (s : jsstring) : jsstring * jsstring :=
  match s with
  | c :: s' => if p c then let '(a, b) := span p s' in (c :: a, b) else ([], s)
  | [] => ([], [])
  end.

(** Decimal rendering of a natural number, most significant digit first. *)
Fixpoint uint_units (d : Decimal.uint) : jsstring :=
  match d with
  | Decimal.Nil => []
  | Decimal.D0 d => 48%N :: uint_units d
  | Decimal.D1 d => 49%N :: uint_units d
  | Decimal.D2 d => 50%N :: uint_units d
  | Decimal.D3 d => 51%N :: uint_units d
  | Decimal.D4 d => 52%N :: uint_units d
  | Decimal.D5 d => 53%N :: uint_units d
  | Decimal.D6 d => 54%N :: uint_units d
  | Decimal.D7 d => 55%N :: uint_units d
  | Decimal.D8 d => 56%N :: uint_units d
  | Decimal.D9 d => 57%N :: uint_units d
  end.

Definition digits_of_N (n : N) : jsstring := uint_units (N.to_uint n).
Definition digits_of_nat (n : nat) : jsstring := uint_units (Nat.to_uint n).
Definition digits_of_Z (z : Z) : jsstring := digits_of_N (Z.to_N z).

(** The value of one digit, hexadecimal letters included, and of a string
    of digits read in base [base]. *)
Definition hex_val (c : N) : option Z :=
  if is_digit c then Some (digit_val c)
  else if (97 <=? c)%N && (c <=? 102)%N then Some (Z.of_N c - 87)
  else if (65 <=? c)%N && (c <=? 70)%N then Some (Z.of_N c - 55)
  else None.

Fixpoint radix_value (base : Z) (acc : Z) (s : jsstring) : option Z :=
  match s with
  | [] => Some acc
  | c :: s' =>
      match hex_val c with
      | Some d => if d <? base then radix_value base (acc * base + d) s' else None
      | None => None
      end
  end.

Definition decimal_value (s : jsstring) : Z :=
  fold_left (fun acc c => acc * 10 + digit_val c) s 0.

(** ** Numbers: IEEE 754 binary64 *)

Definition number := spec_float.

#[global] Instance number_eq_dec : EqDecision number.
Proof. solve_decision. Defined.

Definition NaN : number := S754_nan.
Definition Infinity : number := S754_infinity false.
Definition zero : number := S754_zero false.

(** The binary64 value nearest to the rational [p / q] ([0 <= p], [0 < q]),
    ties to even, with sign [neg]: the quotient is taken with 1134 extra
    binary digits, which is below the smallest subnormal exponent, and
    the remainder gives the position of the exact value between two
    candidates. *)
Definition round_ratio (neg : bool) (p q : Z) : number :=
  let '(m, r) := Z.div_eucl (p * 2 ^ 1134) q in
  let loc := if r =? 0 then loc_Exact else loc_Inexact (Z.compare (2 * r) q) in
  binary_round_aux 53 1024 neg m (-1134) loc.

(** [m * 10 ^ e] as a binary64 value. *)
Definition round_decimal (neg : bool) (m e : Z) : number :=
  if 0 <=? e then round_ratio neg (m * 10 ^ e) 1 else round_ratio neg m (10 ^ (- e)).

Definition of_Z (z : Z) : number := round_ratio (z <? 0) (Z.abs z) 1.

(** [Number.isFinite] *)
Definition isFinite (n : number) : bool :=
  match n with
  | S754_zero _ | S754_finite _ _ _ => true
  | S754_infinity _ | S754_nan => false
  end.

(** The sign test behind the data model's "non-negative": [n >= 0]. *)
Definition nonneg (n : number) : bool :=
  match n with
  | S754_zero _ => true
  | S754_finite s _ _ | S754_infinity s => negb s
  | S754_nan => false
  end.

(** *** StringToNumber *)

(** StrUnsignedDecimalLiteral without the [Infinity] alternative: digits,
    an optional fraction, an optional exponent; [None] when [s] is not of
    that shape. *)
Definition parse_exponent (s : jsstring) : option Z :=
  match s with
  | [] => Some 0
  | c :: s1 =>
      if (c =? 101)%N || (c =? 69)%N then
        let '(neg, s2) :=
          match s1 with
          | 45%N :: t => (true, t)
          | 43%N :: t => (false, t)
          | _ => (false, s1)
          end in
        let '(ds, rest) := span is_digit s2 in
        match ds, rest with
        | _ :: _, [] => Some (if neg then - decimal_value ds else decimal_value ds)
        | _, _ => None
        end
      else None
  end.

Definition parse_unsigned_decimal (neg : bool) (s : jsstring) : number :=
  let '(int, r1) := span is_digit s in
  let '(frac, r2) :=
    match r1 with
    | 46%N :: t => span is_digit t
    | _ => ([], r1)
    end in
  match int, frac with
  | [], [] => NaN
  | _, _ =>
      match parse_exponent r2 with
      | Some e => round_decimal neg (decimal_value (int ++ frac)) (e - Z.of_nat (length frac))
      | None => NaN
      end
  end.

Definition parse_decimal (neg : bool) (s : jsstring) : number :=
  if decide (s = lit "Infinity") then S754_infinity neg
  else parse_unsigned_decimal neg s.

Definition parse_radix (base : Z) (s : jsstring) : number :=
  match s with
  | [] => NaN
  | _ => match radix_value base 0 s with
         | Some v => round_ratio false v 1
         | None => NaN
         end
  end.

(** [Number(s)] for a string [s]. *)
Definition Number_of_string (s : jsstring) : number :=
  match trim s with
  | [] => zero
  | 48%N :: (120%N | 88%N) :: t => parse_radix 16 t
  | 48%N :: (111%N | 79%N) :: t => parse_radix 8 t
  | 48%N :: (98%N | 66%N) :: t => parse_radix 2 t
  | 45%N :: t => parse_decimal true t
  | 43%N :: t => parse_decimal false t
  | t => parse_decimal false t
  end.

(** *** Number::toString *)

(** [x < 10 ^ n] for the rational [x = p / q]. *)
Definition lt_pow10 (p q n : Z) : bool :=
  if 0 <=? n then p <? q * 10 ^ n else p * 10 ^ (- n) <? q.

(** The decimal exponent [n] with [10 ^ (n - 1) <= p / q < 10 ^ n], searched
    upwards from the exponent of the smallest subnormal. *)
Fixpoint decimal_exponent (fuel : nat) (n p q : Z) : Z :=
  match fuel with
  | O => n
  | S fuel' => if lt_pow10 p q n then n else decimal_exponent fuel' (n + 1) p q
  end.

(** The shortest digit string: the least [k], and for it the integer [s]
    with [10 ^ (k - 1) <= s < 10 ^ k] whose value [s * 10 ^ (n - k)] is
    the closest to [x = p / q] among those that round to [x]. Only the two
    integers around [x * 10 ^ (k - n0)] can qualify; when the upper one is
    [10 ^ k] it is written [10 ^ (k - 1)] with the exponent one higher. *)
Fixpoint shortest_digits (fuel : nat) (k : Z) (x : number) (p q n0 : Z) : Z * Z * Z :=
  let '(num, den) :=
    if 0 <=? k - n0 then (p * 10 ^ (k - n0), q) else (p, q * 10 ^ (n0 - k)) in
  let '(lo, r) := Z.div_eucl num den in
  let hi := lo + 1 in
  let ok s := bool_decide (round_decimal false s (n0 - k) = x) in
  let pick_lo := (n0, k, lo) in
  let pick_hi := if hi =? 10 ^ k then (n0 + 1, k, 10 ^ (k - 1)) else (n0, k, hi) in
  let lo_ok := (10 ^ (k - 1) <=? lo) && ok lo in
  let hi_ok := ok hi in
  match fuel with
  | O => pick_lo
  | S fuel' =>
      match lo_ok, hi_ok with
      | true, true =>
          match Z.compare (2 * r) den with
          | Lt => pick_lo
          | Gt => pick_hi
          | Eq => if Z.even lo then pick_lo else pick_hi
          end
      | true, false => pick_lo
      | false, true => pick_hi
      | false, false => shortest_digits fuel' (k + 1) x p q n0
      end
  end.

Definition zeros (n : Z) : jsstring := replicate (Z.to_nat n) 48%N.

(** The layout rules of Number::toString for the digits [s] ([k] of
    them) and the decimal exponent [n]. *)
Definition layout (n k s : Z) : jsstring :=
  let ds := digits_of_Z s in
  if (k <=? n) && (n <=? 21) then ds ++ zeros (n - k)
  else if (0 <? n) && (n <=? 21) then
    take (Z.to_nat n) ds ++ [46%N] ++ drop (Z.to_nat n) ds
  else if (-6 <? n) && (n <=? 0) then [48%N; 46%N] ++ zeros (- n) ++ ds
  else
    let e := n - 1 in
    let sign := if e <? 0 then 45%N else 43%N in
    let mant := if k =? 1 then ds else take 1 ds ++ [46%N] ++ drop 1 ds in
    mant ++ [101%N; sign] ++ digits_of_Z (Z.abs e).

Definition positive_to_string (m : positive) (e : Z) : jsstring :=
  let p := if 0 <=? e then Z.pos m * 2 ^ e else Z.pos m in
  let q := if 0 <=? e then 1 else 2 ^ (- e) in
  let n0 := decimal_exponent 640 (-323) p q in
  let '(n, k, s) := shortest_digits 17 1 (S754_finite false m e) p q n0 in
  layout n k s.

(** [String(n)] for a number [n]. *)
Definition Number_toString (n : number) : jsstring :=
  match n with
  | S754_nan => lit "NaN"
  | S754_zero _ => lit "0"
  | S754_infinity false => lit "Infinity"
  | S754_infinity true => lit "-Infinity"
  | S754_finite false m e => positive_to_string m e
  | S754_finite true m e => 45%N :: positive_to_string m e
  end.

(** ** Primitive values and the coercions applied to them *)

Inductive prim :=
  | Undefined
  | Null
  | Bool (b : bool)
  | Num (n : number)
  | Str (s : jsstring).

#[global] Instance prim_eq_dec : EqDecision prim.
Proof. solve_decision. Defined.

(** [v == null] *)
Definition nullish (v : prim) : bool :=
  match v with Undefined | Null => true | _ => false end.

(** ToBoolean: the test behind [v ? a : b], [!v] and [v || w]. *)
Definition truthy (v : prim) : bool :=
  match v with
  | Undefined | Null => false
  | Bool b => b
  | Num (S754_zero _) | Num S754_nan => false
  | Num _ => true
  | Str s => match s with [] => false | _ => true end
  end.

(** [String(v)] *)
Definition String (v : prim) : jsstring :=
  match v with
  | Undefined => lit "undefined"
  | Null => lit "null"
  | Bool true => lit "true"
  | Bool false => lit "false"
  | Num n => Number_toString n
  | Str s => s
  end.

(** [Number(v)] *)
Definition Number (v : prim) : number :=
  match v with
  | Undefined => NaN
  | Null => zero
  | Bool true => of_Z 1
  | Bool false => zero
  | Num n => n
  | Str s => Number_of_string s
  end.

(** ** JSON values and [JSON.stringify] *)

#[warnings="-register-all"]
Inductive JSON :=
  | JNull
  | JBool (b : bool)
  | JNumber (n : number)
  | JString (s : jsstring)
  | JArray (items : list JSON)
  | JObject (members : list (jsstring * JSON)).

Definition hex_digit (d : N) : N := if (d <? 10)%N then (48 + d)%N else (87 + d)%N.

(** The escape [\uXXXX] of one code unit, in lowercase hexadecimal. *)
Definition unicode_escape (c : N) : jsstring :=
  [92; 117; hex_digit (c / 4096 mod 16); hex_digit (c / 256 mod 16);
   hex_digit (c / 16 mod 16); hex_digit (c mod 16)]%N.

Definition is_high_surrogate (c : N) : bool := (55296 <=? c)%N && (c <=? 56319)%N.
Definition is_low_surrogate (c : N) : bool := (56320 <=? c)%N && (c <=? 57343)%N.

(** Code units that QuoteJSONString writes as themselves. *)
Definition json_plain (c : N) : bool :=
  (32 <=? c)%N && negb (c =? 34)%N && negb (c =? 92)%N
  && negb (is_high_surrogate c) && negb (is_low_surrogate c).

Definition escape_unit (c : N) : jsstring :=
  match c with
  | 8 => [92; 98] | 9 => [92; 116] | 10 => [92; 110] | 12 => [92; 102]
  | 13 => [92; 114] | 34 => [92; 34] | 92 => [92; 92]
  | _ => if json_plain c then [c] else unicode_escape c
  end%N.

(** The body of QuoteJSONString: a surrogate pair is kept, a lone
    surrogate is escaped. *)
Fixpoint quote_units (s : jsstring) : jsstring :=
  match s with
  | [] => []
  | c :: s' =>
      if is_high_surrogate c then
        match s' with
        | d :: s'' =>
            if is_low_surrogate d then c :: d :: quote_units s''
            else unicode_escape c ++ quote_units s'
        | [] => unicode_escape c
        end
      else escape_unit c ++ quote_units s'
  end.

Definition quote (s : jsstring) : jsstring := [34%N] ++ quote_units s ++ [34%N].

Definition join (sep : jsstring) (parts : list jsstring) : jsstring :=
  match parts with
  | [] => []
  | part :: parts' => part ++ concat (map (fun x => sep ++ x) parts')
  end.

(** The brackets of SerializeJSONObject and SerializeJSONArray: [indent]
    is the indentation of the enclosing value and [gap] the unit added to
    it inside. *)
Definition bracket (gap indent opening closing : jsstring) (parts : list jsstring) : jsstring :=
  match parts, gap with
  | [], _ => opening ++ closing
  | _, [] => opening ++ join [44%N] parts ++ closing
  | _, _ =>
      opening ++ [10%N] ++ (indent ++ gap)
      ++ join ([44%N; 10%N] ++ (indent ++ gap)) parts
      ++ [10%N] ++ indent ++ closing
  end.

(** SerializeJSONProperty. The members of an object are listed in the
    order in which its properties are enumerated. *)
Fixpoint serialize (gap indent : jsstring) (v : JSON) : jsstring :=
  match v with
  | JNull => lit "null"
  | JBool true => lit "true"
  | JBool false => lit "false"
  | JNumber n => if isFinite n then Number_toString n else lit "null"
  | JString s => quote s
  | JArray items =>
      bracket gap indent [91%N] [93%N] (map (serialize gap (indent ++ gap)) items)
  | JObject members =>
      bracket gap indent [123%N] [125%N]
        (map (fun m => quote (fst m)
                       ++ (match gap with [] => [58%N] | _ => [58%N; 32%N] end)
                       ++ serialize gap (indent ++ gap) (snd m)) members)
  end.

(** [JSON.stringify(v)] and [JSON.stringify(v, null, 2)] *)
Definition JSON_stringify (v : JSON) : jsstring := serialize [] [] v.
Definition JSON_stringify_2 (v : JSON) : jsstring := serialize [32%N; 32%N] [] v.

(** ** Completions: a call returns a value or throws *)

Inductive exn := TypeError.

Inductive completion (A : Type) :=
  | Returns (a : A)
  | Throws (e : exn).
Arguments Returns {A} a.
Arguments Throws {A} e.

Definition bind {A B} (c : completion A) (k : A -> completion B) : completion B :=
  match c with
  | Returns a => k a
  | Throws e => Throws e
  end.

(** ** Vocabulary for the properties of numbers and strings *)

(** [String.prototype.toUpperCase] on ASCII letters, other code units kept:
    the case mapping used to run the model on ASCII identifiers. *)
Definition toUpperCase_ascii (s : jsstring) : jsstring :=
  map (fun c => if (97 <=? c)%N && (c <=? 122)%N then (c - 32)%N else c) s.

(** The sign of [x] is [neg], unless [x] is NaN. *)
Definition sign_is (neg : bool) (x : number) : Prop :=
  match x with
  | S754_nan => True
  | S754_zero s | S754_infinity s | S754_finite s _ _ => s = neg
  end.

Definition starts_clean (s : jsstring) : Prop :=
  match s with c :: _ => is_space c = false | [] => True end.

End JS.

Import JS.

(** ** main.ts: the listing record normalizer *)

Module Normalizer.

Definition DEFAULT_LOCATION : jsstring := lit "Laval, QC".
Definition MAX_LISTINGS : nat := 12.

(** A raw record, [Record<string, any>]: its own properties in order, each
    holding a primitive value (the values the data model allows: numbers,
    strings or unset, and booleans). A property that holds an object or
    an array is not represented; converting one with [String] or
    [Number] can throw, so what is said below of a record that is
    normalized is said under [normalize record = Returns n]. *)
Definition RawRecord := list (jsstring * prim).

(** [record.key] and [record["key"]]: the first entry under [key], or
    [undefined]. None of the names the normalizer reads is inherited from
    [Object.prototype]. *)
Fixpoint get (record : RawRecord) (key : jsstring) : prim :=
  match record with
  | [] => Undefined
  | (k, v) :: record' => if decide (k = key) then v else get record' key
  end.

(** An element of the [items] array: a primitive, or an object. An array
    element is an object with none of the properties the normalizer
    reads, that is [Object []]. *)
Inductive item :=
  | Primitive (v : prim)
  | Object (record : RawRecord).

Record NormalizedListing := {
  mls : jsstring;
  url : option jsstring;
  address : option jsstring;
  price : option number;
  beds : option number;
  baths : option number;
  type : option jsstring;
  note_fr : option jsstring;
  note_en : option jsstring;
}.

#[global] Instance NormalizedListing_eq_dec : EqDecision NormalizedListing.
Proof. solve_decision. Defined.

(** The literal ["MLS non trouvé / MLS not found"]; [é] is U+00E9. *)
Definition MLS_NOT_FOUND : jsstring :=
  lit "MLS non trouv" ++ [233%N] ++ lit " / MLS not found".

(** The property name ["MLS®"]; [®] is U+00AE. *)
Definition MLS_REG : jsstring := lit "MLS" ++ [174%N].

(** [numberFromPriceLike]: a truthy argument that is not a string has no
    [replace] method, and the call throws. *)
Definition numberFromPriceLike (s : prim) : completion (option number) :=
  if negb (truthy s) then Returns None
  else match s with
       | Str s =>
           let raw := keep_digits s in
           match raw with
           | [] => Returns None
           | _ => let n := Number_of_string raw in
                  Returns (if isFinite n then Some n else None)
           end
       | _ => Throws TypeError
       end.

(** [first(...vals)]: [vals.find((v) => v != null) ?? null] *)
Definition first (vals : list prim) : prim :=
  match List.find (fun v => negb (nullish v)) vals with
  | Some v => v
  | None => Null
  end.

(** [toCleanString] *)
Definition toCleanString (value : prim) : jsstring :=
  match value with Str s => trim s | _ => [] end.

(** [v ? String(v).trim() : null] *)
Definition trimmed (v : prim) : option jsstring :=
  if truthy v then Some (trim (String v)) else None.

(** The test [s ? a : b] on a string-or-null. *)
Definition nonblank (s : option jsstring) : bool :=
  match s with Some (_ :: _) => true | _ => false end.

Section WithCaseMapping.

(** [String.prototype.toUpperCase]; the Unicode case mapping is left
    abstract. *)
Variable toUpperCase : jsstring -> jsstring.

(** The local [mls] of the loop body. *)
Definition mls_of (record : RawRecord) : option jsstring :=
  trimmed (first [get record (lit "mls"); get record (lit "MLS");
                  get record (lit "listingId"); get record (lit "listing_id");
                  get record MLS_REG]).

Definition beds_of (record : RawRecord) : option number :=
  let v := get record (lit "beds") in
  if nullish v then None else Some (Number_of_string (keep_digits (String v))).

Definition baths_of (record : RawRecord) : option number :=
  let v := get record (lit "baths") in
  if nullish v then None else Some (Number_of_string (keep_digits_dots (String v))).

Definition price_of (record : RawRecord) : completion (option number) :=
  let v := get record (lit "price") in
  if nullish v
  then numberFromPriceLike (first [get record (lit "priceText"); get record (lit "price_str");
                                   get record (lit "askingPrice")])
  else Returns (Some (Number v)).

(** The object literal [normalized] built from one record. *)
Definition normalize (record : RawRecord) : completion NormalizedListing :=
  bind (price_of record) (fun price =>
  Returns {|
    mls := match mls_of record with Some s => s | None => MLS_NOT_FOUND end;
    url := trimmed (get record (lit "url"));
    address := trimmed (get record (lit "address"));
    price := price;
    beds := beds_of record;
    baths := baths_of record;
    type := trimmed (get record (lit "type"));
    note_fr := trimmed (get record (lit "note_fr"));
    note_en := trimmed (get record (lit "note_en"));
  |}).

(** The identity key, computed when [out] holds [len] records. *)
Definition key_of (record : RawRecord) (len : nat) : jsstring :=
  let mls := mls_of record in
  let url := trimmed (get record (lit "url")) in
  if nonblank mls then lit "MLS:" ++ toUpperCase (default [] mls)
  else if nonblank url then lit "URL:" ++ default [] url
  else lit "IDX:" ++ digits_of_nat len.

(** [a ?? b] on an optional field. *)
Definition orElse {A} (a b : option A) : option A :=
  match a with Some _ => a | None => b end.

(** The merged object written back to [out[idx]]. *)
Definition merge (prior normalized : NormalizedListing) : NormalizedListing :=
  {| mls := mls prior;
     url := url prior;
     address := orElse (address prior) (address normalized);
     price := orElse (price prior) (price normalized);
     beds := orElse (beds prior) (beds normalized);
     baths := orElse (baths prior) (baths normalized);
     type := orElse (type prior) (type normalized);
     note_fr := orElse (note_fr prior) (note_fr normalized);
     note_en := orElse (note_en prior) (note_en normalized) |}.

(** One pass of the loop body over an object: the new [seen] and [out]. An
    index stored in [seen] is always below [out.length], so the read
    [out[idx]] finds a record; were it not to, [prior.address] would
    throw. *)
Definition step (seen : gmap jsstring nat) (out : list NormalizedListing)
    (record : RawRecord) : completion (gmap jsstring nat * list NormalizedListing) :=
  bind (normalize record) (fun normalized =>
  let key := key_of record (length out) in
  match seen !! key with
  | None => Returns (<[key := length out]> seen, out ++ [normalized])
  | Some idx =>
      match out !! idx with
      | Some prior => Returns (seen, <[idx := merge prior normalized]> out)
      | None => Throws TypeError
      end
  end).

(** The [for ... of] loop: [continue] on an element that is not an
    object, [break] once [out] holds [MAX_LISTINGS] records. *)
Fixpoint loop (items : list item) (seen : gmap jsstring nat)
    (out : list NormalizedListing) : completion (list NormalizedListing) :=
  match items with
  | [] => Returns out
  | Primitive _ :: items' => loop items' seen out
  | Object record :: items' =>
      bind (step seen out record) (fun '(seen', out') =>
      if decide (MAX_LISTINGS <= length out')%nat then Returns out'
      else loop items' seen' out')
  end.

Definition normalizeAndDedupeListings (items : list item) : completion (list NormalizedListing) :=
  bind (loop items ∅ []) (fun out => Returns (take MAX_LISTINGS out)).

(** *** The workflow *)

(** One result of the guardrail check ([GuardrailResult]). *)
Record GuardrailResult := {
  tripwireTriggered : prim;
  info : option JSON;
  executionFailed : prim;
}.

(** [guardrailsHasTripwire]: some result has [tripwireTriggered === true]. *)
Definition guardrailsHasTripwire (results : list GuardrailResult) : bool :=
  existsb (fun r => bool_decide (tripwireTriggered r = Bool true)) results.

(** The guardrail check and the failure payload built from its results
    take no part in the shape of a successful answer; both are left
    abstract. *)
Variable runGuardrails : jsstring -> list GuardrailResult.
Variable buildGuardrailFailOutput : list GuardrailResult -> JSON.

Definition listing_json (l : NormalizedListing) : JSON :=
  let str o := match o with Some s => JString s | None => JNull end in
  let num o := match o with Some n => JNumber n | None => JNull end in
  JObject [(lit "mls", JString (mls l)); (lit "url", str (url l));
           (lit "address", str (address l)); (lit "price", num (price l));
           (lit "beds", num (beds l)); (lit "baths", num (baths l));
           (lit "type", str (type l)); (lit "note_fr", str (note_fr l));
           (lit "note_en", str (note_en l))].

(** [buildResultsJson]: the payload pretty-printed with two spaces,
    between a quote and a fenced-block opener and their closers. *)
Definition buildResultsJson (listings : list NormalizedListing) : jsstring :=
  let payload :=
    JObject [(lit "listings", JArray (map listing_json listings));
             (lit "schema",
              JObject [(lit "mls", JString (lit "string"));
                       (lit "url", JString (lit "string"));
                       (lit "price", JString (lit "number (CAD)"));
                       (lit "note_en", JString (lit "string"));
                       (lit "note_fr", JString (lit "string"))])] in
  let body := JSON_stringify_2 payload in
  [39%N] ++ ([96; 96; 96]%N ++ lit "json" ++ [10%N]) ++ body ++ ([10; 96; 96; 96; 39]%N).

Definition option_entry (value label : jsstring) : JSON :=
  JObject [(lit "value", JString value); (lit "label", JString label)].

Definition TYPE_OPTIONS : JSON :=
  JArray [option_entry [] (lit "Any type / Tout type");
          option_entry (lit "house") (lit "House / Maison");
          option_entry (lit "condo") (lit "Condo / Copropri" ++ [233%N] ++ lit "t" ++ [233%N]);
          option_entry (lit "multiplex") (lit "Multiplex / Plex");
          option_entry (lit "land") (lit "Land / Terrain");
          option_entry (lit "commercial") (lit "Commercial")].

Definition BEDS_OPTIONS : JSON :=
  JArray [option_entry [] (lit "Beds: Any / Chambres: Peu importe");
          option_entry (lit "1") (lit "1+"); option_entry (lit "2") (lit "2+");
          option_entry (lit "3") (lit "3+"); option_entry (lit "4") (lit "4+");
          option_entry (lit "5") (lit "5+")].

Definition BATHS_OPTIONS : JSON :=
  JArray [option_entry [] (lit "Baths: Any / Salles de bain: Peu importe");
          option_entry (lit "1") (lit "1+"); option_entry (lit "2") (lit "2+");
          option_entry (lit "3") (lit "3+")].

(** [input_variables]: its scalar entries, and the entry [listings] when
    it is an array. *)
Record Variables := {
  entries : RawRecord;
  listings : option (list item);
}.

Record WorkflowInput := {
  input_as_text : jsstring;
  input_variables : option Variables;
}.

Record Criteria := {
  c_location : jsstring;
  c_priceMin : jsstring;
  c_priceMax : jsstring;
  c_beds : jsstring;
  c_baths : jsstring;
  c_type : jsstring;
  c_keywords : jsstring;
}.

(** The object [output] of [runWorkflow]. *)
Record Output := {
  title : jsstring;
  criteria : Criteria;
  typeOptions : JSON;
  bedsOptions : JSON;
  bathsOptions : JSON;
  hasResults : bool;
  resultsJson : jsstring;
}.

Definition criteria_json (c : Criteria) : JSON :=
  JObject [(lit "location", JString (c_location c)); (lit "priceMin", JString (c_priceMin c));
           (lit "priceMax", JString (c_priceMax c)); (lit "beds", JString (c_beds c));
           (lit "baths", JString (c_baths c)); (lit "type", JString (c_type c));
           (lit "keywords", JString (c_keywords c))].

(** [output] as the value [JSON.stringify] walks. *)
Definition output_json (o : Output) : JSON :=
  JObject [(lit "title", JString (title o)); (lit "criteria", criteria_json (criteria o));
           (lit "typeOptions", typeOptions o); (lit "bedsOptions", bedsOptions o);
           (lit "bathsOptions", bathsOptions o); (lit "hasResults", JBool (hasResults o));
           (lit "resultsJson", JString (resultsJson o))].

(** [listingsInput]: the variable [listings] when it is an array, else
    the empty array. *)
Definition listingsInput (workflow : WorkflowInput) : list item :=
  match input_variables workflow with
  | Some v => default [] (listings v)
  | None => []
  end.

Inductive WorkflowResult :=
  | GuardrailFail (payload : JSON)
  | Answer (output_text : jsstring) (output_parsed : Output).

(** The literal ["Québec Listings • Annonces Québec"]; [•] is U+2022. *)
Definition TITLE : jsstring :=
  lit "Qu" ++ [233%N] ++ lit "bec Listings " ++ [8226%N] ++ lit " Annonces Qu" ++ [233%N] ++ lit "bec".

Definition runWorkflow (workflow : WorkflowInput) : completion WorkflowResult :=
  let guardrailsResult := runGuardrails (input_as_text workflow) in
  if guardrailsHasTripwire guardrailsResult
  then Returns (GuardrailFail (buildGuardrailFailOutput guardrailsResult))
  else
    let variables := match input_variables workflow with Some v => entries v | None => [] end in
    let location := toCleanString (get variables (lit "location")) in
    let keywords := get variables (lit "keywords") in
    let criteria := {|
      c_location := match location with [] => DEFAULT_LOCATION | _ => location end;
      c_priceMin := toCleanString (get variables (lit "priceMin"));
      c_priceMax := toCleanString (get variables (lit "priceMax"));
      c_beds := toCleanString (get variables (lit "beds"));
      c_baths := toCleanString (get variables (lit "baths"));
      c_type := toCleanString (get variables (lit "type"));
      c_keywords := toCleanString (if truthy keywords then keywords
                                   else Str (input_as_text workflow));
    |} in
    bind (normalizeAndDedupeListings (listingsInput workflow)) (fun listings =>
    let output := {|
      title := TITLE;
      criteria := criteria;
      typeOptions := TYPE_OPTIONS;
      bedsOptions := BEDS_OPTIONS;
      bathsOptions := BATHS_OPTIONS;
      hasResults := bool_decide (0 < length listings)%nat;
      resultsJson := buildResultsJson listings;
    |} in
    Returns (Answer (JSON_stringify (output_json output)) output)).

End WithCaseMapping.

(** guardrails.ts: the local stand-in, which reports nothing. *)
Definition runGuardrails_shim (_input : jsstring) : list GuardrailResult := [].

(** *** Vocabulary for the properties of the normalizer *)

(** Every index stored in [seen] points into [out]. *)
Definition seen_ok (seen : gmap jsstring nat) (out : list NormalizedListing) : Prop :=
  forall k i, seen !! k = Some i -> (i < length out)%nat.

(** The objects among the items, in order. *)
Definition objects (items : list item) : list RawRecord :=
  omap (fun i => match i with Object record => Some record | Primitive _ => None end) items.

(** The keys the records of [rs] receive when each one is pushed, the
    first one onto an [out] of length [len]. *)
Fixpoint keys_from (toUpperCase : jsstring -> jsstring) (rs : list RawRecord) (len : nat)
  : list jsstring :=
  match rs with
  | [] => []
  | r :: rs' => key_of toUpperCase r len :: keys_from toUpperCase rs' (S len)
  end.

(** The local [url] of the loop body. *)
Definition url_of (record : RawRecord) : option jsstring := trimmed (get record (lit "url")).

(** The URLs of the records that have a non-empty one. *)
Definition urls (rs : list RawRecord) : list jsstring :=
  omap (fun r => match url_of r with Some (c :: u) => Some (c :: u) | _ => None end) rs.

Definition text (o : option jsstring) : prim :=
  match o with Some s => Str s | None => Null end.

Definition numeric (o : option number) : prim :=
  match o with Some n => Num n | None => Null end.

(** A normalized record read back as a raw record. *)
Definition to_raw (n : NormalizedListing) : RawRecord :=
  [(lit "mls", Str (mls n)); (lit "url", text (url n)); (lit "address", text (address n));
   (lit "price", numeric (price n)); (lit "beds", numeric (beds n));
   (lit "baths", numeric (baths n)); (lit "type", text (type n));
   (lit "note_fr", text (note_fr n)); (lit "note_en", text (note_en n))].

Definition holds {A} (P : A -> Prop) (o : option A) : Prop :=
  match o with Some a => P a | None => True end.

(** No text field is the empty string. *)
Definition no_blank_text (n : NormalizedListing) : Prop :=
  mls n <> [] /\ holds (fun s => s <> []) (url n) /\ holds (fun s => s <> []) (address n)
  /\ holds (fun s => s <> []) (type n) /\ holds (fun s => s <> []) (note_fr n)
  /\ holds (fun s => s <> []) (note_en n).

(** [beds] and [baths] come back unchanged from their own coercion. *)
Definition counts_reproduced (n : NormalizedListing) : Prop :=
  holds (fun b => Number_of_string (keep_digits (Number_toString b)) = b) (beds n)
  /\ holds (fun b => Number_of_string (keep_digits_dots (Number_toString b)) = b) (baths n).

(** Every text field is its own [trim]. *)
Definition tidy (n : NormalizedListing) : Prop :=
  trim (mls n) = mls n /\ holds (fun s => trim s = s) (url n)
  /\ holds (fun s => trim s = s) (address n) /\ holds (fun s => trim s = s) (type n)
  /\ holds (fun s => trim s = s) (note_fr n) /\ holds (fun s => trim s = s) (note_en n).

(** *** Sample inputs *)

Definition with_mls (s : string) : RawRecord := [(lit "mls", Str (lit s))].

(** Twelve records with the identifiers [A] to [L]. *)
Definition twelve : list item :=
  map (fun s => Object (with_mls s))
      ["A"; "B"; "C"; "D"; "E"; "F"; "G"; "H"; "I"; "J"; "K"; "L"]%string.

(** A thirteenth record: the identifier of the first, and an address. *)
Definition late_duplicate : RawRecord :=
  [(lit "mls", Str (lit "a")); (lit "address", Str (lit "1 Main St"))].

Definition first_seen : RawRecord := [(lit "mls", Str (lit "A1"))].
Definition second_seen : RawRecord :=
  [(lit "mls", Str (lit "a1")); (lit "url", Str (lit "https://x.com"))].

Definition same_listing : RawRecord :=
  [(lit "mls", Str (lit "a1")); (lit "address", Str (lit "1 Main St"))].

(** A record whose price cannot be read: the price text is a number. *)
Definition unreadable_listing : RawRecord :=
  [(lit "mls", Str (lit "A1")); (lit "priceText", Num (of_Z 450000))].

Definition studio : RawRecord :=
  [(lit "beds", Str (lit "studio")); (lit "baths", Str (lit "n/a"))].

Definition not_a_price : RawRecord := [(lit "price", Str (lit "N/A"))].
Definition negative_price : RawRecord := [(lit "price", Num (of_Z (-5)))].

Definition anonymous (u : string) : RawRecord := [(lit "url", Str (lit u))].
Definition nameless : RawRecord := [(lit "address", Str (lit "2 Elm St"))].

Definition four_anonymous : list item :=
  [Object nameless; Object (anonymous "https://a.ca"); Primitive Null;
   Object nameless; Object (anonymous "https://b.ca")].

Definition blank_identifier : RawRecord := [(lit "mls", Str (lit "   "))].

Definition blank_url : RawRecord := [(lit "mls", Str (lit "A1")); (lit "url", Str (lit " "))].

Definition furnished : RawRecord :=
  [(lit "MLS", Str (lit " 123456 ")); (lit "url", Str (lit "https://x.com/1"));
   (lit "beds", Str (lit "3 beds")); (lit "baths", Num (Number_of_string (lit "2.5")));
   (lit "priceText", Str (lit "$450,000"))].

Definition condo_request : WorkflowInput :=
  {| input_as_text := lit "2 bedroom condo";
     input_variables :=
       Some {| entries := [(lit "location", Str (lit "Montreal, QC"));
                           (lit "priceMax", Str (lit "750000"))];
               listings := Some [Object first_seen; Object same_listing] |} |}.

(** *** Vocabulary for further properties of the normalizer *)

(** The price of the record can be read without a throw: it is given
    directly, or its price text is falsy or a string. *)
Definition price_readable (record : RawRecord) : bool :=
  negb (nullish (get record (lit "price")))
  || (let t := first [get record (lit "priceText"); get record (lit "price_str");
                      get record (lit "askingPrice")] in
      negb (truthy t) || match t with Str _ => true | _ => false end).

(** A field that was present is still there, unchanged. *)
Definition kept {A} (before after : option A) : Prop :=
  match before with Some _ => after = before | None => True end.

(** [r] is [prior] with, at most, absent fields filled. *)
Definition extends (prior r : NormalizedListing) : Prop :=
  mls r = mls prior /\ url r = url prior
  /\ kept (address prior) (address r) /\ kept (price prior) (price r)
  /\ kept (beds prior) (beds r) /\ kept (baths prior) (baths r)
  /\ kept (type prior) (type r) /\ kept (note_fr prior) (note_fr r)
  /\ kept (note_en prior) (note_en r).

(** [res] holds the records of [out] at the same places, each one
    possibly with absent fields filled, and maybe more records after. *)
Definition grows (out res : list NormalizedListing) : Prop :=
  (length out <= length res)%nat
  /\ forall i prior, out !! i = Some prior -> exists r, res !! i = Some r /\ extends prior r.

(** Every record of [out] that carries an identifier of its own is
    registered in [seen] under that identifier. *)
Definition keyed (toUpperCase : jsstring -> jsstring) (seen : gmap jsstring nat)
    (out : list NormalizedListing) : Prop :=
  forall i r, out !! i = Some r ->
    seen !! (lit "MLS:" ++ toUpperCase (mls r)) = Some i
    \/ mls r = MLS_NOT_FOUND \/ mls r = [].

Definition priced_as_number : RawRecord := [(lit "priceText", Num (of_Z 450000))].

Definition listed_at (address : string) : RawRecord :=
  [(lit "url", Str (lit " https://centris.ca/1 ")); (lit "address", Str (lit address))].

Definition priced_later : RawRecord :=
  [(lit "url", Str (lit "https://centris.ca/1")); (lit "price", Num (of_Z 350000))].

Definition unreadable_page : RawRecord :=
  [(lit "url", Str (lit "https://centris.ca/1")); (lit "priceText", Num (of_Z 450000))].

(** [workflow.input_variables ?? {}], its scalar entries. *)
Definition variables_of (workflow : WorkflowInput) : RawRecord :=
  match input_variables workflow with
  | Some v => entries v
  | None => []
  end.

(** The location asked for: the variable [location] when it is a string
    with more than white space in it, trimmed. *)
Definition location_asked (workflow : WorkflowInput) : option jsstring :=
  match get (variables_of workflow) (lit "location") with
  | Str s => match trim s with [] => None | t => Some t end
  | _ => None
  end.

(** A request that carries no variables. *)
Definition bare_request : WorkflowInput :=
  {| input_as_text := lit "  condo in Laval  "; input_variables := None |}.

End Normalizer.

(** ** agent.ts: the tool-calling loop *)

Module Agent.

Definition MAX_AGENT_STEPS : nat := 6.

Inductive Role := system | user | assistant | tool.

Record ToolCall := {
  id : jsstring;
  function_name : jsstring;
  function_arguments : jsstring;
}.

(** [ChatMessage]; [content] is [None] where a response carries [null]. *)
Record ChatMessage := {
  role : Role;
  content : option jsstring;
  tool_call_id : option jsstring;
  tool_calls : option (list ToolCall);
}.

Record Choice := {
  finish_reason : jsstring;
  message : option ChatMessage;
}.

Record ChatCompletionResponse := {
  choices : list Choice;
}.

Record AgentSource := {
  title : option jsstring;
  url : jsstring;
  details : option jsstring;
}.

Record AgentRunResult := {
  listings : list JSON;
  sources : list AgentSource;
  notes_en : option jsstring;
  notes_fr : option jsstring;
  warnings : list jsstring;
  rawResponse : option jsstring;
}.

(** [parsed.key] on a parsed JSON value that is not [null]: an own
    property of an object, [undefined] (here [None]) otherwise. *)
Definition property (v : JSON) (key : jsstring) : option JSON :=
  match v with
  | JObject members => snd <$> List.find (fun m => bool_decide (fst m = key)) members
  | _ => None
  end.

Definition string_or_null (v : option JSON) : option jsstring :=
  match v with Some (JString s) => Some s | _ => None end.

Definition array_or_empty (v : option JSON) : list JSON :=
  match v with Some (JArray l) => l | _ => [] end.

(** The [map] and [filter] over [sourcesRaw]: an object with a non-empty
    string [url] is kept. *)
Definition source_of (source : JSON) : option AgentSource :=
  match source with
  | JObject _ =>
      match property source (lit "url") with
      | Some (JString (c :: u)) =>
          Some {| title := string_or_null (property source (lit "title"));
                  url := c :: u;
                  details := string_or_null (property source (lit "details")) |}
      | _ => None
      end
  | _ => None
  end.

(** The names [Object.prototype] defines; an object literal inherits
    them. *)
Definition Object_prototype : list jsstring :=
  [lit "constructor"; lit "__defineGetter__"; lit "__defineSetter__";
   lit "hasOwnProperty"; lit "__lookupGetter__"; lit "__lookupSetter__";
   lit "isPrototypeOf"; lit "propertyIsEnumerable"; lit "toString";
   lit "valueOf"; lit "__proto__"; lit "toLocaleString"].

Inductive executor :=
  | performWebSearch
  | fetchListingPage
  | inherited (name : jsstring).

(** [toolExecutors[name]]: the own property, else the one inherited from
    [Object.prototype], else [undefined]. *)
Definition toolExecutors (name : jsstring) : option executor :=
  if decide (name = lit "search_listings") then Some performWebSearch
  else if decide (name = lit "fetch_listing_page") then Some fetchListingPage
  else if decide (name ∈ Object_prototype) then Some (inherited name)
  else None.

(** [executor(args)] for an inherited member, called with [this]
    undefined: [Object(args)] is [args] (a fresh object for [null]),
    [toString] names the missing receiver, [isPrototypeOf] answers
    [false] to a primitive, and the others throw a [TypeError], as does
    calling the value of [__proto__], which is not a function. *)
Definition call_inherited (name : jsstring) (args : JSON) : completion JSON :=
  if decide (name = lit "constructor")
  then Returns (match args with JNull => JObject [] | _ => args end)
  else if decide (name = lit "toString") then Returns (JString (lit "[object Undefined]"))
  else if decide (name = lit "isPrototypeOf")
  then match args with
       | JArray _ | JObject _ => Throws TypeError
       | _ => Returns (JBool false)
       end
  else Throws TypeError.

Section WithEnvironment.

(** The world outside the process, and the calls that reach it. *)
Variable World : Type.

(** [callOpenAI]: the response, or the message of the error it throws. *)
Variable callOpenAI : list ChatMessage -> World -> (jsstring + ChatCompletionResponse) * World.

(** The two registered tools, [performWebSearch] and [fetchListingPage]:
    a call resolves to an object, or rejects with what the tool threw. *)
Variable search : JSON -> World -> completion JSON * World.
Variable fetch : JSON -> World -> completion JSON * World.

(** [JSON.parse]; [None] when it throws a [SyntaxError]. *)
Variable JSON_parse : jsstring -> option JSON.

(** [process.env.OPENAI_API_KEY] and the text of [buildSystemPrompt(criteria)]. *)
Variable OPENAI_API_KEY : option jsstring.
Variable systemPrompt : jsstring.

(** [safeJsonParse] *)
Definition safeJsonParse (value : jsstring) (fallback : JSON) : JSON :=
  match JSON_parse value with Some v => v | None => fallback end.

(** A call to the endpoint: the messages sent, and the answer. *)
Definition exchange : Type := list ChatMessage * (jsstring + ChatCompletionResponse).

(** The result of a run and, kept beside it, the calls made to the
    endpoint and the conversation as it stood at the end. *)
Record Run := {
  result : completion AgentRunResult;
  exchanges : list exchange;
  conversation : list ChatMessage;
}.

(** [await executor(args)] *)
Definition execute (e : executor) (args : JSON) (w : World) : completion JSON * World :=
  match e with
  | performWebSearch => search args w
  | fetchListingPage => fetch args w
  | inherited name => (call_inherited name args, w)
  end.

(** The local [args]: [safeJsonParse(toolCall.function.arguments || "{}", {})] *)
Definition arguments_of (toolCall : ToolCall) : JSON :=
  let arguments := match function_arguments toolCall with [] => lit "{}" | a => a end in
  safeJsonParse arguments (JObject []).

(** The body of [for (const toolCall of toolCalls)]: the result of one
    call. *)
Definition toolResult (toolCall : ToolCall) (w : World) : completion JSON * World :=
  match toolExecutors (function_name toolCall) with
  | None =>
      (Returns (JObject [(lit "error", JString (lit "Unknown tool " ++ function_name toolCall))]), w)
  | Some e => execute e (arguments_of toolCall) w
  end.

Definition tool_message (toolCall : ToolCall) (r : JSON) : ChatMessage :=
  {| role := tool; content := Some (JSON_stringify r);
     tool_call_id := Some (id toolCall); tool_calls := None |}.

Fixpoint runToolCalls (toolCalls : list ToolCall) (messages : list ChatMessage) (w : World)
  : completion (list ChatMessage) * World :=
  match toolCalls with
  | [] => (Returns messages, w)
  | toolCall :: rest =>
      match toolResult toolCall w with
      | (Returns r, w') => runToolCalls rest (messages ++ [tool_message toolCall r]) w'
      | (Throws e, w') => (Throws e, w')
      end
  end.

(** The messages as the loop over the tool calls leaves them: when a
    call throws, the tool messages of the calls before it have been
    pushed. *)
Fixpoint pushed (toolCalls : list ToolCall) (messages : list ChatMessage) (w : World)
  : list ChatMessage :=
  match toolCalls with
  | [] => messages
  | toolCall :: rest =>
      match toolResult toolCall w with
      | (Returns r, w') => pushed rest (messages ++ [tool_message toolCall r]) w'
      | (Throws _, _) => messages
      end
  end.

Definition failed (warnings : list jsstring) : AgentRunResult :=
  {| listings := []; sources := []; notes_en := None; notes_fr := None;
     warnings := warnings; rawResponse := None |}.

(** The branch taken on [stop] and [length]: reading a property of a
    parsed [null] throws. *)
Definition completed (rawContent : jsstring) (warnings : list jsstring)
  : completion AgentRunResult :=
  match safeJsonParse rawContent (JObject []) with
  | JNull => Throws TypeError
  | parsed =>
      Returns {| listings := array_or_empty (property parsed (lit "listings"));
                 sources := omap source_of (array_or_empty (property parsed (lit "sources")));
                 notes_en := string_or_null (property parsed (lit "notes_en"));
                 notes_fr := string_or_null (property parsed (lit "notes_fr"));
                 warnings := warnings;
                 rawResponse := Some rawContent |}
  end.

Definition is_final (finish_reason : jsstring) : bool :=
  bool_decide (finish_reason = lit "stop") || bool_decide (finish_reason = lit "length").

(** The [while (iterations < MAX_AGENT_STEPS)] loop, by recursion on the
    turns left, [MAX_AGENT_STEPS - iterations]. *)
Fixpoint turns (left : nat) (messages : list ChatMessage) (warnings : list jsstring)
    (exchanges : list exchange) (w : World) : Run * World :=
  let stop r msgs exs w := ({| result := r; exchanges := exs; conversation := msgs |}, w) in
  match left with
  | O => stop (Returns (failed warnings)) messages exchanges w
  | S left' =>
      let '(answer, w) := callOpenAI messages w in
      let exchanges := exchanges ++ [(messages, answer)] in
      match answer with
      | inl error => stop (Returns (failed (warnings ++ [error]))) messages exchanges w
      | inr completion =>
          match choices completion with
          | [] =>
              stop (Returns (failed (warnings ++ [lit "OpenAI API returned no choices"])))
                   messages exchanges w
          | choice :: _ =>
              let message :=
                match message choice with
                | Some m => m
                | None => {| role := assistant; content := Some [];
                             tool_call_id := None; tool_calls := None |}
                end in
              let text := default [] (content message) in
              match default [] (tool_calls message) with
              | (_ :: _) as toolCalls =>
                  let messages :=
                    messages ++ [{| role := assistant; content := Some text;
                                    tool_call_id := None; tool_calls := Some toolCalls |}] in
                  match runToolCalls toolCalls messages w with
                  | (Returns messages, w) => turns left' messages warnings exchanges w
                  | (Throws e, w') =>
                      stop (Throws e) (pushed toolCalls messages w) exchanges w'
                  end
              | [] =>
                  if is_final (finish_reason choice)
                  then stop (completed text warnings) messages exchanges w
                  else if decide (finish_reason choice = lit "content_filter")
                  then stop (Returns (failed (warnings ++
                               [lit "OpenAI content filter blocked the response"])))
                            messages exchanges w
                  else stop (Returns (failed (warnings ++
                               [lit "Unexpected finish reason: " ++ finish_reason choice])))
                            messages exchanges w
              end
          end
      end
  end.

Definition runListingAgent (prompt : jsstring) (w : World) : Run * World :=
  match OPENAI_API_KEY with
  | None | Some [] =>
      ({| result := Returns (failed [lit "OPENAI_API_KEY is not configured"]);
          exchanges := []; conversation := [] |}, w)
  | Some _ =>
      let messages :=
        [{| role := system; content := Some systemPrompt;
            tool_call_id := None; tool_calls := None |};
         {| role := user;
            content := Some (lit "User request: " ++ prompt ++ [10%N]
                             ++ lit "Remember to return only JSON.");
            tool_call_id := None; tool_calls := None |}] in
      turns MAX_AGENT_STEPS messages [] [] w
  end.

End WithEnvironment.

(** *** Vocabulary for the properties of the loop *)

(** The first choice of an answer, if it has one. *)
Definition first_choice (answer : jsstring + ChatCompletionResponse) : option Choice :=
  match answer with
  | inr completion => head (choices completion)
  | inl _ => None
  end.

(** [message.tool_calls ?? []] of a choice. *)
Definition toolCalls_of (choice : Choice) : list ToolCall :=
  match message choice with
  | Some m => default [] (tool_calls m)
  | None => []
  end.

(** The answer asks for tool calls. *)
Definition requests_tools (answer : jsstring + ChatCompletionResponse) : bool :=
  match first_choice answer with
  | Some choice => match toolCalls_of choice with [] => false | _ => true end
  | None => false
  end.

(** The answer ends the run with a result: no tool call, and the finish
    reason [stop] or [length]. *)
Definition completes (answer : jsstring + ChatCompletionResponse) : bool :=
  match first_choice answer with
  | Some choice =>
      match toolCalls_of choice with [] => is_final (finish_reason choice) | _ => false end
  | None => false
  end.

(** The tool calls of an answer. *)
Definition toolCalls_in (answer : jsstring + ChatCompletionResponse) : list ToolCall :=
  match first_choice answer with
  | Some choice => toolCalls_of choice
  | None => []
  end.

(** No tool call of the answer names a member of [Object.prototype]. *)
Definition tools_callable (answer : jsstring + ChatCompletionResponse) : Prop :=
  Forall (fun toolCall => function_name toolCall ∉ Object_prototype) (toolCalls_in answer).

(** No call of a registered tool in the answer throws, in whatever state
    the world is when it is made. *)
Definition tools_return {World : Type} (search fetch : JSON -> World -> completion JSON * World)
    (JSON_parse : jsstring -> option JSON) (answer : jsstring + ChatCompletionResponse) : Prop :=
  Forall (fun toolCall =>
            forall w,
              (function_name toolCall = lit "search_listings" ->
               exists r w', search (arguments_of JSON_parse toolCall) w = (Returns r, w'))
              /\ (function_name toolCall = lit "fetch_listing_page" ->
                  exists r w', fetch (arguments_of JSON_parse toolCall) w = (Returns r, w')))
         (toolCalls_in answer).

(** *** A scripted environment *)

(** An answer that asks for one call of the tool [name]. *)
Definition tool_request (name : jsstring) : ChatCompletionResponse :=
  {| choices :=
       [{| finish_reason := lit "tool_calls";
           message :=
             Some {| role := assistant; content := None; tool_call_id := None;
                     tool_calls := Some [{| id := lit "call_1"; function_name := name;
                                            function_arguments := lit "{}" |}] |} |}] |}.

(** An endpoint that always gives the same answer. *)
Definition always (answer : jsstring + ChatCompletionResponse)
  : list ChatMessage -> unit -> (jsstring + ChatCompletionResponse) * unit :=
  fun _ w => (answer, w).

(** A tool that finds nothing. *)
Definition empty_tool : JSON -> unit -> completion JSON * unit :=
  fun _ w => (Returns (JObject []), w).

(** [JSON.parse] on the one text the scripted answers carry. *)
Definition parse_braces (s : jsstring) : option JSON :=
  if decide (s = lit "{}") then Some (JObject []) else None.

Definition scripted (name : jsstring) : Run :=
  fst (runListingAgent unit (always (inr (tool_request name))) empty_tool empty_tool
         parse_braces (Some (lit "sk-test")) (lit "You are an agent.")
         (lit "2 bedroom condo") ()).

(** *** Vocabulary for further properties of the loop *)

(** The two messages a run starts from. *)
Definition initial_messages (systemPrompt prompt : jsstring) : list ChatMessage :=
  [{| role := system; content := Some systemPrompt;
      tool_call_id := None; tool_calls := None |};
   {| role := user;
      content := Some (lit "User request: " ++ prompt ++ [10%N]
                       ++ lit "Remember to return only JSON.");
      tool_call_id := None; tool_calls := None |}].

(** [message.content || ""] of a choice. *)
Definition text_of (choice : Choice) : jsstring :=
  match message choice with
  | Some m => default [] (content m)
  | None => []
  end.

(** The assistant message pushed before the tools of a choice are run. *)
Definition assistant_message (choice : Choice) : ChatMessage :=
  {| role := assistant; content := Some (text_of choice); tool_call_id := None;
     tool_calls := Some (toolCalls_of choice) |}.

(** The error object written for a tool that does not exist. *)
Definition unknown_tool (name : jsstring) : JSON :=
  JObject [(lit "error", JString (lit "Unknown tool " ++ name))].

(** [b] is [a] with at least one more element at its end. *)
Definition longer {A} (a b : list A) : Prop := exists more, more <> [] /\ b = a ++ more.

(** Each list of the sequence is the one before it with more at its end. *)
Definition growing {A} (ls : list (list A)) : Prop :=
  forall i a b, ls !! i = Some a -> ls !! S i = Some b -> longer a b.

(** The lists of [ls] begin with [m] and go on growing. *)
Fixpoint chain {A} (m : list A) (ls : list (list A)) : Prop :=
  match ls with
  | [] => True
  | a :: rest =>
      a = m /\ match rest with
               | [] => True
               | b :: _ => longer m b /\ chain b rest
               end
  end.

(** The parsed text is neither an object nor [null]: it did not parse,
    or it is a number, a string, a boolean or an array. *)
Definition no_object (parsed : option JSON) : bool :=
  match parsed with
  | Some (JObject _) | Some JNull => false
  | _ => true
  end.

(** What a result holds when the run ends without an answer. *)
Definition empty_handed (r : AgentRunResult) : Prop :=
  listings r = [] /\ sources r = [] /\ notes_en r = None /\ notes_fr r = None.

(** An answer that ends the run with [text]. *)
Definition final_answer (text : jsstring) : ChatCompletionResponse :=
  {| choices :=
       [{| finish_reason := lit "stop";
           message := Some {| role := assistant; content := Some text;
                              tool_call_id := None; tool_calls := None |} |}] |}.

(** [JSON.parse] on the texts the scripted answers carry. *)
Definition parse_sample (s : jsstring) : option JSON :=
  if decide (s = lit "{}") then Some (JObject [])
  else if decide (s = lit "null") then Some JNull
  else if decide (s = lit "[]") then Some (JArray [])
  else if decide (s = lit "answer") then
    Some (JObject [(lit "listings", JArray [JObject [(lit "mls", JString (lit "A1"))]]);
                   (lit "sources",
                    JArray [JObject [(lit "url", JString (lit "https://centris.ca/1"))];
                            JObject [(lit "url", JString [])];
                            JString (lit "https://realtor.ca")])])
  else None.

(** A run whose first answer is final and carries [text]. *)
Definition answered (text : jsstring) : Run :=
  fst (runListingAgent unit (always (inr (final_answer text))) empty_tool empty_tool
         parse_sample (Some (lit "sk-test")) (lit "You are an agent.")
         (lit "2 bedroom condo") ()).

(** [!apiKey] fails: a key is set and is not the empty string. *)
Definition configured (key : option jsstring) : bool :=
  match key with Some (_ :: _) => true | _ => false end.

(** All elements but the last. *)
Definition all_but_last {A} (l : list A) : list A := take (length l - 1) l.

(** Two tool calls: a registered tool, and a name that is not known. *)
Definition two_calls : list ToolCall :=
  [{| id := lit "call_1"; function_name := lit "search_listings";
      function_arguments := lit "{}" |};
   {| id := lit "call_2"; function_name := lit "lookup_mls"; function_arguments := [] |}].

End Agent.

(** ** agent.ts: the two tools and the page cleaner *)

Module Tools.

(** *** [extractTextFromHtml] *)

(** The case folding of the [i] flag on the patterns used here, which
    hold ASCII letters only: a lowercase ASCII letter folds to its
    uppercase, and no code unit above 127 folds to an ASCII one. *)
Definition fold_case (c : N) : N :=
  if (97 <=? c)%N && (c <=? 122)%N then (c - 32)%N else c.

(** [s] begins with [p], case ignored: what follows [p] in [s]. *)
Fixpoint strip_prefix_ci (p s : jsstring) : option jsstring :=
  match p, s with
  | [], _ => Some s
  | a :: p', c :: s' =>
      if (fold_case a =? fold_case c)%N then strip_prefix_ci p' s' else None
  | _ :: _, [] => None
  end.

(** The number of code units of [s] up to the first [c], [c] included. *)
Fixpoint through_unit (c : N) (s : jsstring) : option nat :=
  match s with
  | [] => None
  | d :: s' => if (d =? c)%N then Some 1%nat else S <$> through_unit c s'
  end.

(** The number of code units of [s] up to the first occurrence of [p],
    case ignored, [p] included. *)
Fixpoint through_ci (p s : jsstring) : option nat :=
  match strip_prefix_ci p s with
  | Some _ => Some (length p)
  | None =>
      match s with
      | [] => None
      | _ :: s' => S <$> through_ci p s'
      end
  end.

(** The match of [/<name[^>]*>[\s\S]*?<\/name>/i] at the start of [s],
    as its length: the opening tag runs to the first [>], and the lazy
    body to the first closing tag after it. *)
Definition match_element (name : jsstring) (s : jsstring) : option nat :=
  match strip_prefix_ci ([60%N] ++ name) s with
  | None => None
  | Some after_name =>
      match through_unit 62 after_name with
      | None => None
      | Some opening =>
          match through_ci ([60%N; 47%N] ++ name ++ [62%N]) (drop opening after_name) with
          | None => None
          | Some body => Some (length ([60%N] ++ name) + opening + body)%nat
          end
      end
  end.

(** The match of [/<[^>]+>/] at the start of [s], as its length. *)
Definition match_tag (s : jsstring) : option nat :=
  match s with
  | 60%N :: c :: s' =>
      if (c =? 62)%N then None else (fun n => 2 + n)%nat <$> through_unit 62 s'
  | _ => None
  end.

(** [s.replace(re, " ")] for a global pattern that matches no empty
    string. [matcher s] is the length of the match at the start of [s];
    [skip] counts the code units of the last match still to be passed
    over. *)
Fixpoint replace_from (matcher : jsstring -> option nat) (skip : nat) (s : jsstring) : jsstring :=
  match s with
  | [] => []
  | c :: s' =>
      match skip with
      | S skip' => replace_from matcher skip' s'
      | O =>
          match matcher s with
          | Some n => 32%N :: replace_from matcher (n - 1) s'
          | None => c :: replace_from matcher 0 s'
          end
      end
  end.

Definition replace_all (matcher : jsstring -> option nat) (s : jsstring) : jsstring :=
  replace_from matcher 0 s.

(** [s.replace(/\s+/g, " ")]: [within] tells that the code unit before
    was white space too. *)
Fixpoint collapse (within : bool) (s : jsstring) : jsstring :=
  match s with
  | [] => []
  | c :: s' =>
      if is_space c
      then (if within then collapse true s' else 32%N :: collapse true s')
      else c :: collapse false s'
  end.

Definition extractTextFromHtml (html : jsstring) : jsstring :=
  let withoutScripts := replace_all (match_element (lit "script")) html in
  let withoutStyles := replace_all (match_element (lit "style")) withoutScripts in
  let withoutTags := replace_all match_tag withoutStyles in
  trim (collapse false withoutTags).

(** *** Values parsed from JSON, as the tools read them *)

(** ToBoolean of a parsed value: the test behind [v || w]. *)
Definition JSON_truthy (v : JSON) : bool :=
  match v with
  | JNull => false
  | JBool b => b
  | JNumber n => truthy (Num n)
  | JString s => truthy (Str s)
  | JArray _ | JObject _ => true
  end.

(** [v || null] for a property that may be missing. *)
Definition or_null (v : option JSON) : JSON :=
  match v with
  | Some x => if JSON_truthy x then x else JNull
  | None => JNull
  end.

Definition has_member (key : jsstring) (members : list (jsstring * JSON)) : bool :=
  existsb (fun m => bool_decide (fst m = key)) members.

(** [String(v)] of a parsed value. An array joins the strings of its
    elements, [null] counting as the empty string. An object is
    converted by the [toString] it finds: the one of [Object.prototype],
    unless a member of that name hides it; such a member is no function,
    [valueOf] gives back the object, and the conversion throws. *)
Fixpoint JSON_toString (v : JSON) : completion jsstring :=
  match v with
  | JNull => Returns (lit "null")
  | JBool true => Returns (lit "true")
  | JBool false => Returns (lit "false")
  | JNumber n => Returns (Number_toString n)
  | JString s => Returns s
  | JArray items =>
      bind ((fix elements (l : list JSON) : completion (list jsstring) :=
               match l with
               | [] => Returns []
               | x :: l' =>
                   bind (match x with JNull => Returns [] | _ => JSON_toString x end) (fun s =>
                   bind (elements l') (fun ss => Returns (s :: ss)))
               end) items)
           (fun parts => Returns (join [44%N] parts))
  | JObject members =>
      if has_member (lit "toString") members then Throws TypeError
      else Returns (lit "[object Object]")
  end.

(** [Number(v)] of a parsed value: an array or an object goes through
    its string. *)
Definition JSON_toNumber (v : JSON) : completion number :=
  match v with
  | JNull => Returns zero
  | JBool b => Returns (Number (Bool b))
  | JNumber n => Returns n
  | JString s => Returns (Number_of_string s)
  | JArray _ | JObject _ => bind (JSON_toString v) (fun s => Returns (Number_of_string s))
  end.

(** [Math.max] and [Math.min] of two numbers. *)
Definition Math_max (a b : number) : number :=
  match SFcompare a b with
  | None => NaN
  | Some Gt => a
  | Some Lt => b
  | Some Eq => match a with S754_zero true => b | _ => a end
  end.

Definition Math_min (a b : number) : number :=
  match SFcompare a b with
  | None => NaN
  | Some Lt => a
  | Some Gt => b
  | Some Eq => match a with S754_zero true => a | _ => b end
  end.

Definition error_object (message : jsstring) : JSON := JObject [(lit "error", JString message)].

(** *** The network *)

(** What a request comes to: it is rejected (the text is
    [String(error?.message || error)] of what was thrown, by [fetch] or
    while the body was read), or answered with a status that is not ok,
    or answered with a body. *)
Inductive reply (A : Type) :=
  | rejected (message : jsstring)
  | refused (status : N) (statusText errorText : jsstring)
  | accepted (a : A).
Arguments rejected {A} message.
Arguments refused {A} status statusText errorText.
Arguments accepted {A} a.

Section WithNetwork.

Variable World : Type.

(** [GET url], the body read as text. *)
Variable http_get : jsstring -> World -> reply jsstring * World.

(** [POST] of a body to the search service, the answer read as JSON. *)
Variable tavily : JSON -> World -> reply JSON * World.

(** [process.env.TAVILY_API_KEY] *)
Variable TAVILY_API_KEY : option jsstring.

(** The [body] of [runTavilySearch]. *)
Definition search_body (query apiKey : jsstring) (maxResults : number) : JSON :=
  JObject [(lit "api_key", JString apiKey);
           (lit "query", JString query);
           (lit "search_depth", JString (lit "advanced"));
           (lit "max_results", JNumber (Math_min (Math_max maxResults (of_Z 1)) (of_Z 10)));
           (lit "include_images", JBool false);
           (lit "include_answer", JBool false)].

(** One element of [results.map(...)]. *)
Definition search_result (result : JSON) : JSON :=
  JObject [(lit "title", or_null (Agent.property result (lit "title")));
           (lit "url", or_null (Agent.property result (lit "url")));
           (lit "snippet",
            match Agent.property result (lit "content") with
            | Some content =>
                if JSON_truthy content then content
                else or_null (Agent.property result (lit "snippet"))
            | None => or_null (Agent.property result (lit "snippet"))
            end)].

(** [runTavilySearch]: the results, or the message of the error it
    throws. *)
Definition runTavilySearch (query apiKey : jsstring) (maxResults : number) (w : World)
  : (jsstring + list JSON) * World :=
  match tavily (search_body query apiKey maxResults) w with
  | (rejected message, w') => (inl message, w')
  | (refused status statusText errorText, w') =>
      (inl (lit "Tavily API error: " ++ digits_of_N status ++ [32%N] ++ statusText
            ++ lit " - " ++ errorText), w')
  | (accepted data, w') =>
      (inr (map search_result (Agent.array_or_empty (Agent.property data (lit "results")))), w')
  end.

(** [Number(args?.max_results ?? 6)] *)
Definition maxResultsRaw (args : JSON) : completion number :=
  match Agent.property args (lit "max_results") with
  | None | Some JNull => Returns (of_Z 6)
  | Some v => JSON_toNumber v
  end.

(** The local [query] of [performWebSearch]. *)
Definition query_of (args : JSON) : option jsstring :=
  match Agent.property args (lit "query") with
  | Some (JString s) => match trim s with [] => None | q => Some q end
  | _ => None
  end.

(** [performWebSearch]. The number of results is converted before the
    query is looked at, and outside the [try] block. *)
Definition performWebSearch (args : JSON) (w : World) : completion JSON * World :=
  let query := query_of args in
  match maxResultsRaw args with
  | Throws e => (Throws e, w)
  | Returns raw =>
      let maxResults := if isFinite raw then raw else of_Z 6 in
      match query with
      | None => (Returns (error_object (lit "query is required")), w)
      | Some query =>
          match TAVILY_API_KEY with
          | None | Some [] => (Returns (error_object (lit "TAVILY_API_KEY is not configured")), w)
          | Some apiKey =>
              match runTavilySearch query apiKey maxResults w with
              | (inr results, w') =>
                  (Returns (JObject [(lit "query", JString query);
                                     (lit "results", JArray results)]), w')
              | (inl message, w') => (Returns (error_object message), w')
              end
          end
      end
  end.

(** [fetchListingPage] *)
#[warnings="-abstract-large-number"]
Definition fetchListingPage (args : JSON) (w : World) : JSON * World :=
  match Agent.property args (lit "url") with
  | Some (JString (c :: u)) =>
      let url := c :: u in
      match http_get url w with
      | (rejected message, w') => (error_object message, w')
      | (refused status _ _, w') =>
          (error_object (lit "Failed to fetch page (" ++ digits_of_N status ++ lit ")"), w')
      | (accepted html, w') =>
          let text := take 9000 (extractTextFromHtml html) in
          (JObject [(lit "url", JString url);
                    (lit "text", JString text);
                    (lit "length", JNumber (of_Z (Z.of_nat (length text))))], w')
      end
  | _ => (error_object (lit "url is required"), w)
  end.

End WithNetwork.

(** *** Vocabulary for the properties of the tools *)

(** White space appears as single spaces only. *)
Fixpoint spaced (s : jsstring) : bool :=
  match s with
  | [] => true
  | c :: s' =>
      (if is_space c
       then (c =? 32)%N && match s' with d :: _ => negb (is_space d) | [] => true end
       else true)
      && spaced s'
  end.

(** After a [<] comes a [>] at once or never: nothing in [s] has the
    shape of a tag. *)
Definition tag_free (s : jsstring) : Prop :=
  forall a b, s = a ++ 60%N :: b -> head b = Some 62%N \/ 62%N ∉ b.

(** [1 <= n <= 10] *)
Definition in_range (n : number) : bool := SFleb (of_Z 1) n && SFleb n (of_Z 10).

(** [max_results] is missing, or is [null], a boolean, a number or a
    string. *)
Definition plain_limit (args : JSON) : bool :=
  match Agent.property args (lit "max_results") with
  | Some (JArray _) | Some (JObject _) => false
  | _ => true
  end.

(** A request the search service is meant to get. *)
Definition well_formed (body : JSON) : bool :=
  match body with
  | JObject [(k1, JString (_ :: _)); (k2, JString (c :: q)); (k3, JString depth);
             (k4, JNumber n); (k5, JBool false); (k6, JBool false)] =>
      bool_decide (k1 = lit "api_key") && bool_decide (k2 = lit "query")
      && bool_decide (k3 = lit "search_depth") && bool_decide (k4 = lit "max_results")
      && bool_decide (k5 = lit "include_images") && bool_decide (k6 = lit "include_answer")
      && bool_decide (trim (c :: q) = c :: q) && bool_decide (depth = lit "advanced")
      && in_range n
  | _ => false
  end.

(** What [fetchListingPage] may resolve to: an error, or a page whose
    text is short, spaced, free of tags and as long as [length] says. *)
#[warnings="-abstract-large-number"]
Definition page_result (r : JSON) : Prop :=
  match r with
  | JObject [(k, JString _)] => k = lit "error"
  | JObject [(k1, JString u); (k2, JString text); (k3, JNumber n)] =>
      k1 = lit "url" /\ k2 = lit "text" /\ k3 = lit "length"
      /\ u <> [] /\ (length text <= 9000)%nat /\ n = of_Z (Z.of_nat (length text))
      /\ spaced text = true /\ tag_free text
  | _ => False
  end.

(** *** A scripted network *)

(** A page and a search service that answer every request in the same way. *)
Definition one_page (html : jsstring) : jsstring -> unit -> reply jsstring * unit :=
  fun _ w => (accepted html, w).

Definition one_answer (data : JSON) : JSON -> unit -> reply JSON * unit :=
  fun _ w => (accepted data, w).

(** A search service that rejects what is not well formed. *)
Definition strict_answer (data : JSON) : JSON -> unit -> reply JSON * unit :=
  fun body w => (if well_formed body then accepted data else rejected (lit "Bad Request"), w).

Definition sample_page : jsstring :=
  lit "<html><head><STYLE>p { color: red }</STYLE><script type='text/javascript'>if (a < b) { go() }</script></head><body><h1>12 Oak Ave</h1>  <p> $450,000 &lt; 3 beds </p></body></html>".

Definition no_url_args : JSON :=
  JObject [(lit "href", JString (lit "https://centris.ca/1")); (lit "url", JString [])].

Definition bad_limit_args : JSON :=
  JObject [(lit "query", JString (lit "condo Laval"));
           (lit "max_results", JObject [(lit "toString", JNumber (of_Z 1))])].

Definition no_query_args : JSON :=
  JObject [(lit "query", JString (lit "   ")); (lit "max_results", JString (lit "3"))].

Definition wide_search_args : JSON :=
  JObject [(lit "query", JString (lit " condo Laval ")); (lit "max_results", JNumber (of_Z 50))].

Definition sample_data : JSON :=
  JObject [(lit "results",
            JArray [JObject [(lit "title", JString (lit "12 Oak Ave"));
                             (lit "url", JString (lit "https://centris.ca/1"));
                             (lit "content", JString [])];
                    JNull])].

(** The two tools over the scripted network, as the loop calls them. *)
Definition search_tool : JSON -> unit -> completion JSON * unit :=
  performWebSearch unit (one_answer sample_data) (Some (lit "tvly-test")).

Definition fetch_tool : JSON -> unit -> completion JSON * unit :=
  fun args w =>
    let '(r, w') := fetchListingPage unit (one_page sample_page) args w in (Returns r, w').

(** A run in which every answer asks for a search with the arguments
    [{}], the tools being the two above. *)
Definition searching : Agent.Run :=
  fst (Agent.runListingAgent unit
         (Agent.always (inr (Agent.tool_request (lit "search_listings"))))
         search_tool fetch_tool Agent.parse_braces (Some (lit "sk-test"))
         (lit "You are an agent.") (lit "2 bedroom condo") ()).

(** An answer that asks for a search with [bad_limit_args], written out
    as JSON, and a [JSON.parse] that reads that text. *)
Definition bad_request : Agent.ChatCompletionResponse :=
  {| Agent.choices :=
       [{| Agent.finish_reason := lit "tool_calls";
           Agent.message :=
             Some {| Agent.role := Agent.assistant; Agent.content := None;
                     Agent.tool_call_id := None;
                     Agent.tool_calls :=
                       Some [{| Agent.id := lit "call_1";
                                Agent.function_name := lit "search_listings";
                                Agent.function_arguments := JSON_stringify bad_limit_args |}] |} |}] |}.

Definition parse_bad_limit (s : jsstring) : option JSON :=
  if decide (s = JSON_stringify bad_limit_args) then Some bad_limit_args else None.

Definition searching_badly : Agent.Run :=
  fst (Agent.runListingAgent unit (Agent.always (inr bad_request))
         search_tool fetch_tool parse_bad_limit (Some (lit "sk-test"))
         (lit "You are an agent.") (lit "2 bedroom condo") ()).

End Tools.

(** ** The agents SDK variant: the normalizer as a tool *)

Module Sdk.

(** What [seen[key]] finds on an object literal used as a map: an index
    stored under [key], or the member of [Object.prototype] of that
    name. *)
Inductive slot :=
  | stored (idx : nat)
  | inherited.

Definition seen_get (seen : gmap jsstring nat) (key : jsstring) : option slot :=
  match seen !! key with
  | Some idx => Some (stored idx)
  | None => if decide (key ∈ Agent.Object_prototype) then Some inherited else None
  end.

Section WithCaseMapping.

Variable toUpperCase : jsstring -> jsstring.

(** One pass of the loop body. The test is [seen[key] == null]; an
    inherited member is not an index, [out[idx]] is then [undefined],
    and reading [prior.address] throws. *)
Definition step (seen : gmap jsstring nat) (out : list Normalizer.NormalizedListing)
    (item : Normalizer.RawRecord)
  : completion (gmap jsstring nat * list Normalizer.NormalizedListing) :=
  bind (Normalizer.normalize item) (fun normalized =>
  let key := Normalizer.key_of toUpperCase item (length out) in
  match seen_get seen key with
  | None => Returns (<[key := length out]> seen, out ++ [normalized])
  | Some (stored idx) =>
      match out !! idx with
      | Some prior => Returns (seen, <[idx := Normalizer.merge prior normalized]> out)
      | None => Throws TypeError
      end
  | Some inherited => Throws TypeError
  end).

(** The [for ... of] loop over [input.listings], which the schema of
    the tool makes an array of objects. *)
Fixpoint loop (listings : list Normalizer.RawRecord) (seen : gmap jsstring nat)
    (out : list Normalizer.NormalizedListing) : completion (list Normalizer.NormalizedListing) :=
  match listings with
  | [] => Returns out
  | item :: listings' =>
      bind (step seen out item) (fun '(seen', out') =>
      if decide (12 <= length out')%nat then Returns out'
      else loop listings' seen' out')
  end.

(** [execute]: the [listings] of the object it returns. *)
Definition normalizeAndDedupeListings (listings : list Normalizer.RawRecord)
  : completion (list Normalizer.NormalizedListing) :=
  bind (loop listings ∅ []) (fun out => Returns (take 12 out)).

End WithCaseMapping.

End Sdk.

(** * Properties *)

Import Normalizer.

Lemma bind_Returns {A B} (c : completion A) (k : A -> completion B) b :
  bind c k = Returns b -> exists a, c = Returns a /\ k a = Returns b.
Proof. destruct c as [a|e]; simpl; [eauto | discriminate]. Qed.

Ltac inv_bind H :=
  let a := fresh "x" in
  let Ha := fresh "Hx" in
  apply bind_Returns in H; destruct H as (a & Ha & H).

(** ** The runtime on a few inputs *)

Example Number_of_string_samples :
  Number_of_string [] = zero
  /\ Number_of_string (lit " 12 ") = of_Z 12
  /\ Number_of_string (lit "2.") = of_Z 2
  /\ Number_of_string (lit "1.2.3") = NaN
  /\ Number_of_string (lit "N/A") = NaN
  /\ Number_of_string (lit "0x1F") = of_Z 31
  /\ Number_of_string (lit "1e400") = Infinity
  /\ Number_of_string (lit "9007199254740993") = of_Z 9007199254740992.
Proof. repeat split; vm_compute; reflexivity. Qed.

Example Number_toString_samples :
  Number_toString (of_Z 400000) = lit "400000"
  /\ Number_toString (Number_of_string (lit "2.50")) = lit "2.5"
  /\ Number_toString (Number_of_string (lit ".1")) = lit "0.1"
  /\ Number_toString (of_Z (10 ^ 21)) = lit "1e+21"
  /\ Number_toString (Number_of_string (lit "0.0000001")) = lit "1e-7"
  /\ Number_toString (of_Z (- 123456789012345678901)) = lit "-123456789012345680000"
  /\ Number_toString NaN = lit "NaN".
Proof. repeat split; vm_compute; reflexivity. Qed.

Example JSON_stringify_samples :
  JSON_stringify (JObject [(lit "results", JArray [JNumber (of_Z 1); JNull; JString [10%N]]);
                           (lit "ok", JBool true)])
  = [123; 34]%N ++ lit "results" ++ [34; 58; 91]%N ++ lit "1,null," ++ [34; 92; 110; 34; 93; 44; 34]%N
    ++ lit "ok" ++ [34; 58]%N ++ lit "true}"
  /\ JSON_stringify_2 (JArray [JNumber NaN; JObject []])
     = [91; 10]%N ++ lit "  null," ++ [10%N] ++ lit "  {}" ++ [10; 93]%N.
Proof. split; vm_compute; reflexivity. Qed.

(** The scenario of two records for one listing: [{mls: "A1", address:
    "123 Main"}] and [{mls: "a1", price: 400000}] give one record. *)
Example two_records_one_listing :
  normalizeAndDedupeListings toUpperCase_ascii
    [Object [(lit "mls", Str (lit "A1")); (lit "address", Str (lit "123 Main"))];
     Object [(lit "mls", Str (lit "a1")); (lit "price", Num (of_Z 400000))]]
  = Returns [{| mls := lit "A1"; url := None; address := Some (lit "123 Main");
                price := Some (of_Z 400000); beds := None; baths := None;
                type := None; note_fr := None; note_en := None |}].
Proof. vm_compute. reflexivity. Qed.

(** ** The normalizer loop *)

Section NormalizerFacts.

Variable toUpperCase : jsstring -> jsstring.

Local Abbreviation step := (step toUpperCase).
Local Abbreviation loop := (loop toUpperCase).
Local Abbreviation key_of := (key_of toUpperCase).
Local Abbreviation normalizeAndDedupeListings := (normalizeAndDedupeListings toUpperCase).

Lemma step_length seen out record seen' out' :
  step seen out record = Returns (seen', out') ->
  (length out <= length out' <= S (length out))%nat.
Proof.
  unfold Normalizer.step. intros H. inv_bind H.
  destruct (seen !! _) as [idx|].
  - destruct (out !! idx); inversion H; subst. rewrite length_insert. lia.
  - inversion H; subst. rewrite length_app. simpl. lia.
Qed.

Lemma step_seen_ok seen out record seen' out' :
  seen_ok seen out -> step seen out record = Returns (seen', out') -> seen_ok seen' out'.
Proof.
  unfold Normalizer.step. intros Hok H. inv_bind H.
  set (key := Normalizer.key_of _ _ _) in H.
  destruct (seen !! key) as [idx|] eqn:Hk.
  - destruct (out !! idx); inversion H; subst.
    intros k i Hi. rewrite length_insert. eauto.
  - inversion H; subst. intros k i Hi. rewrite length_app. simpl.
    destruct (decide (key = k)) as [->|Hne].
    + rewrite lookup_insert_eq in Hi. inversion Hi. lia.
    + rewrite lookup_insert_ne in Hi by done. apply Hok in Hi. lia.
Qed.

(** The loop leaves at most [MAX_LISTINGS] records. *)
Lemma loop_length items : forall seen out res,
  (length out < MAX_LISTINGS)%nat ->
  loop items seen out = Returns res -> (length res <= MAX_LISTINGS)%nat.
Proof.
  induction items as [|[v|record] items IH]; intros seen out res Hlen H; simpl in H.
  - inversion H; subst. lia.
  - eauto.
  - inv_bind H. destruct x as [seen' out'].
    apply step_length in Hx.
    destruct (decide (MAX_LISTINGS <= length out')%nat).
    + inversion H; subst. lia.
    + eapply IH; [|exact H]. lia.
Qed.

(** The final [slice] never removes anything. *)
Lemma normalizeAndDedupeListings_loop items out :
  normalizeAndDedupeListings items = Returns out <-> loop items ∅ [] = Returns out.
Proof.
  unfold Normalizer.normalizeAndDedupeListings. split; intros H.
  - inv_bind H. inversion H; subst.
    rewrite take_ge; [done|]. eapply loop_length; [|exact Hx]. simpl. unfold MAX_LISTINGS. lia.
  - rewrite H. simpl. rewrite take_ge; [done|].
    eapply loop_length; [|exact H]. simpl. unfold MAX_LISTINGS. lia.
Qed.

Lemma normalizeAndDedupeListings_length items out :
  normalizeAndDedupeListings items = Returns out -> (length out <= MAX_LISTINGS)%nat.
Proof.
  intros H. apply normalizeAndDedupeListings_loop in H.
  eapply (loop_length items ∅ []); [|exact H]. simpl. unfold MAX_LISTINGS. lia.
Qed.

(** The loop throws only where a price text is not a string: a record
    whose key has been seen is always found in [out]. *)
Lemma loop_returns items : forall seen out,
  seen_ok seen out ->
  Forall (fun record => exists p, price_of record = Returns p) (objects items) ->
  exists res, loop items seen out = Returns res.
Proof.
  induction items as [|[v|record] items IH]; intros seen out Hok Hprices; simpl; [eauto..|].
  unfold objects in Hprices. simpl in Hprices.
  apply Forall_cons in Hprices as [[p Hp] Hprices].
  assert (Hstep : exists seen' out', step seen out record = Returns (seen', out')).
  { unfold Normalizer.step, normalize. rewrite Hp. simpl.
    destruct (seen !! _) as [idx|] eqn:Hidx; [|eauto].
    apply Hok in Hidx. apply lookup_lt_is_Some in Hidx as [prior ->]. eauto. }
  destruct Hstep as (seen' & out' & Hstep). rewrite Hstep. simpl.
  case_decide; [eauto|]. apply IH; [|done]. eapply step_seen_ok; eauto.
Qed.

Lemma normalizeAndDedupeListings_returns items :
  Forall (fun record => exists p, price_of record = Returns p) (objects items) ->
  exists out, normalizeAndDedupeListings items = Returns out.
Proof.
  intros Hprices.
  destruct (loop_returns items ∅ [] ltac:(intros k i Hk; by rewrite lookup_empty in Hk) Hprices)
    as [res Hres].
  unfold Normalizer.normalizeAndDedupeListings. rewrite Hres. simpl. eauto.
Qed.

(** Once the loop has filled [out], what follows in the input is not read. *)
Lemma loop_app_full pre : forall seen out rest res,
  (length out < MAX_LISTINGS)%nat ->
  loop pre seen out = Returns res -> (MAX_LISTINGS <= length res)%nat ->
  loop (pre ++ rest) seen out = Returns res.
Proof.
  induction pre as [|[v|record] pre IH]; intros seen out rest res Hlen H Hfull; simpl in H.
  - inversion H; subst. lia.
  - simpl. eauto.
  - simpl. inv_bind H. rewrite Hx. simpl. destruct x as [seen' out'].
    destruct (decide (MAX_LISTINGS <= length out')%nat); [done|].
    apply IH; [lia|done..].
Qed.

End NormalizerFacts.

(** ** The cap *)

(** C5. For every input list, of any length, the output of
    [normalizeAndDedupeListings] holds at most 12 records. *)
Theorem output_at_most_12 (toUpperCase : jsstring -> jsstring) (items : list item)
    (out : list NormalizedListing) :
  normalizeAndDedupeListings toUpperCase items = Returns out ->
  (length out <= 12)%nat.
Proof.
  intros H. by apply normalizeAndDedupeListings_length in H.
Qed.

Lemma output_at_most_12_witness :
  exists out,
    normalizeAndDedupeListings toUpperCase_ascii (twelve ++ [Object late_duplicate]) = Returns out
    /\ (length out <= 12)%nat.
Proof.
  eexists. split; [vm_compute; reflexivity|].
  apply (output_at_most_12 toUpperCase_ascii (twelve ++ [Object late_duplicate])).
  vm_compute. reflexivity.
Defined.

(** C2, as stated, fails: with twelve records accepted, a thirteenth
    record carrying the key of the first one and an address is not merged;
    the first record keeps its absent address. *)
Lemma later_duplicate_not_merged :
  exists acc late out prior,
    normalizeAndDedupeListings toUpperCase_ascii twelve = Returns acc
    /\ length acc = 12%nat
    /\ key_of toUpperCase_ascii late_duplicate 12 = key_of toUpperCase_ascii (with_mls "A") 0
    /\ normalize late_duplicate = Returns late
    /\ address late = Some (lit "1 Main St")
    /\ normalizeAndDedupeListings toUpperCase_ascii (twelve ++ [Object late_duplicate]) = Returns out
    /\ out !! 0%nat = Some prior
    /\ address prior = None
    /\ out = acc.
Proof. do 4 eexists. repeat split; vm_compute; reflexivity. Qed.

(** C2, amended. Once 12 records have been accepted the loop stops
    reading: whatever follows in the input, duplicate or not, is neither
    merged into an accepted record nor added, and the output is the one
    the first part of the input gives. *)
Theorem nothing_after_the_cap (toUpperCase : jsstring -> jsstring) (pre rest : list item)
    (acc : list NormalizedListing) :
  normalizeAndDedupeListings toUpperCase pre = Returns acc ->
  length acc = 12%nat ->
  normalizeAndDedupeListings toUpperCase (pre ++ rest) = Returns acc.
Proof.
  intros H Hlen. apply normalizeAndDedupeListings_loop in H.
  apply normalizeAndDedupeListings_loop.
  apply loop_app_full; [simpl; unfold MAX_LISTINGS; lia | exact H |].
  unfold MAX_LISTINGS. lia.
Qed.

Lemma nothing_after_the_cap_witness :
  exists acc,
    normalizeAndDedupeListings toUpperCase_ascii twelve = Returns acc
    /\ length acc = 12%nat
    /\ normalizeAndDedupeListings toUpperCase_ascii (twelve ++ [Object late_duplicate])
       = Returns acc.
Proof.
  eexists. split; [vm_compute; reflexivity|]. split; [reflexivity|].
  apply (nothing_after_the_cap toUpperCase_ascii twelve [Object late_duplicate]).
  - vm_compute. reflexivity.
  - reflexivity.
Defined.

(** ** Fields that carry no digit *)

(** C10. For every raw record whose [beds] is present but holds no
    digit, the normalized [beds] is the number 0, not absent; the same for
    [baths] when it holds neither a digit nor a decimal point. *)
Theorem no_digit_gives_zero (record : RawRecord) (n : NormalizedListing) :
  normalize record = Returns n ->
  (nullish (get record (lit "beds")) = false ->
   keep_digits (JS.String (get record (lit "beds"))) = [] ->
   beds n = Some zero)
  /\ (nullish (get record (lit "baths")) = false ->
      keep_digits_dots (JS.String (get record (lit "baths"))) = [] ->
      baths n = Some zero).
Proof.
  unfold normalize. intros H. inv_bind H. inversion H; subst; simpl.
  unfold beds_of, baths_of. split; intros Hpresent Hnone; rewrite Hpresent, Hnone; reflexivity.
Qed.

Lemma no_digit_gives_zero_witness :
  exists n, normalize studio = Returns n /\ beds n = Some zero /\ baths n = Some zero.
Proof.
  eexists. split; [vm_compute; reflexivity|].
  split; eapply (no_digit_gives_zero studio); solve [vm_compute; reflexivity].
Defined.

(** ** Duplicates *)

(** C3, as stated, fails: of two records with the identifiers [A1] and
    [a1], the second carries a URL and the first none; one record
    results, and its [url] is absent. *)
Lemma duplicate_url_is_dropped :
  exists na nb r,
    normalize first_seen = Returns na
    /\ normalize second_seen = Returns nb
    /\ toUpperCase_ascii (mls na) = toUpperCase_ascii (mls nb)
    /\ url nb = Some (lit "https://x.com")
    /\ normalizeAndDedupeListings toUpperCase_ascii [Object first_seen; Object second_seen]
       = Returns [r]
    /\ url r = None.
Proof. do 3 eexists. repeat split; vm_compute; reflexivity. Qed.

Lemma normalize_mls record n :
  normalize record = Returns n ->
  mls n = match mls_of record with Some s => s | None => MLS_NOT_FOUND end
  /\ url n = trimmed (get record (lit "url")).
Proof. unfold normalize. intros H. inv_bind H. inversion H; subst. done. Qed.

Lemma key_of_mls toUpperCase record i len :
  mls_of record = Some i -> i <> [] ->
  key_of toUpperCase record len = lit "MLS:" ++ toUpperCase i.
Proof.
  intros Hi Hne. unfold key_of. rewrite Hi. destruct i; [done|]. reflexivity.
Qed.

(** C3, amended. Two raw records whose identifiers are non-blank and
    equal once upper-cased give exactly one normalized record when each
    of them can be normalized. It has the identifier and the [url] of
    the first-seen record, a [url] that only the second record has being
    dropped; every other field is that of the first record when present
    there, else that of the second. When one of the two cannot be
    normalized, the call throws what normalizing it throws, and no
    record is produced. *)
Theorem same_identifier_one_record (toUpperCase : jsstring -> jsstring)
    (a b : RawRecord) (ia ib : jsstring) :
  mls_of a = Some ia -> mls_of b = Some ib -> ia <> [] -> ib <> [] ->
  toUpperCase ia = toUpperCase ib ->
  match normalize a, normalize b with
  | Returns na, Returns nb =>
      exists r,
        normalizeAndDedupeListings toUpperCase [Object a; Object b] = Returns [r]
        /\ mls r = ia /\ url r = url na
        /\ address r = orElse (address na) (address nb)
        /\ price r = orElse (price na) (price nb)
        /\ beds r = orElse (beds na) (beds nb)
        /\ baths r = orElse (baths na) (baths nb)
        /\ type r = orElse (type na) (type nb)
        /\ note_fr r = orElse (note_fr na) (note_fr nb)
        /\ note_en r = orElse (note_en na) (note_en nb)
  | Throws e, _ | Returns _, Throws e =>
      normalizeAndDedupeListings toUpperCase [Object a; Object b] = Throws e
  end.
Proof.
  intros Hia Hib Hna Hnb Hup.
  destruct (normalize a) as [na|e] eqn:Ha.
  - destruct (normalize b) as [nb|e] eqn:Hb.
    + exists (merge na nb). split.
      * unfold normalizeAndDedupeListings. simpl. unfold step.
        rewrite Ha. simpl. rewrite lookup_empty. simpl.
        rewrite Hb. simpl.
        rewrite (key_of_mls _ a ia), (key_of_mls _ b ib) by done.
        rewrite Hup, lookup_insert_eq. simpl. reflexivity.
      * apply normalize_mls in Ha as [Hm _]. rewrite Hia in Hm. simpl. auto 10.
    + unfold normalizeAndDedupeListings. simpl. unfold step.
      rewrite Ha. simpl. rewrite lookup_empty. simpl. by rewrite Hb.
  - unfold normalizeAndDedupeListings. simpl. unfold step. by rewrite Ha.
Qed.

Lemma same_identifier_one_record_witness :
  (exists r,
     normalizeAndDedupeListings toUpperCase_ascii [Object first_seen; Object same_listing]
     = Returns [r]
     /\ mls r = lit "A1" /\ address r = Some (lit "1 Main St"))
  /\ normalizeAndDedupeListings toUpperCase_ascii [Object unreadable_listing; Object same_listing]
     = Throws TypeError.
Proof.
  split.
  - pose proof (same_identifier_one_record toUpperCase_ascii first_seen same_listing
                  (lit "A1") (lit "a1") eq_refl eq_refl) as H.
    destruct H as (r & Hr & Hm & _ & Ha & _); [done..|reflexivity|].
    exists r. split; [exact Hr|]. split; [exact Hm|exact Ha].
  - apply (same_identifier_one_record toUpperCase_ascii unreadable_listing same_listing
             (lit "A1") (lit "a1") eq_refl eq_refl); [done..|reflexivity].
Defined.

(** ** Prices *)

Lemma binary_round_aux_sign sx mx ex lx : sign_is sx (binary_round_aux 53 1024 sx mx ex lx).
Proof.
  unfold binary_round_aux.
  destruct (shr_fexp 53 1024 mx ex lx) as [mrs' e'].
  destruct (shr_fexp 53 1024 _ e' loc_Exact) as [mrs'' e''].
  destruct (shr_m mrs''); simpl; [done| |done].
  destruct (Z.leb _ _); done.
Qed.

Lemma round_ratio_sign neg p q : sign_is neg (round_ratio neg p q).
Proof. unfold round_ratio. destruct (Z.div_eucl _ _). apply binary_round_aux_sign. Qed.

Lemma round_decimal_sign neg m e : sign_is neg (round_decimal neg m e).
Proof. unfold round_decimal. destruct (0 <=? e); apply round_ratio_sign. Qed.

Lemma parse_decimal_sign neg s : sign_is neg (parse_decimal neg s).
Proof.
  unfold parse_decimal, parse_unsigned_decimal. case_decide; [done|].
  destruct (span is_digit s) as [int r1].
  destruct (match r1 with 46%N :: t => span is_digit t | _ => ([], r1) end) as [frac r2].
  destruct int, frac; try done;
    destruct (parse_exponent r2); try done; apply round_decimal_sign.
Qed.

Lemma parse_radix_sign base s : sign_is false (parse_radix base s).
Proof.
  unfold parse_radix. destruct s; [done|].
  destruct (radix_value _ _ _); [apply round_ratio_sign|done].
Qed.

Lemma trimStart_elem c s : c ∈ trimStart s -> c ∈ s.
Proof.
  induction s as [|d s IH]; simpl; [done|].
  destruct (is_space d); [|done]. intros H. right. auto.
Qed.

Lemma trim_elem c s : c ∈ trim s -> c ∈ s.
Proof.
  unfold trim, trimEnd. intros H.
  apply trimStart_elem. apply list_elem_of_In, in_rev, list_elem_of_In.
  apply trimStart_elem. by apply list_elem_of_In, in_rev, list_elem_of_In.
Qed.

(** A string without a minus sign does not parse to a negative number. *)
Lemma Number_of_string_sign s : 45%N ∉ s -> sign_is false (Number_of_string s).
Proof.
  intros Hminus. unfold Number_of_string.
  assert (Hhead : forall t, trim s <> 45%N :: t).
  { intros t Ht. apply Hminus. apply trim_elem. rewrite Ht. left. }
  destruct (trim s) as [|c t]; [done|].
  assert (Hc : c <> 45%N) by (intros ->; by eapply Hhead).
  repeat (match goal with
          | |- context [match ?x with _ => _ end] => destruct x; try done
          end);
    first [apply parse_radix_sign | apply parse_decimal_sign].
Qed.

(** The free-text path checks what it parsed: a price obtained from a
    price-like string is finite and not negative. *)
Lemma numberFromPriceLike_checked s n :
  numberFromPriceLike s = Returns (Some n) -> isFinite n = true /\ nonneg n = true.
Proof.
  unfold numberFromPriceLike. destruct (negb (truthy s)); [done|].
  destruct s as [| | |?|s]; try done.
  destruct (keep_digits s) as [|c raw] eqn:Hraw; [done|].
  destruct (isFinite _) eqn:Hfin; [|done].
  intros [= <-]. split; [done|].
  assert (Hsign : sign_is false (Number_of_string (c :: raw))).
  { apply Number_of_string_sign. rewrite <- Hraw. unfold keep_digits.
    rewrite list_elem_of_filter. intros [Hd _]. by vm_compute in Hd. }
  destruct (Number_of_string (c :: raw)); simpl in *; subst; done.
Qed.

Example numberFromPriceLike_samples :
  numberFromPriceLike (Str (lit "$500,000")) = Returns (Some (of_Z 500000))
  /\ numberFromPriceLike (Str (lit "call us")) = Returns None
  /\ numberFromPriceLike Null = Returns None
  /\ numberFromPriceLike (Num (of_Z 500000)) = Throws TypeError.
Proof. repeat split; vm_compute; reflexivity. Qed.

(** C4. The direct path stores what [Number] returns, unchecked: a
    [price] of ["N/A"] is normalized to NaN, and a [price] of [-5] to
    [-5]. *)
Theorem direct_price_is_stored_unchecked :
  (exists n, normalize not_a_price = Returns n /\ price n = Some NaN
             /\ isFinite NaN = false)
  /\ (exists n, normalize negative_price = Returns n /\ price n = Some (of_Z (-5))
                /\ nonneg (of_Z (-5)) = false).
Proof. split; eexists; repeat split; vm_compute; reflexivity. Qed.

(** ** Records that are pushed, not merged *)

Section Pushed.

Variable toUpperCase : jsstring -> jsstring.

Lemma loop_objects items : forall seen out,
  loop toUpperCase items seen out
  = loop toUpperCase (map Object (objects items)) seen out.
Proof.
  induction items as [|[v|record] items IH]; intros seen out; simpl; [done|auto|].
  destruct (step _ _ _ _) as [[seen' out']|e]; simpl; [|done].
  case_decide; [done|]. apply IH.
Qed.

(** When the keys are new and pairwise different, every record is pushed
    until the cap is reached. *)
Lemma loop_all_pushed rs : forall ns seen out,
  Forall2 (fun r n => normalize r = Returns n) rs ns ->
  (length out < MAX_LISTINGS)%nat ->
  NoDup (keys_from toUpperCase rs (length out)) ->
  (forall k, k ∈ keys_from toUpperCase rs (length out) -> seen !! k = None) ->
  loop toUpperCase (map Object rs) seen out = Returns (take MAX_LISTINGS (out ++ ns)).
Proof.
  induction rs as [|r rs IH]; intros ns seen out Hn Hlen Hnd Hnew.
  - apply Forall2_nil_inv_l in Hn as ->. simpl.
    rewrite app_nil_r, take_ge by lia. done.
  - apply Forall2_cons_inv_l in Hn as (n & ns' & Hr & Hn & ->).
    simpl in *. unfold step. rewrite Hr. simpl.
    rewrite Hnew by left. simpl.
    apply NoDup_cons in Hnd as [Hk Hnd].
    case_decide as Hfull.
    + rewrite length_app in Hfull. simpl in Hfull.
      replace (out ++ n :: ns') with ((out ++ [n]) ++ ns') by (by rewrite <- app_assoc).
      rewrite take_app_le by (rewrite length_app; simpl; lia).
      rewrite take_ge by (rewrite length_app; simpl; lia). done.
    + rewrite (IH ns').
      * by rewrite <- app_assoc.
      * done.
      * lia.
      * rewrite length_app. simpl. by replace (length out + 1)%nat with (S (length out)) by lia.
      * rewrite length_app. simpl. replace (length out + 1)%nat with (S (length out)) by lia.
        intros k Hin. rewrite lookup_insert_ne; [apply Hnew; by right|].
        intros <-. done.
Qed.

End Pushed.

Lemma uint_units_inj d d' : uint_units d = uint_units d' -> d = d'.
Proof.
  revert d'. induction d; destruct d'; simpl; intros H; try discriminate; try done;
    (inversion H as [H']; f_equal; auto).
Qed.

Lemma digits_of_nat_inj n m : digits_of_nat n = digits_of_nat m -> n = m.
Proof.
  unfold digits_of_nat. intros H. apply uint_units_inj in H.
  rewrite <- (DecimalNat.Unsigned.of_to n), <- (DecimalNat.Unsigned.of_to m). by rewrite H.
Qed.

(** ** Records without an identifier *)

Section NoIdentifier.

Variable toUpperCase : jsstring -> jsstring.

Lemma key_of_no_identifier record len :
  mls_of record = None ->
  key_of toUpperCase record len
  = match url_of record with
    | Some (c :: u) => lit "URL:" ++ c :: u
    | _ => lit "IDX:" ++ digits_of_nat len
    end.
Proof.
  intros H. unfold key_of, url_of. rewrite H. simpl.
  destruct (trimmed _) as [[|c u]|]; reflexivity.
Qed.

Lemma keys_from_no_identifier rs : forall len k,
  Forall (fun r => mls_of r = None) rs ->
  k ∈ keys_from toUpperCase rs len ->
  (exists u, k = lit "URL:" ++ u /\ u ∈ urls rs)
  \/ (exists l, k = lit "IDX:" ++ digits_of_nat l /\ (len <= l)%nat).
Proof.
  induction rs as [|r rs IH]; intros len k Hno Hk; simpl in Hk.
  - by apply elem_of_nil in Hk.
  - apply Forall_cons in Hno as [Hr Hno].
    apply elem_of_cons in Hk as [->|Hk].
    + rewrite key_of_no_identifier by done. unfold urls. simpl.
      destruct (url_of r) as [[|c u]|]; simpl; [right; eauto..| |right; eauto].
      left. exists (c :: u). split; [done|left].
    + destruct (IH (S len) k Hno Hk) as [(u & -> & Hu)|(l & -> & Hl)].
      * left. exists u. split; [done|]. unfold urls in *. simpl.
        destruct (match url_of r with Some (c :: u0) => Some (c :: u0) | _ => None end);
          simpl; [right|]; done.
      * right. exists l. split; [done|lia].
Qed.

(** Positional and URL keys of such records never coincide, as long as no
    two of them carry the same URL. *)
Lemma keys_from_NoDup rs : forall len,
  Forall (fun r => mls_of r = None) rs ->
  NoDup (urls rs) ->
  NoDup (keys_from toUpperCase rs len).
Proof.
  induction rs as [|r rs IH]; intros len Hno Hurls; simpl; [constructor|].
  pose proof Hno as Hno'. apply Forall_cons in Hno as [Hr Hno].
  assert (Htail : NoDup (urls rs)).
  { unfold urls in *. simpl in Hurls.
    destruct (match url_of r with Some (c :: u0) => Some (c :: u0) | _ => None end);
      simpl in Hurls; [by apply NoDup_cons in Hurls as [_ ?]|done]. }
  constructor; [|by apply IH].
  intros Hk. apply keys_from_no_identifier in Hk; [|done].
  rewrite key_of_no_identifier in Hk by done.
  unfold urls in Hurls. simpl in Hurls.
  destruct (url_of r) as [[|c u]|]; simpl in Hurls.
  - destruct Hk as [(u' & Hk & _)|(l & Hk & Hl)]; [discriminate|].
    apply app_inv_head, digits_of_nat_inj in Hk. lia.
  - apply NoDup_cons in Hurls as [Hfresh _].
    destruct Hk as [(u' & Hk & Hu')|(l & Hk & _)]; [|discriminate].
    apply app_inv_head in Hk. by subst u'.
  - destruct Hk as [(u' & Hk & _)|(l & Hk & Hl)]; [discriminate|].
    apply app_inv_head, digits_of_nat_inj in Hk. lia.
Qed.

End NoIdentifier.

(** A record whose identifier resolves to nothing gets the sentinel, and
    such records are never merged with each other unless two of them
    share a URL: each one is pushed, up to the cap. *)
Lemma no_identifier_sentinel_own_key (toUpperCase : jsstring -> jsstring)
    (items : list item) (ns : list NormalizedListing) :
  Forall (fun r => mls_of r = None) (objects items) ->
  NoDup (urls (objects items)) ->
  Forall2 (fun r n => normalize r = Returns n) (objects items) ns ->
  normalizeAndDedupeListings toUpperCase items = Returns (take 12 ns)
  /\ Forall (fun n => mls n = MLS_NOT_FOUND) ns.
Proof.
  intros Hno Hurls Hns. split.
  - unfold normalizeAndDedupeListings. rewrite loop_objects.
    rewrite (loop_all_pushed toUpperCase (objects items) ns ∅ []).
    + simpl. by rewrite take_take.
    + done.
    + simpl. unfold MAX_LISTINGS. lia.
    + by apply keys_from_NoDup.
    + intros k _. apply lookup_empty.
  - induction Hns as [|r n rs ns' Hr _ IH]; [constructor|].
    apply Forall_cons in Hno as [Hrno Hno].
    assert (Htail : NoDup (urls rs)).
    { unfold urls in *. simpl in Hurls.
      destruct (match url_of r with Some (c :: u0) => Some (c :: u0) | _ => None end);
        simpl in Hurls; [by apply NoDup_cons in Hurls as [_ ?]|done]. }
    constructor; [|by apply IH].
    apply normalize_mls in Hr as [-> _]. by rewrite Hrno.
Qed.

Example four_anonymous_kept_apart :
  exists a b c d,
    normalizeAndDedupeListings toUpperCase_ascii four_anonymous = Returns [a; b; c; d]
    /\ Forall (fun n => mls n = MLS_NOT_FOUND) [a; b; c; d].
Proof.
  do 4 eexists.
  apply (no_identifier_sentinel_own_key toUpperCase_ascii four_anonymous [_; _; _; _]).
  - repeat constructor.
  - vm_compute. repeat constructor;
      rewrite ?elem_of_cons, ?elem_of_nil; intuition discriminate.
  - repeat constructor.
Qed.

(** C7. A record whose identifier is made of white space has no
    resolvable identifier: its key is positional, as for a record without
    any. Its normalized [mls] is nevertheless the empty string, not the
    sentinel. *)
Theorem blank_identifier_is_not_defaulted :
  exists n,
    normalize blank_identifier = Returns n
    /\ mls_of blank_identifier = Some []
    /\ key_of toUpperCase_ascii blank_identifier 0 = lit "IDX:0"
    /\ mls n = []
    /\ mls n <> MLS_NOT_FOUND.
Proof. eexists. repeat split; vm_compute; (reflexivity || discriminate). Qed.

(** ** Normalizing a normalized list *)

Lemma trimStart_starts_clean s : starts_clean (trimStart s).
Proof. induction s as [|c s IH]; simpl; [done|]. by destruct (is_space c) eqn:Hc. Qed.

Lemma trimStart_fixed s : starts_clean s -> trimStart s = s.
Proof. destruct s; simpl; [done|]. by intros ->. Qed.

Lemma trimStart_suffix s : exists pre, s = pre ++ trimStart s.
Proof.
  induction s as [|c s [pre IH]]; simpl; [by exists []|].
  destruct (is_space c); [|by exists []].
  exists (c :: pre). simpl. by rewrite <- IH.
Qed.

Lemma trim_idem s : trim (trim s) = trim s.
Proof.
  unfold trim, trimEnd.
  pose proof (trimStart_starts_clean s) as Hu.
  set (u := trimStart s) in *.
  pose proof (trimStart_starts_clean (rev u)) as Hw.
  destruct (trimStart_suffix (rev u)) as [pre Hpre].
  set (w := trimStart (rev u)) in *.
  assert (Hv : starts_clean (rev w)).
  { assert (Hrev : u = rev w ++ rev pre) by (by rewrite <- rev_app_distr, <- Hpre, rev_involutive).
    destruct (rev w) as [|c v]; [done|]. rewrite Hrev in Hu. exact Hu. }
  rewrite (trimStart_fixed (rev w)) by done.
  rewrite rev_involutive. by rewrite (trimStart_fixed w).
Qed.

Lemma trimmed_tidy v : holds (fun s => trim s = s) (trimmed v).
Proof. unfold trimmed. destruct (truthy v); simpl; [apply trim_idem|done]. Qed.

Lemma normalize_tidy record n : normalize record = Returns n -> tidy n.
Proof.
  unfold normalize. intros H. inv_bind H. inversion H; subst. unfold tidy. simpl.
  split; [|auto 10 using trimmed_tidy].
  unfold mls_of. set (raw := first _).
  pose proof (trimmed_tidy raw) as Ht.
  destruct (trimmed raw); [exact Ht|]. vm_compute. reflexivity.
Qed.

Lemma orElse_holds {A} (P : A -> Prop) a b : holds P a -> holds P b -> holds P (orElse a b).
Proof. by destruct a. Qed.

Lemma merge_tidy prior n : tidy prior -> tidy n -> tidy (merge prior n).
Proof.
  unfold tidy. intros (? & ? & ? & ? & ? & ?) (? & ? & ? & ? & ? & ?). simpl.
  auto 10 using orElse_holds.
Qed.

Lemma loop_tidy toUpperCase items : forall seen out res,
  Forall tidy out -> loop toUpperCase items seen out = Returns res -> Forall tidy res.
Proof.
  induction items as [|[v|record] items IH]; intros seen out res Hout H; simpl in H.
  - by inversion H; subst.
  - eauto.
  - inv_bind H. destruct x as [seen' out'].
    assert (Hout' : Forall tidy out').
    { unfold step in Hx. inv_bind Hx. apply normalize_tidy in Hx0.
      destruct (seen !! _) as [idx|].
      - destruct (out !! idx) as [prior|] eqn:Hidx; inversion Hx; subst.
        apply Forall_insert; [done|]. apply merge_tidy; [|done].
        eapply Forall_lookup_1; eauto.
      - inversion Hx; subst. apply Forall_app. split; [done|]. by constructor. }
    case_decide; [by inversion H; subst|]. eauto.
Qed.

Lemma trimmed_text o :
  holds (fun s => trim s = s) o -> holds (fun s => s <> []) o -> trimmed (text o) = o.
Proof.
  destruct o as [[|c s]|]; simpl; [done| |done].
  intros Ht _. unfold trimmed. simpl. by rewrite Ht.
Qed.

(** A tidy record without blank text whose counts are reproduced is
    normalized to itself. *)
Lemma normalize_to_raw n :
  tidy n -> no_blank_text n -> counts_reproduced n -> normalize (to_raw n) = Returns n.
Proof.
  destruct n as [m u a p b h t nf ne].
  intros (Hm & Hu & Ha & Ht & Hnf & Hne) (Bm & Bu & Ba & Bt & Bnf & Bne) (Hb & Hh).
  simpl in *. unfold normalize.
  assert (Hp : price_of (to_raw (Build_NormalizedListing m u a p b h t nf ne)) = Returns p).
  { unfold price_of.
    change (get _ (lit "price")) with (numeric p).
    destruct p; reflexivity. }
  rewrite Hp. simpl. f_equal.
  assert (Hmls : mls_of (to_raw (Build_NormalizedListing m u a p b h t nf ne)) = Some m).
  { unfold mls_of. change (first _) with (Str m).
    unfold trimmed. simpl. destruct m; [done|]. by rewrite Hm. }
  rewrite Hmls.
  change (get _ (lit "url")) with (text u).
  change (get _ (lit "address")) with (text a).
  change (get _ (lit "type")) with (text t).
  change (get _ (lit "note_fr")) with (text nf).
  change (get _ (lit "note_en")) with (text ne).
  rewrite !trimmed_text by done.
  assert (Hbeds : beds_of (to_raw (Build_NormalizedListing m u a p b h t nf ne)) = b).
  { unfold beds_of. change (get _ (lit "beds")) with (numeric b).
    destruct b; simpl in *; [by rewrite Hb|done]. }
  assert (Hbaths : baths_of (to_raw (Build_NormalizedListing m u a p b h t nf ne)) = h).
  { unfold baths_of. change (get _ (lit "baths")) with (numeric h).
    destruct h; simpl in *; [by rewrite Hh|done]. }
  by rewrite Hbeds, Hbaths.
Qed.

Lemma keys_from_to_raw toUpperCase ns : forall len,
  Forall no_blank_text ns ->
  Forall tidy ns ->
  keys_from toUpperCase (map to_raw ns) len
  = map (fun n => lit "MLS:" ++ toUpperCase (mls n)) ns.
Proof.
  induction ns as [|n ns IH]; intros len Hb Ht; simpl; [done|].
  apply Forall_cons in Hb as [[Hm _] Hb]. apply Forall_cons in Ht as [[Htm _] Ht].
  rewrite (IH _ Hb Ht). f_equal.
  apply key_of_mls; [|done].
  unfold mls_of. change (first _) with (Str (mls n)).
  unfold trimmed. simpl. destruct (mls n); [done|]. by rewrite Htm.
Qed.

Lemma NoDup_map_prefix {A} (prefix : jsstring) (f : A -> jsstring) (l : list A) :
  NoDup (map f l) -> NoDup (map (fun a => prefix ++ f a) l).
Proof.
  induction l as [|a l IH]; simpl; [constructor|].
  intros [Ha Hl]%NoDup_cons. constructor; [|auto].
  rewrite list_elem_of_In, in_map_iff. intros (b & Hb & Hin).
  apply app_inv_head in Hb. apply Ha. rewrite list_elem_of_In, in_map_iff. eauto.
Qed.

(** C6, as stated, fails: a record with the identifier [A1] and a URL
    made of one space is normalized to a record whose [url] is the empty
    string; normalized again, its [url] becomes absent. *)
Lemma renormalizing_changes_blank_url :
  exists once twice,
    normalizeAndDedupeListings toUpperCase_ascii [Object blank_url] = Returns [once]
    /\ normalizeAndDedupeListings toUpperCase_ascii (map (fun n => Object (to_raw n)) [once])
       = Returns [twice]
    /\ NoDup (map mls [once])
    /\ url once = Some [] /\ url twice = None /\ once <> twice.
Proof.
  do 2 eexists.
  split; [vm_compute; reflexivity|].
  split; [vm_compute; reflexivity|].
  split; [apply NoDup_singleton|].
  split; [reflexivity|]. split; [reflexivity|]. discriminate.
Qed.

(** The same happens to a [baths] that is not a number: ["1.5 or 2.5"]
    is stripped to ["1.52.5"], which is NaN, and NaN is read back as 0. *)
Example renormalizing_changes_NaN_baths :
  exists once twice,
    normalizeAndDedupeListings toUpperCase_ascii
      [Object [(lit "mls", Str (lit "A1")); (lit "baths", Str (lit "1.5 or 2.5"))]]
    = Returns [once]
    /\ normalizeAndDedupeListings toUpperCase_ascii [Object (to_raw once)] = Returns [twice]
    /\ baths once = Some NaN /\ baths twice = Some zero.
Proof. do 2 eexists. repeat split; vm_compute; reflexivity. Qed.

(** The counts met in practice are reproduced. *)
Example small_counts_reproduced :
  Forall (fun n => Number_of_string (keep_digits (Number_toString (of_Z n))) = of_Z n
                   /\ Number_of_string (keep_digits_dots (Number_toString (of_Z n))) = of_Z n)
         (map Z.of_nat (seq 0 40))
  /\ Number_of_string (keep_digits_dots (Number_toString (Number_of_string (lit "2.5"))))
     = Number_of_string (lit "2.5").
Proof.
  split; [|vm_compute; reflexivity].
  apply (bool_decide_unpack _). vm_compute. exact I.
Qed.

(** C6, amended. Feeding the output of [normalizeAndDedupeListings] back
    in as raw input yields the same sequence of records, provided that
    the identifiers in that output are pairwise distinct even when letter
    case is ignored, that no text field of the output is the empty
    string, and that every [beds] and [baths] value in it comes back
    unchanged when its string form is stripped and converted again. *)
Theorem renormalizing_is_identity (toUpperCase : jsstring -> jsstring)
    (items : list item) (out : list NormalizedListing) :
  normalizeAndDedupeListings toUpperCase items = Returns out ->
  NoDup (map (fun n => toUpperCase (mls n)) out) ->
  Forall no_blank_text out ->
  Forall counts_reproduced out ->
  normalizeAndDedupeListings toUpperCase (map (fun n => Object (to_raw n)) out) = Returns out.
Proof.
  intros Hout Hdistinct Hblank Hcounts.
  pose proof (normalizeAndDedupeListings_length _ _ _ Hout) as Hlen.
  apply normalizeAndDedupeListings_loop in Hout.
  pose proof (loop_tidy _ _ _ _ _ (Forall_nil_2 _) Hout) as Htidy.
  apply normalizeAndDedupeListings_loop.
  rewrite <- (map_map to_raw Object).
  rewrite (loop_all_pushed toUpperCase (map to_raw out) out ∅ []).
  - simpl. by rewrite take_ge.
  - clear Hout Hdistinct Hlen.
    induction out as [|n out IH]; simpl; [constructor|].
    apply Forall_cons in Hblank as [? ?]. apply Forall_cons in Hcounts as [? ?].
    apply Forall_cons in Htidy as [? ?].
    constructor; [by apply normalize_to_raw|by apply IH].
  - simpl. unfold MAX_LISTINGS. lia.
  - rewrite keys_from_to_raw by done. by apply NoDup_map_prefix.
  - intros k _. apply lookup_empty.
Qed.

Lemma renormalizing_is_identity_witness :
  exists a b,
    normalizeAndDedupeListings toUpperCase_ascii [Object furnished; Object first_seen]
    = Returns [a; b]
    /\ normalizeAndDedupeListings toUpperCase_ascii (map (fun n => Object (to_raw n)) [a; b])
       = Returns [a; b].
Proof.
  do 2 eexists. split; [vm_compute; reflexivity|].
  apply (renormalizing_is_identity toUpperCase_ascii [Object furnished; Object first_seen]).
  - vm_compute. reflexivity.
  - vm_compute. repeat constructor; rewrite ?elem_of_cons, ?elem_of_nil; intuition discriminate.
  - repeat constructor; simpl; discriminate.
  - repeat constructor; vm_compute; reflexivity.
Defined.

(** ** The workflow answer *)

(** C9. For every workflow input on which the guardrail check reports no
    tripwire, the object [runWorkflow] returns has [output_text] equal
    to [JSON.stringify] of its [output_parsed], and [hasResults] there is
    true exactly when the normalized listings are not empty. *)
Theorem answer_text_serializes_answer (toUpperCase : jsstring -> jsstring)
    (runGuardrails : jsstring -> list GuardrailResult)
    (buildGuardrailFailOutput : list GuardrailResult -> JSON)
    (workflow : WorkflowInput) (r : WorkflowResult) :
  guardrailsHasTripwire (runGuardrails (input_as_text workflow)) = false ->
  runWorkflow toUpperCase runGuardrails buildGuardrailFailOutput workflow = Returns r ->
  exists output_text output_parsed listings,
    r = Answer output_text output_parsed
    /\ output_text = JSON_stringify (output_json output_parsed)
    /\ normalizeAndDedupeListings toUpperCase (listingsInput workflow) = Returns listings
    /\ (hasResults output_parsed = true <-> listings <> []).
Proof.
  unfold runWorkflow. intros -> H. inv_bind H. inversion H; subst.
  do 3 eexists. split; [reflexivity|]. split; [reflexivity|]. split; [exact Hx|].
  simpl. rewrite bool_decide_eq_true. destruct x; simpl; [split; [lia|done]|].
  split; [done|lia].
Qed.

Lemma answer_text_serializes_answer_witness :
  exists output_text output_parsed,
    runWorkflow toUpperCase_ascii runGuardrails_shim (fun _ => JNull) condo_request
    = Returns (Answer output_text output_parsed)
    /\ output_text = JSON_stringify (output_json output_parsed)
    /\ hasResults output_parsed = true.
Proof.
  destruct (answer_text_serializes_answer toUpperCase_ascii runGuardrails_shim
              (fun _ => JNull) condo_request _ eq_refl eq_refl)
    as (text & parsed & ls & Hr & Htext & Hls & Hhas).
  exists text, parsed. split; [by rewrite <- Hr|]. split; [exact Htext|].
  apply Hhas. intros ->. vm_compute in Hls. discriminate.
Defined.

(** ** The agent loop *)

Import Agent.

Section AgentFacts.

Variable World : Type.
Variable callOpenAI : list ChatMessage -> World -> (jsstring + ChatCompletionResponse) * World.
Variable search fetch : JSON -> World -> completion JSON * World.
Variable JSON_parse : jsstring -> option JSON.
Variable OPENAI_API_KEY : option jsstring.
Variable systemPrompt : jsstring.

Local Abbreviation turns := (turns World callOpenAI search fetch JSON_parse).
Local Abbreviation runToolCalls := (runToolCalls World search fetch JSON_parse).
Local Abbreviation toolResult := (toolResult World search fetch JSON_parse).
Local Abbreviation runListingAgent :=
  (runListingAgent World callOpenAI search fetch JSON_parse OPENAI_API_KEY systemPrompt).

(** A name that resolves to nothing is answered with the error object,
    and the world is left as it was. *)
Lemma toolResult_unknown toolCall w :
  toolExecutors (function_name toolCall) = None ->
  toolResult toolCall w
  = (Returns (JObject [(lit "error", JString (lit "Unknown tool " ++ function_name toolCall))]), w).
Proof. unfold Agent.toolResult. by intros ->. Qed.

(** A call returns when its name is not inherited and, if the name is
    that of a registered tool, the tool returns on its arguments. *)
Lemma toolResult_callable toolCall w :
  function_name toolCall ∉ Object_prototype ->
  (function_name toolCall = lit "search_listings" ->
   exists r w', search (arguments_of JSON_parse toolCall) w = (Returns r, w')) ->
  (function_name toolCall = lit "fetch_listing_page" ->
   exists r w', fetch (arguments_of JSON_parse toolCall) w = (Returns r, w')) ->
  exists r w', toolResult toolCall w = (Returns r, w').
Proof.
  intros Hname Hsearch Hfetch. unfold Agent.toolResult, toolExecutors.
  repeat case_decide; simpl; [by apply Hsearch|by apply Hfetch|done|eauto].
Qed.

Lemma runToolCalls_callable toolCalls : forall messages w,
  Forall (fun toolCall => function_name toolCall ∉ Object_prototype) toolCalls ->
  Forall (fun toolCall =>
            forall w,
              (function_name toolCall = lit "search_listings" ->
               exists r w', search (arguments_of JSON_parse toolCall) w = (Returns r, w'))
              /\ (function_name toolCall = lit "fetch_listing_page" ->
                  exists r w', fetch (arguments_of JSON_parse toolCall) w = (Returns r, w')))
         toolCalls ->
  exists messages' w', runToolCalls toolCalls messages w = (Returns messages', w').
Proof.
  induction toolCalls as [|toolCall toolCalls IH]; intros messages w Hall Hret; simpl; [eauto|].
  apply Forall_cons in Hall as [Hname Hall]. apply Forall_cons in Hret as [Hcall Hret].
  destruct (Hcall w) as [Hsearch Hfetch].
  destruct (toolResult_callable toolCall w Hname Hsearch Hfetch) as (r & w' & ->).
  by apply IH.
Qed.

Lemma runToolCalls_throws toolCalls messages w e w' :
  runToolCalls toolCalls messages w = (Throws e, w') ->
  Forall (fun toolCall => function_name toolCall ∉ Object_prototype) toolCalls ->
  ~ Forall (fun toolCall =>
              forall w,
                (function_name toolCall = lit "search_listings" ->
                 exists r w', search (arguments_of JSON_parse toolCall) w = (Returns r, w'))
                /\ (function_name toolCall = lit "fetch_listing_page" ->
                    exists r w', fetch (arguments_of JSON_parse toolCall) w = (Returns r, w')))
            toolCalls.
Proof.
  intros Hrun Hall Hret.
  destruct (runToolCalls_callable toolCalls messages w Hall Hret) as (m' & w'' & Hok).
  rewrite Hok in Hrun. discriminate.
Qed.

Local Arguments Agent.runToolCalls : simpl never.

(** Each turn makes one call, and there are at most [left] turns. *)
Lemma turns_calls left : forall messages warnings exs w,
  (length (exchanges (turns left messages warnings exs w).1) <= length exs + left)%nat.
Proof.
  induction left as [|left IH]; intros messages warnings exs w; simpl; [lia|].
  destruct (callOpenAI messages w) as [[error|completion] w1]; simpl.
  { rewrite length_app. simpl. lia. }
  destruct (choices completion) as [|choice ?]; simpl.
  { rewrite length_app. simpl. lia. }
  destruct (default [] (tool_calls _)) as [|toolCall toolCalls].
  - repeat case_match; simpl; rewrite length_app; simpl; lia.
  - destruct (runToolCalls _ _ _) as [[messages'|e] w2]; simpl.
    + etrans; [apply IH|]. rewrite length_app. simpl. lia.
    + rewrite length_app. simpl. lia.
Qed.

(** The endpoint is never called a seventh time. *)
Lemma runListingAgent_calls prompt w :
  (length (exchanges (runListingAgent prompt w).1) <= MAX_AGENT_STEPS)%nat.
Proof.
  unfold Agent.runListingAgent.
  destruct OPENAI_API_KEY as [[|c key]|]; [simpl; lia| |simpl; lia].
  etrans; [apply turns_calls|]. simpl. lia.
Qed.

End AgentFacts.

Section Budget.

Variable World : Type.
Variable callOpenAI : list ChatMessage -> World -> (jsstring + ChatCompletionResponse) * World.
Variable search fetch : JSON -> World -> completion JSON * World.
Variable JSON_parse : jsstring -> option JSON.

Local Abbreviation turns := (turns World callOpenAI search fetch JSON_parse).

Local Arguments Agent.runToolCalls : simpl never.

Lemma toolCalls_of_message choice :
  default [] (tool_calls match message choice with
                         | Some m => m
                         | None => {| role := assistant; content := Some [];
                                      tool_call_id := None; tool_calls := None |}
                         end)
  = toolCalls_of choice.
Proof. unfold toolCalls_of. by destruct (message choice). Qed.

(** A run in which no answer completes, every tool can be called and no
    tool throws ends with the failure result, and with no warning exactly
    when every turn of the budget asked for tools. *)
Lemma turns_without_completion left : forall messages exs w,
  exists new,
    exchanges (turns left messages [] exs w).1 = exs ++ new
    /\ (Forall (fun ex : exchange => completes ex.2 = false) new ->
        Forall (fun ex : exchange => tools_callable ex.2) new ->
        Forall (fun ex : exchange => tools_return search fetch JSON_parse ex.2) new ->
        exists r,
          result (turns left messages [] exs w).1 = Returns r
          /\ listings r = [] /\ sources r = [] /\ (length (warnings r) <= 1)%nat
          /\ (warnings r = [] <->
              length new = left
              /\ Forall (fun ex : exchange => requests_tools ex.2 = true) new)).
Proof.
  induction left as [|left IH]; intros messages exs w; simpl.
  { exists []. rewrite app_nil_r. split; [done|]. intros _ _ _.
    eexists. repeat split; simpl; auto. }
  destruct (callOpenAI messages w) as [answer w1] eqn:Hcall.
  destruct answer as [error|completion]; simpl.
  { exists [(messages, inl error)]. split; [done|]. intros _ _ _.
    eexists. repeat split; simpl; auto; try discriminate.
    intros [_ Hall]. by apply Forall_cons in Hall as [? _]. }
  destruct (choices completion) as [|choice others] eqn:Hchoices; simpl.
  { exists [(messages, inr completion)]. split; [done|]. intros _ _ _.
    eexists. repeat split; simpl; auto; try discriminate.
    intros [_ Hall]. apply Forall_cons in Hall as [Hall _].
    unfold requests_tools in Hall. simpl in Hall. by rewrite Hchoices in Hall. }
  rewrite toolCalls_of_message.
  destruct (toolCalls_of choice) as [|toolCall toolCalls] eqn:Hcalls.
  - exists [(messages, inr completion)]. split; [by repeat case_match|].
    intros Hquiet _ _. apply Forall_cons in Hquiet as [Hquiet _].
    unfold completes in Hquiet. simpl in Hquiet. rewrite Hchoices in Hquiet.
    simpl in Hquiet. rewrite Hcalls in Hquiet. rewrite Hquiet.
    assert (Hnot : requests_tools (inr completion) = false).
    { unfold requests_tools. simpl. rewrite Hchoices. simpl. by rewrite Hcalls. }
    case_decide; eexists; repeat split; simpl; auto; try discriminate;
      intros [_ Hall]; apply Forall_cons in Hall as [Hall _]; simpl in Hall; congruence.
  - destruct (Agent.runToolCalls _ _ _ _ _ _ _) as [[messages'|e] w2] eqn:Hrun.
    + destruct (IH messages' (exs ++ [(messages, inr completion)]) w2) as (new & Hnew & Hres).
      exists ((messages, inr completion) :: new).
      split; [by rewrite Hnew, <- app_assoc|].
      intros Hquiet Hcallable Hreturn.
      apply Forall_cons in Hquiet as [_ Hquiet].
      apply Forall_cons in Hcallable as [_ Hcallable].
      apply Forall_cons in Hreturn as [_ Hreturn].
      destruct (Hres Hquiet Hcallable Hreturn) as (r & Hr & Hl & Hs & Hw & Hiff).
      exists r. do 4 (split; [done|]). split.
      * intros Hnone. apply Hiff in Hnone as [Hlen Hall].
        split; [simpl; by rewrite Hlen|]. constructor; [|done].
        unfold requests_tools. simpl. rewrite Hchoices. simpl. by rewrite Hcalls.
      * intros [Hlen Hall]. apply Hiff. simpl in Hlen.
        apply Forall_cons in Hall as [_ Hall]. split; [lia|done].
    + exists [(messages, inr completion)]. split; [done|].
      intros _ Hcallable Hreturn. apply Forall_cons in Hcallable as [Hcallable _].
      apply Forall_cons in Hreturn as [Hreturn _].
      unfold tools_callable, toolCalls_in in Hcallable. simpl in Hcallable.
      rewrite Hchoices in Hcallable. simpl in Hcallable. rewrite Hcalls in Hcallable.
      unfold tools_return, toolCalls_in in Hreturn. simpl in Hreturn.
      rewrite Hchoices in Hreturn. simpl in Hreturn. rewrite Hcalls in Hreturn.
      exfalso. eapply runToolCalls_throws; [exact Hrun|exact Hcallable|exact Hreturn].
Qed.

(** An unknown tool does not end the run: the error object is appended
    as a tool message and the next turn begins. *)
Lemma unknown_tool_continues left messages warnings exs w completion w1 choice others toolCall :
  callOpenAI messages w = (inr completion, w1) ->
  choices completion = choice :: others ->
  toolCalls_of choice = [toolCall] ->
  toolExecutors (function_name toolCall) = None ->
  exists text,
    turns (S left) messages warnings exs w
    = turns left
        (messages
         ++ [{| role := assistant; content := Some text; tool_call_id := None;
                tool_calls := Some [toolCall] |};
             tool_message toolCall
               (JObject [(lit "error",
                          JString (lit "Unknown tool " ++ function_name toolCall))])])
        warnings (exs ++ [(messages, inr completion)]) w1.
Proof.
  intros Hcall Hchoices Hcalls Hnone. eexists. simpl.
  rewrite Hcall. simpl. rewrite Hchoices, toolCalls_of_message, Hcalls.
  unfold Agent.runToolCalls. rewrite toolResult_unknown by done.
  by rewrite <- app_assoc.
Qed.

End Budget.

(** Text without a character that JSON escapes is quoted as it stands. *)
Lemma quote_units_plain s : Forall (fun c => json_plain c = true) s -> quote_units s = s.
Proof.
  induction s as [|c s IH]; simpl; [done|].
  intros [Hc Hs]%Forall_cons. rewrite (IH Hs).
  pose proof Hc as Hplain. unfold json_plain in Hc.
  repeat (apply andb_prop in Hc as [Hc ?]).
  destruct (is_high_surrogate c); [done|].
  unfold escape_unit. rewrite Hplain.
  repeat (match goal with
          | |- context [match ?x with _ => _ end] => destruct x; try done
          end).
Qed.

Lemma stringify_string_member k s :
  JSON_stringify (JObject [(k, JString s)]) = [123%N] ++ quote k ++ [58%N] ++ quote s ++ [125%N].
Proof.
  unfold JSON_stringify. cbn [serialize map fst snd]. unfold bracket, join.
  cbn [map concat]. by rewrite app_nil_r, <- !app_assoc.
Qed.

(** The content of the tool message written for an unknown tool: the
    serialized error object, in which the name appears as it is when it
    holds no character that JSON escapes. *)
Lemma unknown_tool_content toolCall :
  Forall (fun c => json_plain c = true) (function_name toolCall) ->
  content (tool_message toolCall
             (JObject [(lit "error", JString (lit "Unknown tool " ++ function_name toolCall))]))
  = Some ([123; 34]%N ++ lit "error" ++ [34; 58; 34]%N
          ++ (lit "Unknown tool " ++ function_name toolCall) ++ [34; 125]%N).
Proof.
  intros Hplain. unfold tool_message. cbn [content]. f_equal.
  rewrite stringify_string_member. unfold quote.
  rewrite (quote_units_plain (lit "Unknown tool " ++ function_name toolCall)).
  - rewrite (quote_units_plain (lit "error")).
    + by rewrite <- !app_assoc.
    + apply (bool_decide_unpack _). by vm_compute.
  - apply Forall_app. split; [|done]. apply (bool_decide_unpack _). by vm_compute.
Qed.

(** C1, as stated, fails: when each of the six answers asks for a tool
    call, the run ends with the failure result and an empty list of
    warnings. *)
Lemma budget_exhausted_without_warning :
  Forall (fun ex : exchange => requests_tools ex.2 = true /\ completes ex.2 = false)
         (exchanges (scripted (lit "search_listings")))
  /\ length (exchanges (scripted (lit "search_listings"))) = 6%nat
  /\ exists r, result (scripted (lit "search_listings")) = Returns r
               /\ listings r = [] /\ sources r = [] /\ warnings r = [].
Proof.
  split; [|split].
  - vm_compute. repeat constructor.
  - vm_compute. reflexivity.
  - eexists. split; [vm_compute; reflexivity|]. done.
Qed.

(** C1, amended. For every sequence of model answers in which no answer
    within the budget of 6 turns completes the run (no tool call, finish
    reason [stop] or [length]), no tool call names a member of
    [Object.prototype], and no call of a registered tool throws,
    [runListingAgent] returns a result with empty listings, empty
    sources and at most one warning; the warnings are empty exactly when
    each of the 6 turns asked for tool calls. No seventh call is issued
    to the chat-completion endpoint. *)
Theorem budget_exhausted_result (World : Type)
    (callOpenAI : list ChatMessage -> World -> (jsstring + ChatCompletionResponse) * World)
    (search fetch : JSON -> World -> completion JSON * World)
    (JSON_parse : jsstring -> option JSON)
    (OPENAI_API_KEY : option jsstring) (systemPrompt prompt : jsstring) (w : World) :
  let run := (runListingAgent World callOpenAI search fetch JSON_parse
                OPENAI_API_KEY systemPrompt prompt w).1 in
  Forall (fun ex : exchange => completes ex.2 = false) (exchanges run) ->
  Forall (fun ex : exchange => tools_callable ex.2) (exchanges run) ->
  Forall (fun ex : exchange => tools_return search fetch JSON_parse ex.2) (exchanges run) ->
  (length (exchanges run) <= 6)%nat
  /\ exists r,
       result run = Returns r
       /\ listings r = [] /\ sources r = []
       /\ (length (warnings r) <= 1)%nat
       /\ (warnings r = [] <->
           length (exchanges run) = 6%nat
           /\ Forall (fun ex : exchange => requests_tools ex.2 = true) (exchanges run)).
Proof.
  intros run Hquiet Hcallable Hreturn. split; [apply runListingAgent_calls|].
  subst run. unfold runListingAgent in *.
  destruct OPENAI_API_KEY as [[|c key]|].
  - eexists. repeat split; simpl; auto; try discriminate. intros [? _]. discriminate.
  - destruct (turns_without_completion World callOpenAI search fetch JSON_parse
                MAX_AGENT_STEPS
                [{| role := system; content := Some systemPrompt;
                    tool_call_id := None; tool_calls := None |};
                 {| role := user;
                    content := Some (lit "User request: " ++ prompt ++ [10%N]
                                     ++ lit "Remember to return only JSON.");
                    tool_call_id := None; tool_calls := None |}] [] w)
      as (new & Hnew & Hres).
    rewrite Hnew in Hquiet, Hcallable, Hreturn |- *.
    simpl in Hquiet, Hcallable, Hreturn |- *.
    exact (Hres Hquiet Hcallable Hreturn).
  - eexists. repeat split; simpl; auto; try discriminate. intros [? _]. discriminate.
Qed.

Lemma budget_exhausted_result_witness :
  (length (exchanges Tools.searching) <= 6)%nat
  /\ exists r,
       result Tools.searching = Returns r
       /\ listings r = [] /\ sources r = []
       /\ (length (warnings r) <= 1)%nat
       /\ (warnings r = [] <->
           length (exchanges Tools.searching) = 6%nat
           /\ Forall (fun ex : exchange => requests_tools ex.2 = true)
                     (exchanges Tools.searching)).
Proof.
  apply (budget_exhausted_result unit (always (inr (tool_request (lit "search_listings"))))
           Tools.search_tool Tools.fetch_tool parse_braces (Some (lit "sk-test"))
           (lit "You are an agent.") (lit "2 bedroom condo") ()).
  - vm_compute. repeat constructor.
  - unfold tools_callable. apply (bool_decide_unpack _). vm_compute. exact I.
  - assert (Hone : tools_return Tools.search_tool Tools.fetch_tool parse_braces
                     (inr (tool_request (lit "search_listings")))).
    { constructor; [|constructor]. intros [].
      split; intros _; do 2 eexists; vm_compute; reflexivity. }
    match goal with |- Forall _ ?l => set (exs := l) end.
    vm_compute in exs. subst exs.
    repeat (constructor; [exact Hone|]). constructor.
Defined.

(** The hypothesis on the tools is needed: with [performWebSearch] as it
    is written, one call of [search_listings] whose [max_results] is an
    object with a member [toString] makes the run throw after its first
    turn, though no answer completes it and no name is inherited. *)
Example unconvertible_limit_rejects_the_run :
  result Tools.searching_badly = Throws TypeError
  /\ length (exchanges Tools.searching_badly) = 1%nat
  /\ Forall (fun ex : exchange => completes ex.2 = false /\ tools_callable ex.2)
            (exchanges Tools.searching_badly).
Proof.
  split; [vm_compute; reflexivity|]. split; [vm_compute; reflexivity|].
  match goal with |- Forall _ ?l => set (exs := l) end.
  vm_compute in exs. subst exs.
  constructor; [|constructor]. split; [vm_compute; reflexivity|].
  unfold tools_callable. apply (bool_decide_unpack _). vm_compute. exact I.
Qed.

(** C8. A tool name that is not registered but is a member of
    [Object.prototype] is not answered with the error object: for
    [__proto__] the call throws and the run ends after its first turn
    without a result; for [toString] the tool message carries the text
    [[object Undefined]] and no error. *)
Theorem inherited_name_is_not_reported :
  lit "__proto__" <> lit "search_listings" /\ lit "__proto__" <> lit "fetch_listing_page"
  /\ result (scripted (lit "__proto__")) = Throws TypeError
  /\ length (exchanges (scripted (lit "__proto__"))) = 1%nat
  /\ lit "toString" <> lit "search_listings" /\ lit "toString" <> lit "fetch_listing_page"
  /\ content <$> conversation (scripted (lit "toString")) !! 3%nat
     = Some (Some ([34%N] ++ lit "[object Undefined]" ++ [34%N])).
Proof. repeat split; vm_compute; (reflexivity || discriminate). Qed.

(** * Further properties *)

(** ** The normalizer *)

Section NormalizerMore.

Variable toUpperCase : jsstring -> jsstring.

Local Abbreviation step := (Normalizer.step toUpperCase).
Local Abbreviation loop := (Normalizer.loop toUpperCase).
Local Abbreviation normalizeAndDedupeListings :=
  (Normalizer.normalizeAndDedupeListings toUpperCase).

(** What [step] does: it pushes the normalized record under a new key, or
    merges it into the record its key points to. *)
Lemma step_cases seen out record seen' out' :
  step seen out record = Returns (seen', out') ->
  exists n, normalize record = Returns n
    /\ ((seen !! key_of toUpperCase record (length out) = None
         /\ seen' = <[key_of toUpperCase record (length out) := length out]> seen
         /\ out' = out ++ [n])
        \/ (exists idx prior,
              seen !! key_of toUpperCase record (length out) = Some idx
              /\ out !! idx = Some prior
              /\ seen' = seen /\ out' = <[idx := merge prior n]> out)).
Proof.
  unfold Normalizer.step. intros H. inv_bind H. exists x. split; [done|].
  destruct (seen !! _) as [idx|].
  - destruct (out !! idx) as [prior|] eqn:Hidx; [|done].
    inversion H; subst. right. eauto 10.
  - inversion H; subst. left. done.
Qed.

(** X1. Items that are not objects take no part in the result. *)
Theorem non_objects_are_skipped (items : list item) :
  normalizeAndDedupeListings items = normalizeAndDedupeListings (map Object (objects items)).
Proof. unfold Normalizer.normalizeAndDedupeListings. by rewrite loop_objects. Qed.

(** X2. The normalizer returns whenever each object of the input can be
    normalized on its own: looking a key up, registering it, merging and
    capping never throw. *)
Theorem returns_when_records_normalize (items : list item) :
  Forall (fun record => exists n, normalize record = Returns n) (objects items) ->
  exists out, normalizeAndDedupeListings items = Returns out.
Proof.
  intros H. apply normalizeAndDedupeListings_returns.
  eapply Forall_impl; [exact H|]. intros record [n Hn].
  unfold normalize in Hn. destruct (price_of record) as [p|e]; [eauto|done].
Qed.

(** X3. The normalizer throws when the first object has no [price] and a
    price text that is truthy without being a string. *)
Theorem throws_on_unreadable_price (items : list item) (record : RawRecord)
    (rest : list RawRecord) :
  objects items = record :: rest ->
  price_readable record = false ->
  normalizeAndDedupeListings items = Throws TypeError.
Proof.
  intros Hobjects Hprice.
  unfold Normalizer.normalizeAndDedupeListings. rewrite loop_objects, Hobjects. simpl.
  unfold Normalizer.step, normalize.
  assert (Hthrow : price_of record = Throws TypeError).
  { unfold price_readable in Hprice. unfold price_of, numberFromPriceLike.
    apply orb_false_iff in Hprice as [Hp Ht]. apply negb_false_iff in Hp. rewrite Hp.
    apply orb_false_iff in Ht as [Ht Hs]. apply negb_false_iff in Ht. rewrite Ht. simpl.
    by destruct (first _). }
  by rewrite Hthrow.
Qed.

End NormalizerMore.

(** ** Digit strings as numbers *)

Lemma is_digit_cases c :
  is_digit c = true ->
  (c = 48 \/ c = 49 \/ c = 50 \/ c = 51 \/ c = 52 \/ c = 53 \/ c = 54 \/ c = 55 \/ c = 56
   \/ c = 57)%N.
Proof. unfold is_digit. intros [H1 H2]%andb_prop. apply N.leb_le in H1, H2. lia. Qed.

Lemma is_digit_not_space c : is_digit c = true -> is_space c = false.
Proof. intros H. destruct (is_digit_cases c H) as [->|H']; [done|]. repeat (destruct H' as [->|H']; [done|]). by subst. Qed.

Lemma digits_trim s : Forall (fun c => is_digit c = true) s -> trim s = s.
Proof.
  intros Hs. unfold trim, trimEnd.
  assert (Hclean : forall t, Forall (fun c => is_digit c = true) t -> trimStart t = t).
  { intros t Ht. apply trimStart_fixed. destruct Ht; simpl; [done|]. by apply is_digit_not_space. }
  rewrite (Hclean s Hs). rewrite Hclean; [apply rev_involutive|].
  apply Forall_forall. intros c Hc. rewrite Forall_forall in Hs. apply Hs.
  by apply list_elem_of_In, in_rev, list_elem_of_In.
Qed.

Lemma span_digits s : Forall (fun c => is_digit c = true) s -> span is_digit s = (s, []).
Proof. induction 1 as [|c s Hc _ IH]; simpl; [done|]. by rewrite Hc, IH. Qed.

Lemma decimal_value_nonneg s : Forall (fun c => is_digit c = true) s -> 0 <= decimal_value s.
Proof.
  unfold decimal_value. intros Hs.
  assert (H : forall acc, 0 <= acc -> 0 <= fold_left (fun acc c => acc * 10 + digit_val c) s acc).
  { induction Hs as [|c s Hc _ IH]; intros acc Hacc; simpl; [done|].
    apply IH. apply is_digit_cases in Hc. unfold digit_val. lia. }
  by apply H.
Qed.

(** A non-empty string of digits is read as the integer it writes,
    rounded to the nearest binary64 value. *)
Lemma Number_of_string_digits c s :
  Forall (fun c => is_digit c = true) (c :: s) ->
  Number_of_string (c :: s) = of_Z (decimal_value (c :: s)).
Proof.
  intros Hs. pose proof (decimal_value_nonneg _ Hs) as Hv.
  unfold Number_of_string. rewrite (digits_trim _ Hs).
  assert (Hparse : parse_decimal false (c :: s) = of_Z (decimal_value (c :: s))).
  { unfold parse_decimal. case_decide as Hinf.
    - exfalso. apply Forall_cons in Hs as [Hc _]. inversion Hinf; subst. done.
    - unfold parse_unsigned_decimal. rewrite (span_digits _ Hs). simpl parse_exponent.
      cbv iota beta. rewrite app_nil_r. unfold round_decimal, of_Z. simpl length.
      replace (0 - Z.of_nat 0) with 0 by lia. simpl (0 <=? 0).
      cbv iota. rewrite Z.pow_0_r, Z.mul_1_r.
      replace (decimal_value (c :: s) <? 0) with false by (symmetry; apply Z.ltb_ge; lia).
      by rewrite Z.abs_eq. }
  pose proof Hs as Hs'. apply Forall_cons in Hs' as [Hc Hrest].
  destruct (is_digit_cases c Hc) as [->|Hc'].
  - destruct s as [|d s']; [exact Hparse|].
    apply Forall_cons in Hrest as [Hd _].
    destruct (is_digit_cases d Hd) as [->|Hd']; [exact Hparse|].
    repeat (destruct Hd' as [->|Hd']; [exact Hparse|]). subst. exact Hparse.
  - repeat (destruct Hc' as [->|Hc']; [exact Hparse|]). subst. exact Hparse.
Qed.

Lemma shr_1_nonneg mrs : 0 <= shr_m mrs -> 0 <= shr_m (shr_1 mrs).
Proof. destruct mrs as [m r s]. simpl. destruct m as [|[p|p|]|[p|p|]]; simpl; lia. Qed.

Lemma iter_shr_1_nonneg p : forall mrs,
  0 <= shr_m mrs -> 0 <= shr_m (SpecFloat.iter_pos shr_1 p mrs).
Proof.
  induction p as [p IH|p IH|]; intros mrs H; simpl.
  - by apply IH, IH, shr_1_nonneg.
  - by apply IH, IH.
  - by apply shr_1_nonneg.
Qed.

Lemma shr_fexp_nonneg m e l :
  0 <= m -> 0 <= shr_m (shr_fexp 53 1024 m e l).1.
Proof.
  intros Hm. unfold shr_fexp, shr.
  assert (H0 : 0 <= shr_m (shr_record_of_loc m l)) by (by destruct l as [|[]]).
  destruct (_ - e); simpl; auto using iter_shr_1_nonneg.
Qed.

(** Rounding a value that is not negative never gives NaN. *)
Lemma binary_round_aux_not_nan sx mx ex lx :
  0 <= mx -> binary_round_aux 53 1024 sx mx ex lx <> S754_nan.
Proof.
  intros Hm. unfold binary_round_aux.
  pose proof (shr_fexp_nonneg mx ex lx Hm) as H1.
  destruct (shr_fexp 53 1024 mx ex lx) as [mrs' e']. simpl in H1.
  assert (H2 : 0 <= round_nearest_even (shr_m mrs') (loc_of_shr_record mrs')).
  { unfold round_nearest_even. destruct (loc_of_shr_record mrs') as [|[]]; try lia.
    destruct (Z.even _); lia. }
  pose proof (shr_fexp_nonneg _ e' loc_Exact H2) as H3.
  destruct (shr_fexp 53 1024 _ e' loc_Exact) as [mrs'' e'']. simpl in H3.
  destruct (shr_m mrs''); [done| |lia]. by destruct (Z.leb _ _).
Qed.

Lemma round_ratio_not_nan neg p q : 0 <= p -> 0 < q -> round_ratio neg p q <> S754_nan.
Proof.
  intros Hp Hq. unfold round_ratio.
  pose proof (Z.div_pos (p * 2 ^ 1134) q ltac:(apply Z.mul_nonneg_nonneg; [done|by apply Z.pow_nonneg]) Hq) as Hdiv.
  unfold Z.div in Hdiv. destruct (Z.div_eucl _ _) as [m r]. simpl in Hdiv.
  by apply binary_round_aux_not_nan.
Qed.

(** A string of digits is read as a number that is neither negative nor
    NaN. *)
Lemma Number_of_string_digits_nonneg s :
  Forall (fun c => is_digit c = true) s -> nonneg (Number_of_string s) = true.
Proof.
  intros Hs. destruct s as [|c s]; [done|].
  rewrite Number_of_string_digits by done.
  pose proof (decimal_value_nonneg _ Hs) as Hv. unfold of_Z.
  replace (decimal_value (c :: s) <? 0) with false by (symmetry; apply Z.ltb_ge; lia).
  rewrite Z.abs_eq by done.
  pose proof (round_ratio_sign false (decimal_value (c :: s)) 1) as Hsign.
  pose proof (round_ratio_not_nan false (decimal_value (c :: s)) 1 Hv ltac:(lia)) as Hnan.
  destruct (round_ratio _ _ _); simpl in *; subst; done.
Qed.

Lemma keep_digits_digits s : Forall (fun c => is_digit c = true) (keep_digits s).
Proof.
  apply Forall_forall. intros c Hc. unfold keep_digits in Hc.
  by apply list_elem_of_filter in Hc as [Hc _].
Qed.

(** X4. The value read from a price-like text: the integer its digits
    write, as a binary64 value, which is finite and not negative; a text
    is the only argument that yields a value. *)
Theorem free_text_price_value (s : prim) (n : number) :
  numberFromPriceLike s = Returns (Some n) ->
  exists str, s = Str str
    /\ n = of_Z (decimal_value (keep_digits str))
    /\ isFinite n = true /\ nonneg n = true.
Proof.
  intros H. destruct (numberFromPriceLike_checked s n H) as [Hfin Hnn].
  unfold numberFromPriceLike in H. destruct (negb (truthy s)); [done|].
  destruct s as [| | |?|str]; try done. exists str. split; [done|].
  pose proof (keep_digits_digits str) as Hd.
  destruct (keep_digits str) as [|c raw]; [done|].
  rewrite Number_of_string_digits in H by done.
  destruct (isFinite _); [|done]. injection H as <-. done.
Qed.

Lemma free_text_price_value_witness :
  exists str, Str (lit "$1,250,000 CAD") = Str str
    /\ of_Z 1250000 = of_Z (decimal_value (keep_digits str))
    /\ isFinite (of_Z 1250000) = true /\ nonneg (of_Z 1250000) = true.
Proof.
  apply (free_text_price_value (Str (lit "$1,250,000 CAD")) (of_Z 1250000)).
  vm_compute. reflexivity.
Defined.

(** ** What every output record satisfies *)

Section OutputRecords.

Variable toUpperCase : jsstring -> jsstring.

Local Abbreviation step := (Normalizer.step toUpperCase).
Local Abbreviation loop := (Normalizer.loop toUpperCase).
Local Abbreviation normalizeAndDedupeListings :=
  (Normalizer.normalizeAndDedupeListings toUpperCase).

(** A property of normalized records that merging preserves holds of
    every record the loop returns. *)
Lemma loop_Forall (P : NormalizedListing -> Prop) items :
  (forall record n, normalize record = Returns n -> P n) ->
  (forall prior n, P prior -> P n -> P (merge prior n)) ->
  forall seen out res,
    Forall P out -> loop items seen out = Returns res -> Forall P res.
Proof.
  intros Hnorm Hmerge.
  induction items as [|[v|record] items IH]; intros seen out res Hout H; simpl in H.
  - by inversion H; subst.
  - eauto.
  - inv_bind H. destruct x as [seen' out'].
    assert (Hout' : Forall P out').
    { apply step_cases in Hx as (n & Hn & [(_ & _ & ->)|(idx & prior & _ & Hidx & _ & ->)]).
      - apply Forall_app. split; [done|]. constructor; eauto.
      - apply Forall_insert; [done|]. apply Hmerge; [|eauto].
        eapply Forall_lookup_1; eauto. }
    case_decide; [by inversion H; subst|]. eauto.
Qed.

Lemma output_Forall (P : NormalizedListing -> Prop) items out :
  (forall record n, normalize record = Returns n -> P n) ->
  (forall prior n, P prior -> P n -> P (merge prior n)) ->
  normalizeAndDedupeListings items = Returns out -> Forall P out.
Proof.
  intros Hnorm Hmerge H. apply normalizeAndDedupeListings_loop in H.
  eapply loop_Forall; eauto.
Qed.

(** X5. The [beds] of an output record is never negative and never NaN. *)
Theorem beds_never_negative (items : list item) (out : list NormalizedListing) :
  normalizeAndDedupeListings items = Returns out ->
  Forall (fun r => holds (fun b => nonneg b = true) (beds r)) out.
Proof.
  apply output_Forall.
  - intros record n H. unfold normalize in H. inv_bind H. inversion H; subst. simpl.
    unfold beds_of. destruct (nullish _); simpl; [done|].
    apply Number_of_string_digits_nonneg, keep_digits_digits.
  - intros prior n Hp Hn. simpl. by apply orElse_holds.
Qed.

(** X6. Every text field of an output record is its own [trim]: no leading or
    trailing white space is left. *)
Theorem output_text_is_trimmed (items : list item) (out : list NormalizedListing) :
  normalizeAndDedupeListings items = Returns out -> Forall tidy out.
Proof. apply output_Forall; [apply normalize_tidy|apply merge_tidy]. Qed.

(** A step keeps every record that has an identifier of its own
    registered under it. *)
Lemma step_keyed seen out record seen' out' :
  keyed toUpperCase seen out ->
  step seen out record = Returns (seen', out') ->
  keyed toUpperCase seen' out'.
Proof.
  intros Hk Hstep.
  apply step_cases in Hstep
    as (n & Hn & [(Hnew & -> & ->)|(idx & prior & Hold & Hidx & -> & ->)]).
  - intros i r Hi. apply lookup_app_Some in Hi as [Hi|[Hlen Hi]].
    + destruct (Hk i r Hi) as [Hreg|Hrest]; [|by right].
      left. rewrite lookup_insert_ne; [done|]. intros Heq. rewrite Heq in Hnew.
        pose proof (eq_trans (eq_sym Hnew) Hreg). discriminate.
    + apply list_lookup_singleton_Some in Hi as [Hi ->].
      assert (i = length out) as -> by lia.
      apply normalize_mls in Hn as [Hm _].
      destruct (mls_of record) as [[|c ia]|] eqn:Hmls.
      * right. by right.
      * left. rewrite Hm. erewrite key_of_mls by (try exact Hmls; done).
        apply lookup_insert_eq.
      * right. by left.
  - intros i r Hi. destruct (decide (i = idx)) as [->|Hne].
    + rewrite list_lookup_insert_eq in Hi by (by eapply lookup_lt_Some).
      inversion Hi; subst. simpl. apply (Hk idx prior Hidx).
    + rewrite list_lookup_insert_ne in Hi by done. by apply Hk.
Qed.

Lemma loop_keyed items : forall seen out res,
  keyed toUpperCase seen out -> loop items seen out = Returns res ->
  exists seen', keyed toUpperCase seen' res.
Proof.
  induction items as [|[v|record] items IH]; intros seen out res Hk H; simpl in H.
  - inversion H; subst. eauto.
  - eauto.
  - inv_bind H. destruct x as [seen' out'].
    pose proof (step_keyed _ _ _ _ _ Hk Hx) as Hk'.
    case_decide; [inversion H; subst; eauto|]. eauto.
Qed.

(** X7. No two output records carry the same identifier, letter case aside,
    unless it is empty or the sentinel. *)
Theorem identifiers_are_unique (items : list item) (out : list NormalizedListing)
    (i j : nat) (ri rj : NormalizedListing) :
  normalizeAndDedupeListings items = Returns out ->
  out !! i = Some ri -> out !! j = Some rj -> i <> j ->
  mls ri <> [] -> mls ri <> MLS_NOT_FOUND -> mls rj <> [] -> mls rj <> MLS_NOT_FOUND ->
  toUpperCase (mls ri) <> toUpperCase (mls rj).
Proof.
  intros H Hi Hj Hij Hi1 Hi2 Hj1 Hj2 Heq.
  apply normalizeAndDedupeListings_loop in H.
  destruct (loop_keyed items ∅ [] out) as [seen Hk]; [|done|].
  { intros k r Hr. by rewrite lookup_nil in Hr. }
  destruct (Hk i ri Hi) as [Hsi|[?|?]]; [|done..].
  destruct (Hk j rj Hj) as [Hsj|[?|?]]; [|done..].
  rewrite Heq in Hsi. congruence.
Qed.

End OutputRecords.

(** ** How the output grows with the input *)

Lemma kept_refl {A} (a : option A) : kept a a.
Proof. by destruct a. Qed.

Lemma kept_trans {A} (a b c : option A) : kept a b -> kept b c -> kept a c.
Proof. destruct a; simpl; [|done]. intros ->. simpl. done. Qed.

Lemma kept_orElse {A} (a b : option A) : kept a (orElse a b).
Proof. by destruct a. Qed.

Lemma extends_refl r : extends r r.
Proof. unfold extends. auto 12 using kept_refl. Qed.

Lemma extends_trans a b c : extends a b -> extends b c -> extends a c.
Proof.
  unfold extends.
  intros (Hm & Hu & ? & ? & ? & ? & ? & ? & ?) (Hm' & Hu' & ? & ? & ? & ? & ? & ? & ?).
  split; [congruence|]. split; [congruence|].
  repeat split; eapply kept_trans; eassumption.
Qed.

Lemma extends_merge prior n : extends prior (merge prior n).
Proof. unfold extends. simpl. auto 12 using kept_orElse. Qed.

Lemma grows_refl out : grows out out.
Proof. split; [done|]. eauto using extends_refl. Qed.

Lemma grows_trans a b c : grows a b -> grows b c -> grows a c.
Proof.
  intros [Hl Hab] [Hl' Hbc]. split; [lia|].
  intros i prior Hi. destruct (Hab i prior Hi) as (r & Hr & He).
  destruct (Hbc i r Hr) as (r' & Hr' & He'). eauto using extends_trans.
Qed.

Section Growth.

Variable toUpperCase : jsstring -> jsstring.

Local Abbreviation step := (Normalizer.step toUpperCase).
Local Abbreviation loop := (Normalizer.loop toUpperCase).
Local Abbreviation normalizeAndDedupeListings :=
  (Normalizer.normalizeAndDedupeListings toUpperCase).

Lemma step_grows seen out record seen' out' :
  step seen out record = Returns (seen', out') -> grows out out'.
Proof.
  intros Hstep.
  apply step_cases in Hstep
    as (n & Hn & [(Hnew & -> & ->)|(idx & prior & Hold & Hidx & -> & ->)]).
  - split; [rewrite length_app; lia|]. intros i r Hi. exists r.
    split; [|apply extends_refl]. by apply lookup_app_l_Some.
  - split; [by rewrite length_insert|]. intros i r Hi.
    destruct (decide (i = idx)) as [->|Hne].
    + exists (merge prior n). rewrite list_lookup_insert_eq by (by eapply lookup_lt_Some).
      split; [done|]. rewrite Hidx in Hi. inversion Hi; subst. apply extends_merge.
    + exists r. rewrite list_lookup_insert_ne by done. split; [done|apply extends_refl].
Qed.

Lemma loop_grows items : forall seen out res,
  loop items seen out = Returns res -> grows out res.
Proof.
  induction items as [|[v|record] items IH]; intros seen out res H; simpl in H.
  - inversion H; subst. apply grows_refl.
  - eauto.
  - inv_bind H. destruct x as [seen' out'].
    pose proof (step_grows _ _ _ _ _ Hx) as Hg.
    case_decide; [by inversion H; subst|]. eauto using grows_trans.
Qed.

Lemma loop_app pre : forall rest seen out res,
  loop (pre ++ rest) seen out = Returns res ->
  exists res0, loop pre seen out = Returns res0 /\ grows res0 res.
Proof.
  induction pre as [|[v|record] pre IH]; intros rest seen out res H; simpl in *.
  - exists out. split; [done|]. eapply loop_grows; eauto.
  - eauto.
  - inv_bind H. rewrite Hx. simpl. destruct x as [seen' out'].
    case_decide; [|eauto]. inversion H; subst. exists res. split; [done|apply grows_refl].
Qed.

(** X8. More input never removes, moves or rewrites what was there: the
    output for [pre ++ rest] holds the records of the output for [pre] at
    the same places, with the same identifier and URL and with every field
    that was present unchanged. *)
Theorem appending_input_extends_output (pre rest : list item) (res : list NormalizedListing) :
  normalizeAndDedupeListings (pre ++ rest) = Returns res ->
  exists res0, normalizeAndDedupeListings pre = Returns res0 /\ grows res0 res.
Proof.
  intros H. apply normalizeAndDedupeListings_loop in H.
  apply loop_app in H as (res0 & H0 & Hg). exists res0. split; [|done].
  by apply normalizeAndDedupeListings_loop.
Qed.

Lemma loop_length_objects items : forall seen out res,
  loop items seen out = Returns res ->
  (length res <= length out + length (objects items))%nat.
Proof.
  induction items as [|[v|record] items IH]; intros seen out res H; simpl in H.
  - inversion H; subst. lia.
  - apply IH in H. done.
  - inv_bind H. destruct x as [seen' out']. apply step_length in Hx.
    change (length (objects (Object record :: items))) with (S (length (objects items))).
    case_decide; [inversion H; subst; lia|]. apply IH in H. lia.
Qed.

(** The output is empty only when the input holds no object. *)
Lemma output_empty_iff (items : list item) (out : list NormalizedListing) :
  normalizeAndDedupeListings items = Returns out ->
  out = [] <-> objects items = [].
Proof.
  intros H. apply normalizeAndDedupeListings_loop in H.
  pose proof (loop_length_objects _ _ _ _ H) as Hlen. simpl in Hlen.
  split.
  - intros ->. rewrite loop_objects in H.
    destruct (objects items) as [|record rs]; [done|]. exfalso.
    simpl in H. inv_bind H. destruct x as [seen' out'].
    apply step_cases in Hx as (n & Hn & [(_ & _ & ->)|(idx & prior & Hold & _)]).
    + case_decide; [done|]. apply loop_grows in H as [Hl _]. simpl in Hl. lia.
    + by rewrite lookup_empty in Hold.
  - intros Hnone. rewrite Hnone in Hlen. by destruct out; [|simpl in Hlen; lia].
Qed.

(** X9. The output holds at most one record for each object of the input, and
    it is empty only when the input holds no object. *)
Theorem one_record_per_object_at_most (items : list item) (out : list NormalizedListing) :
  normalizeAndDedupeListings items = Returns out ->
  (length out <= length (objects items))%nat
  /\ (out = [] <-> objects items = []).
Proof.
  intros H. split; [|by apply output_empty_iff].
  apply normalizeAndDedupeListings_loop in H.
  pose proof (loop_length_objects _ _ _ _ H) as Hlen. by simpl in Hlen.
Qed.

(** X10. Two records without identifier that carry the same non-empty URL
    are one listing when each of them can be normalized: one record
    results, the merge of the two, with the sentinel as identifier. When
    one of the two cannot be normalized, the call throws what
    normalizing it throws. *)
Theorem same_url_one_record (a b : RawRecord) (u : jsstring) :
  mls_of a = None -> mls_of b = None ->
  url_of a = Some u -> url_of b = Some u -> u <> [] ->
  match normalize a, normalize b with
  | Returns na, Returns nb =>
      normalizeAndDedupeListings [Object a; Object b] = Returns [merge na nb]
      /\ mls (merge na nb) = MLS_NOT_FOUND /\ Normalizer.url (merge na nb) = Some u
  | Throws e, _ | Returns _, Throws e =>
      normalizeAndDedupeListings [Object a; Object b] = Throws e
  end.
Proof.
  intros Hma Hmb Hua Hub Hu.
  destruct (normalize a) as [na|e] eqn:Ha.
  - destruct (normalize b) as [nb|e] eqn:Hb.
    + split.
      * unfold Normalizer.normalizeAndDedupeListings. simpl. unfold Normalizer.step.
        rewrite Ha. simpl. rewrite lookup_empty. simpl. rewrite Hb. simpl.
        rewrite !key_of_no_identifier by done. rewrite Hua, Hub.
        destruct u as [|c u]; [done|]. by rewrite lookup_insert_eq.
      * simpl. apply normalize_mls in Ha as [-> ->]. by rewrite Hma.
    + unfold Normalizer.normalizeAndDedupeListings. simpl. unfold Normalizer.step.
      rewrite Ha. simpl. rewrite lookup_empty. simpl. by rewrite Hb.
  - unfold Normalizer.normalizeAndDedupeListings. simpl. unfold Normalizer.step.
    by rewrite Ha.
Qed.

End Growth.

Lemma orElse_assoc {A} (x y z : option A) : orElse (orElse x y) z = orElse x (orElse y z).
Proof. by destruct x. Qed.

Lemma orElse_idem {A} (x : option A) : orElse x x = x.
Proof. by destruct x. Qed.

(** X11. Merging is associative and idempotent: merging a run of duplicates one
    after the other gives what merging the first with the merge of the
    others gives. *)
Theorem merge_assoc_idem (a b c : NormalizedListing) :
  merge (merge a b) c = merge a (merge b c) /\ merge a a = a.
Proof.
  split.
  - unfold merge. simpl. by rewrite !orElse_assoc.
  - destruct a. unfold merge. simpl. by rewrite !orElse_idem.
Qed.

(** ** The properties above on sample inputs *)

Lemma returns_when_records_normalize_witness :
  exists out, normalizeAndDedupeListings toUpperCase_ascii four_anonymous = Returns out.
Proof.
  apply (returns_when_records_normalize toUpperCase_ascii four_anonymous).
  repeat constructor; eexists; reflexivity.
Defined.

Lemma throws_on_unreadable_price_witness :
  normalizeAndDedupeListings toUpperCase_ascii
    [Primitive Null; Object priced_as_number; Object first_seen]
  = Throws TypeError.
Proof.
  apply (throws_on_unreadable_price toUpperCase_ascii
           [Primitive Null; Object priced_as_number; Object first_seen]
           priced_as_number [first_seen]); reflexivity.
Defined.

Lemma beds_never_negative_witness :
  exists out,
    normalizeAndDedupeListings toUpperCase_ascii [Object studio; Object furnished] = Returns out
    /\ Forall (fun r => holds (fun b => nonneg b = true) (beds r)) out.
Proof.
  eexists. split; [vm_compute; reflexivity|].
  apply (beds_never_negative toUpperCase_ascii [Object studio; Object furnished]).
  vm_compute. reflexivity.
Defined.

Lemma output_text_is_trimmed_witness :
  exists out,
    normalizeAndDedupeListings toUpperCase_ascii [Object furnished; Object blank_url] = Returns out
    /\ Forall tidy out.
Proof.
  eexists. split; [vm_compute; reflexivity|].
  apply (output_text_is_trimmed toUpperCase_ascii [Object furnished; Object blank_url]).
  vm_compute. reflexivity.
Defined.

Lemma identifiers_are_unique_witness :
  exists out ri rj,
    normalizeAndDedupeListings toUpperCase_ascii twelve = Returns out
    /\ out !! 0%nat = Some ri /\ out !! 1%nat = Some rj
    /\ toUpperCase_ascii (mls ri) <> toUpperCase_ascii (mls rj).
Proof.
  do 3 eexists. split; [vm_compute; reflexivity|].
  split; [reflexivity|]. split; [reflexivity|].
  eapply (identifiers_are_unique toUpperCase_ascii twelve _ 0 1);
    first [vm_compute; reflexivity | vm_compute; discriminate | lia].
Defined.

Lemma appending_input_extends_output_witness :
  exists res0 res,
    normalizeAndDedupeListings toUpperCase_ascii ([Object first_seen] ++ [Object same_listing])
    = Returns res
    /\ normalizeAndDedupeListings toUpperCase_ascii [Object first_seen] = Returns res0
    /\ grows res0 res.
Proof.
  destruct (appending_input_extends_output toUpperCase_ascii [Object first_seen]
              [Object same_listing] _ eq_refl) as (res0 & H0 & Hg).
  exists res0. eexists. split; [reflexivity|]. split; [exact H0|exact Hg].
Defined.

Lemma one_record_per_object_at_most_witness :
  exists out,
    normalizeAndDedupeListings toUpperCase_ascii four_anonymous = Returns out
    /\ (length out <= length (objects four_anonymous))%nat
    /\ (out = [] <-> objects four_anonymous = []).
Proof.
  eexists. split; [vm_compute; reflexivity|].
  apply (one_record_per_object_at_most toUpperCase_ascii four_anonymous).
  vm_compute. reflexivity.
Defined.

Lemma same_url_one_record_witness :
  (exists na nb,
     normalizeAndDedupeListings toUpperCase_ascii
       [Object (listed_at "12 Oak Ave"); Object priced_later]
     = Returns [merge na nb]
     /\ mls (merge na nb) = MLS_NOT_FOUND
     /\ Normalizer.url (merge na nb) = Some (lit "https://centris.ca/1"))
  /\ normalizeAndDedupeListings toUpperCase_ascii
       [Object unreadable_page; Object priced_later]
     = Throws TypeError.
Proof.
  split.
  - do 2 eexists.
    apply (same_url_one_record toUpperCase_ascii (listed_at "12 Oak Ave") priced_later);
      first [reflexivity | discriminate].
  - apply (same_url_one_record toUpperCase_ascii unreadable_page priced_later
             (lit "https://centris.ca/1"));
      first [reflexivity | discriminate].
Defined.

(** ** The agent loop *)

Lemma source_of_url (source : JSON) (s : AgentSource) :
  source_of source = Some s -> Agent.url s <> [].
Proof.
  unfold source_of. destruct source; try done.
  destruct (property _ _) as [[| | |[|c u]| |]|]; try done.
  by intros [= <-].
Qed.

Lemma sources_have_url (raw : list JSON) :
  Forall (fun s => Agent.url s <> []) (omap source_of raw).
Proof.
  induction raw as [|source raw IH]; simpl; [constructor|].
  destruct (source_of source) eqn:Hs; [|done].
  constructor; [by eapply source_of_url|done].
Qed.

Lemma longer_trans {A} (a b c : list A) : longer a b -> longer b c -> longer a c.
Proof.
  intros (m1 & H1 & ->) (m2 & H2 & ->). exists (m1 ++ m2).
  split; [by destruct m1|by rewrite app_assoc].
Qed.

Lemma longer_prefix {A} (a b : list A) : longer a b -> a `prefix_of` b.
Proof. intros (more & _ & ->). by exists more. Qed.

Lemma chain_growing {A} (ls : list (list A)) : forall m, chain m ls -> growing ls.
Proof.
  induction ls as [|a rest IH]; intros m Hc i x y Hx Hy; [done|].
  simpl in Hc. destruct Hc as [-> Hrest].
  destruct rest as [|b rest]; [by destruct i|].
  destruct Hrest as [Hlong Hrest].
  destruct i as [|i]; simpl in Hx, Hy.
  - by simplify_eq.
  - by eapply (IH b Hrest i).
Qed.

Section AgentMore.

Variable World : Type.
Variable callOpenAI : list ChatMessage -> World -> (jsstring + ChatCompletionResponse) * World.
Variable search fetch : JSON -> World -> completion JSON * World.
Variable JSON_parse : jsstring -> option JSON.
Variable OPENAI_API_KEY : option jsstring.
Variable systemPrompt : jsstring.

Local Abbreviation turns := (turns World callOpenAI search fetch JSON_parse).
Local Abbreviation runToolCalls := (runToolCalls World search fetch JSON_parse).
Local Abbreviation toolResult := (toolResult World search fetch JSON_parse).
Local Abbreviation pushed := (pushed World search fetch JSON_parse).
Local Abbreviation completed := (completed JSON_parse).
Local Abbreviation runListingAgent :=
  (runListingAgent World callOpenAI search fetch JSON_parse OPENAI_API_KEY systemPrompt).

(** The tool messages are appended in the order of the calls, one for
    each. *)
Lemma runToolCalls_appends toolCalls : forall messages w messages' w',
  runToolCalls toolCalls messages w = (Returns messages', w') ->
  exists results,
    length results = length toolCalls
    /\ messages' = messages ++ zip_with tool_message toolCalls results.
Proof.
  induction toolCalls as [|toolCall toolCalls IH]; intros messages w messages' w'; simpl.
  - intros [= <- <-]. exists []. by rewrite app_nil_r.
  - destruct (toolResult toolCall w) as [[r|e] w1]; [|done].
    intros (results & Hlen & ->)%IH. exists (r :: results).
    split; [simpl; by rewrite Hlen|]. by rewrite <- app_assoc.
Qed.

(** What the loop over the tool calls leaves begins with what it found. *)
Lemma pushed_prefix toolCalls : forall messages w,
  messages `prefix_of` pushed toolCalls messages w.
Proof.
  induction toolCalls as [|toolCall toolCalls IH]; intros messages w; simpl; [done|].
  destruct (toolResult toolCall w) as [[r|e] w1]; [|done].
  etrans; [|apply IH]. by exists [tool_message toolCall r].
Qed.

Lemma text_of_message choice :
  default [] (content match message choice with
                      | Some m => m
                      | None => {| role := assistant; content := Some [];
                                   tool_call_id := None; tool_calls := None |}
                      end)
  = text_of choice.
Proof. unfold text_of. by destruct (message choice). Qed.

Local Arguments Agent.runToolCalls : simpl never.
Local Arguments Agent.completed : simpl never.

(** One turn, case by case. *)
Lemma turns_S left messages warnings exs w :
  turns (S left) messages warnings exs w
  = let '(answer, w1) := callOpenAI messages w in
    let exs1 := exs ++ [(messages, answer)] in
    let stop r msgs := ({| result := r; exchanges := exs1; conversation := msgs |}, w1) in
    match first_choice answer with
    | None =>
        stop (Returns (failed (warnings ++ [match answer with
                                            | inl error => error
                                            | inr _ => lit "OpenAI API returned no choices"
                                            end]))) messages
    | Some choice =>
        match toolCalls_of choice with
        | [] =>
            if is_final (finish_reason choice)
            then stop (completed (text_of choice) warnings) messages
            else stop (Returns (failed (warnings ++
                         [if decide (finish_reason choice = lit "content_filter")
                          then lit "OpenAI content filter blocked the response"
                          else lit "Unexpected finish reason: " ++ finish_reason choice])))
                      messages
        | _ =>
            match runToolCalls (toolCalls_of choice) (messages ++ [assistant_message choice]) w1 with
            | (Returns messages', w2) => turns left messages' warnings exs1 w2
            | (Throws e, w2) =>
                ({| result := Throws e; exchanges := exs1;
                    conversation :=
                      pushed (toolCalls_of choice) (messages ++ [assistant_message choice]) w1 |},
                 w2)
            end
        end
    end.
Proof.
  simpl. destruct (callOpenAI messages w) as [[error|completion] w1]; simpl; [done|].
  destruct (choices completion) as [|choice others]; simpl; [done|].
  rewrite toolCalls_of_message, text_of_message. unfold assistant_message.
  destruct (toolCalls_of choice) as [|toolCall toolCalls]; [|done].
  repeat case_match; done.
Qed.

Lemma runListingAgent_with_key prompt w :
  configured OPENAI_API_KEY = true ->
  runListingAgent prompt w
  = turns MAX_AGENT_STEPS (initial_messages systemPrompt prompt) [] [] w.
Proof. unfold Agent.runListingAgent. by destruct OPENAI_API_KEY as [[|c key]|]. Qed.

Lemma runListingAgent_without_key prompt w :
  configured OPENAI_API_KEY = false ->
  runListingAgent prompt w
  = ({| result := Returns (failed [lit "OPENAI_API_KEY is not configured"]);
        exchanges := []; conversation := [] |}, w).
Proof. unfold Agent.runListingAgent. by destruct OPENAI_API_KEY as [[|c key]|]. Qed.

Lemma all_but_last_cons {A} (a b : A) (l : list A) :
  all_but_last (a :: b :: l) = a :: all_but_last (b :: l).
Proof. unfold all_but_last. simpl. by rewrite Nat.sub_0_r. Qed.

(** The requests of a run: the first carries the messages the loop was
    entered with, each later one carries more, and all are kept in the
    conversation. *)
Lemma turns_requests left : forall messages ws exs w,
  exists new,
    exchanges (turns left messages ws exs w).1 = exs ++ new
    /\ (length new <= left)%nat
    /\ (new = [] <-> left = O)
    /\ chain messages (fst <$> new)
    /\ Forall (fun ex : exchange => requests_tools ex.2 = true) (all_but_last new)
    /\ Forall (fun ex : exchange => ex.1 `prefix_of` conversation (turns left messages ws exs w).1)
              new
    /\ messages `prefix_of` conversation (turns left messages ws exs w).1.
Proof.
  induction left as [|left IH]; intros messages ws exs w.
  { exists []. simpl. rewrite app_nil_r. repeat split; auto. }
  rewrite turns_S.
  destruct (callOpenAI messages w) as [answer w1] eqn:Hcall.
  assert (Hone : forall (r : completion AgentRunResult) (w' : World),
            exists new,
              exchanges ({| result := r; exchanges := exs ++ [(messages, answer)];
                            conversation := messages |}, w').1 = exs ++ new
              /\ (length new <= S left)%nat
              /\ (new = [] <-> S left = O)
              /\ chain messages (fst <$> new)
              /\ Forall (fun ex : exchange => requests_tools ex.2 = true) (all_but_last new)
              /\ Forall (fun ex : exchange => ex.1 `prefix_of` messages) new
              /\ messages `prefix_of` messages).
  { intros r w'. exists [(messages, answer)]. simpl.
    repeat split; auto; try done; try lia. }
  cbv zeta.
  destruct (first_choice answer) as [choice|] eqn:Hchoice; [|apply Hone].
  destruct (toolCalls_of choice) as [|toolCall toolCalls] eqn:Hcalls.
  { case_match; apply Hone. }
  destruct (runToolCalls _ _ w1) as [[messages'|e] w2] eqn:Hrun.
  - apply runToolCalls_appends in Hrun as (results & Hlen & ->).
    set (messages' := _ ++ zip_with _ _ _).
    assert (Hlonger : longer messages messages').
    { exists ([assistant_message choice] ++ zip_with tool_message (toolCall :: toolCalls) results).
      split; [done|]. subst messages'. by rewrite <- app_assoc. }
    destruct (IH messages' ws (exs ++ [(messages, answer)]) w2)
      as (new & Hnew & Hle & Hnil & Hchain & Htools & Hkept & Hpre).
    exists ((messages, answer) :: new). simpl.
    split; [by rewrite Hnew, <- app_assoc|].
    split; [lia|]. split; [done|].
    assert (Hmine : messages `prefix_of` conversation
                      (turns left messages' ws (exs ++ [(messages, answer)]) w2).1).
    { etrans; [by apply longer_prefix|done]. }
    repeat split; auto.
    + destruct new as [|[m a] new]; [done|]. simpl in Hchain |- *.
      destruct Hchain as [-> Hrest]. split; [done|]. by split.
    + destruct new as [|ex new]; [constructor|]. rewrite all_but_last_cons.
      constructor; [|done]. simpl.
      unfold requests_tools. by rewrite Hchoice, Hcalls.
  - assert (Hkept : messages `prefix_of`
                      pushed (toolCall :: toolCalls) (messages ++ [assistant_message choice]) w1).
    { etrans; [|apply pushed_prefix]. by exists [assistant_message choice]. }
    exists [(messages, answer)]. cbn [fst conversation exchanges].
    repeat split; auto; try done; try (simpl; lia).
Qed.

(** X12. However the model and the tools answer, the chat-completion
    endpoint is called at most 6 times in a run; it is not called at all
    exactly when no API key is configured; and every call but the last
    was answered with a request for tool calls. *)
Theorem endpoint_calls (prompt : jsstring) (w : World) :
  (length (exchanges (runListingAgent prompt w).1) <= MAX_AGENT_STEPS)%nat
  /\ (exchanges (runListingAgent prompt w).1 = [] <-> configured OPENAI_API_KEY = false)
  /\ Forall (fun ex : exchange => requests_tools ex.2 = true)
            (all_but_last (exchanges (runListingAgent prompt w).1)).
Proof.
  destruct (configured OPENAI_API_KEY) eqn:Hkey.
  - rewrite runListingAgent_with_key by done.
    destruct (turns_requests MAX_AGENT_STEPS (initial_messages systemPrompt prompt) [] [] w)
      as (new & -> & Hle & Hnil & _ & Htools & _).
    simpl. split; [done|]. split; [|done].
    split; [|done]. intros ->. by destruct Hnil as [Hnil _]; specialize (Hnil eq_refl).
  - rewrite runListingAgent_without_key by done. simpl.
    split; [unfold MAX_AGENT_STEPS; lia|]. split; [done|]. constructor.
Qed.

(** X13. The conversation only grows: the first request carries the
    system prompt and the user request, every later request carries the
    messages of the one before it and at least one more, and every
    request is a prefix of the conversation the run ends with. *)
Theorem requests_only_grow (prompt : jsstring) (w : World) :
  let run := (runListingAgent prompt w).1 in
  growing (fst <$> exchanges run)
  /\ head (fst <$> exchanges run)
     = (if configured OPENAI_API_KEY then Some (initial_messages systemPrompt prompt) else None)
  /\ Forall (fun ex : exchange => ex.1 `prefix_of` conversation run) (exchanges run).
Proof.
  intros run. subst run.
  destruct (configured OPENAI_API_KEY) eqn:Hkey.
  - rewrite runListingAgent_with_key by done.
    destruct (turns_requests MAX_AGENT_STEPS (initial_messages systemPrompt prompt) [] [] w)
      as (new & Hnew & _ & Hnil & Hchain & _ & Hkept & _).
    rewrite Hnew. simpl. split; [by eapply chain_growing|]. split; [|done].
    destruct new as [|[m a] new]; [by destruct Hnil as [Hnil _]; specialize (Hnil eq_refl)|].
    simpl in *. by destruct Hchain as [-> _].
  - rewrite runListingAgent_without_key by done. simpl.
    split; [|done]. by intros [|i] a b.
Qed.

(** X14. When the tool calls of a turn return, each call has been
    answered by exactly one tool message, appended after the messages
    already there in the order of the calls and carrying the id of its
    call. *)
Theorem every_tool_call_is_answered (toolCalls : list ToolCall) (messages messages' : list ChatMessage)
    (w w' : World) :
  runToolCalls toolCalls messages w = (Returns messages', w') ->
  exists answers,
    messages' = messages ++ answers
    /\ Forall (fun m => role m = tool) answers
    /\ tool_call_id <$> answers = (fun toolCall => Some (id toolCall)) <$> toolCalls.
Proof.
  intros (results & Hlen & ->)%runToolCalls_appends.
  exists (zip_with tool_message toolCalls results). split; [done|].
  clear messages. revert results Hlen.
  induction toolCalls as [|toolCall toolCalls IH]; intros [|r results] Hlen; try done.
  simpl in Hlen. destruct (IH results) as [Hrole Hids]; [lia|].
  split; [by constructor|]. csimpl. by rewrite Hids.
Qed.

Lemma completed_returns text ws r :
  completed text ws = Returns r ->
  Forall (fun s => Agent.url s <> []) (sources r)
  /\ rawResponse r = Some text /\ warnings r = ws.
Proof.
  unfold Agent.completed.
  destruct (safeJsonParse _ _ _); intros [= <-];
    (split; [first [apply sources_have_url | apply (sources_have_url [])]|done]).
Qed.

Lemma turns_result left : forall messages ws exs w r,
  result (turns left messages ws exs w).1 = Returns r ->
  Forall (fun s => Agent.url s <> []) (sources r)
  /\ match rawResponse r with
     | Some _ => warnings r = ws
     | None => empty_handed r /\ (warnings r = ws \/ exists e, warnings r = ws ++ [e])
     end.
Proof.
  induction left as [|left IH]; intros messages ws exs w r.
  { simpl. intros [= <-]. simpl. split; [constructor|]. split; [done|]. by left. }
  rewrite turns_S.
  destruct (callOpenAI messages w) as [answer w1]. cbv zeta.
  assert (Hfailed : forall e, Returns (failed (ws ++ [e])) = Returns r ->
            Forall (fun s => Agent.url s <> []) (sources r)
            /\ match rawResponse r with
               | Some _ => warnings r = ws
               | None => empty_handed r /\ (warnings r = ws \/ exists e, warnings r = ws ++ [e])
               end).
  { intros e [= <-]. simpl. split; [constructor|]. split; [done|]. right. by exists e. }
  destruct (first_choice answer) as [choice|]; [|apply Hfailed].
  destruct (toolCalls_of choice) as [|toolCall toolCalls].
  { destruct (is_final (finish_reason choice)); [|apply Hfailed]. simpl.
    intros (Hs & Hraw & Hw)%completed_returns. by rewrite Hraw. }
  destruct (runToolCalls _ _ w1) as [[messages'|e] w2]; [apply IH|done].
Qed.

(** X15. Whatever the model answers, a result that is returned names no
    source without a URL, carries at most one warning, carries none when
    it comes with the raw text of an answer, and has no listings, sources
    or notes when it does not. *)
Theorem returned_result_is_consistent (prompt : jsstring) (w : World) (r : AgentRunResult) :
  result (runListingAgent prompt w).1 = Returns r ->
  Forall (fun s => Agent.url s <> []) (sources r)
  /\ (length (warnings r) <= 1)%nat
  /\ match rawResponse r with
     | Some _ => warnings r = []
     | None => empty_handed r
     end.
Proof.
  destruct (configured OPENAI_API_KEY) eqn:Hkey.
  - rewrite runListingAgent_with_key by done.
    intros [Hs Hr]%turns_result. split; [done|].
    destruct (rawResponse r).
    + rewrite Hr. split; [simpl; lia|done].
    + destruct Hr as [He [->|[e ->]]]; (split; [simpl; lia|done]).
  - rewrite runListingAgent_without_key by done. simpl. intros [= <-]. simpl.
    split; [constructor|]. split; [lia|done].
Qed.

(** X16. An answer that ends the run with text that parses to [null]
    makes the run throw: the properties of the parsed value are read
    without a check. No warning is recorded and no result is returned. *)
Theorem null_answer_throws (prompt : jsstring) (w w1 : World)
    (completion : ChatCompletionResponse) (choice : Choice) :
  configured OPENAI_API_KEY = true ->
  callOpenAI (initial_messages systemPrompt prompt) w = (inr completion, w1) ->
  head (choices completion) = Some choice ->
  toolCalls_of choice = [] ->
  is_final (finish_reason choice) = true ->
  JSON_parse (text_of choice) = Some JNull ->
  runListingAgent prompt w
  = ({| result := Throws TypeError;
        exchanges := [(initial_messages systemPrompt prompt, inr completion)];
        conversation := initial_messages systemPrompt prompt |}, w1).
Proof.
  intros Hkey Hcall Hchoice Hcalls Hfinal Hparse.
  rewrite runListingAgent_with_key by done.
  unfold MAX_AGENT_STEPS. rewrite turns_S, Hcall. cbv zeta.
  unfold first_choice. rewrite Hchoice, Hcalls, Hfinal.
  unfold Agent.completed, safeJsonParse. by rewrite Hparse.
Qed.

(** X17. An answer that ends the run with text that is not JSON, or that
    is a JSON number, string, boolean or array, gives a result with no
    listings, no sources, no notes and no warning, and the text as raw
    response. *)
Theorem text_answer_gives_empty_result (prompt : jsstring) (w w1 : World)
    (completion : ChatCompletionResponse) (choice : Choice) :
  configured OPENAI_API_KEY = true ->
  callOpenAI (initial_messages systemPrompt prompt) w = (inr completion, w1) ->
  head (choices completion) = Some choice ->
  toolCalls_of choice = [] ->
  is_final (finish_reason choice) = true ->
  no_object (JSON_parse (text_of choice)) = true ->
  runListingAgent prompt w
  = ({| result := Returns {| listings := []; sources := []; notes_en := None;
                             notes_fr := None; warnings := [];
                             rawResponse := Some (text_of choice) |};
        exchanges := [(initial_messages systemPrompt prompt, inr completion)];
        conversation := initial_messages systemPrompt prompt |}, w1).
Proof.
  intros Hkey Hcall Hchoice Hcalls Hfinal Hparse.
  rewrite runListingAgent_with_key by done.
  unfold MAX_AGENT_STEPS. rewrite turns_S, Hcall. cbv zeta.
  unfold first_choice. rewrite Hchoice, Hcalls, Hfinal.
  unfold Agent.completed, safeJsonParse.
  by destruct (JSON_parse (text_of choice)) as [[]|].
Qed.

Lemma runToolCalls_unknown toolCalls : forall messages w,
  Forall (fun toolCall => toolExecutors (function_name toolCall) = None) toolCalls ->
  runToolCalls toolCalls messages w
  = (Returns (messages
              ++ map (fun toolCall => tool_message toolCall (unknown_tool (function_name toolCall)))
                     toolCalls), w).
Proof.
  induction toolCalls as [|toolCall toolCalls IH]; intros messages w Hall.
  { unfold Agent.runToolCalls. by rewrite app_nil_r. }
  apply Forall_cons in Hall as [Hnone Hall].
  unfold Agent.runToolCalls. rewrite toolResult_unknown by done.
  fold (Agent.runToolCalls World search fetch JSON_parse).
  rewrite IH by done. by rewrite <- app_assoc.
Qed.

(** A turn whose answer asks for tools. *)
Lemma turns_S_tools left messages ws exs w answer w1 choice :
  callOpenAI messages w = (answer, w1) ->
  first_choice answer = Some choice ->
  toolCalls_of choice <> [] ->
  turns (S left) messages ws exs w
  = match runToolCalls (toolCalls_of choice) (messages ++ [assistant_message choice]) w1 with
    | (Returns messages', w2) => turns left messages' ws (exs ++ [(messages, answer)]) w2
    | (Throws e, w2) =>
        ({| result := Throws e; exchanges := exs ++ [(messages, answer)];
            conversation :=
              pushed (toolCalls_of choice) (messages ++ [assistant_message choice]) w1 |}, w2)
    end.
Proof.
  intros Hcall Hchoice Hcalls. rewrite turns_S, Hcall. cbv zeta. rewrite Hchoice.
  by destruct (toolCalls_of choice).
Qed.

(** The first call of a run with turns left is made with the messages
    the loop was entered with. *)
Lemma turns_first_exchange left messages ws exs w :
  exists rest,
    exchanges (turns (S left) messages ws exs w).1
    = exs ++ (messages, (callOpenAI messages w).1) :: rest.
Proof.
  rewrite turns_S. destruct (callOpenAI messages w) as [answer w1]. cbv zeta.
  assert (Hhere : forall left' messages' w',
            exists rest,
              exchanges (turns left' messages' ws (exs ++ [(messages, answer)]) w').1
              = exs ++ (messages, answer) :: rest).
  { intros left' messages' w'.
    destruct (turns_requests left' messages' ws (exs ++ [(messages, answer)]) w')
      as (new & -> & _). exists new. by rewrite <- app_assoc. }
  destruct (first_choice answer) as [choice|]; [|by exists []].
  destruct (toolCalls_of choice) as [|toolCall toolCalls]; [by exists []; case_match|].
  destruct (runToolCalls _ _ w1) as [[messages'|e] w2]; [apply Hhere|by exists []].
Qed.

(** X18. Tool calls that name no registered tool and no member of
    [Object.prototype] do not end the run and reach no tool: the second
    request to the endpoint carries the first one's messages, the
    assistant message with the calls, and one tool message per call with
    the error object for its name. *)
Theorem unknown_tools_are_reported (prompt : jsstring) (w w1 : World)
    (completion : ChatCompletionResponse) (choice : Choice) :
  configured OPENAI_API_KEY = true ->
  callOpenAI (initial_messages systemPrompt prompt) w = (inr completion, w1) ->
  head (choices completion) = Some choice ->
  toolCalls_of choice <> [] ->
  Forall (fun toolCall => toolExecutors (function_name toolCall) = None) (toolCalls_of choice) ->
  let second :=
    initial_messages systemPrompt prompt
    ++ assistant_message choice
       :: map (fun toolCall => tool_message toolCall (unknown_tool (function_name toolCall)))
              (toolCalls_of choice) in
  exchanges (runListingAgent prompt w).1 !! 1%nat = Some (second, (callOpenAI second w1).1).
Proof.
  intros Hkey Hcall Hchoice Hcalls Hnone second.
  rewrite runListingAgent_with_key by done.
  unfold MAX_AGENT_STEPS.
  rewrite (turns_S_tools _ _ _ _ _ (inr completion) w1 choice) by done.
  rewrite runToolCalls_unknown by done. rewrite <- app_assoc.
  change ([assistant_message choice] ++ ?l) with (assistant_message choice :: l).
  fold second.
  destruct (turns_first_exchange 4 second [] ([] ++ [(initial_messages systemPrompt prompt,
                                                      inr completion)]) w1) as [rest Hrest].
  exact (eq_trans (f_equal (fun l => l !! 1%nat) Hrest) eq_refl).
Qed.

End AgentMore.

Lemma every_tool_call_is_answered_witness :
  exists answers,
    [tool_message {| id := lit "call_1"; function_name := lit "search_listings";
                     function_arguments := lit "{}" |} (JObject []);
     tool_message {| id := lit "call_2"; function_name := lit "lookup_mls";
                     function_arguments := [] |} (unknown_tool (lit "lookup_mls"))]
    = [] ++ answers
    /\ Forall (fun m => role m = tool) answers
    /\ tool_call_id <$> answers = (fun toolCall => Some (id toolCall)) <$> two_calls.
Proof.
  apply (every_tool_call_is_answered unit empty_tool empty_tool parse_braces two_calls [] _ () ()).
  vm_compute. reflexivity.
Defined.

Lemma returned_result_is_consistent_witness :
  exists r,
    result (answered (lit "answer")) = Returns r
    /\ length (sources r) = 1%nat
    /\ Forall (fun s => Agent.url s <> []) (sources r)
    /\ (length (warnings r) <= 1)%nat
    /\ match rawResponse r with
       | Some _ => warnings r = []
       | None => empty_handed r
       end.
Proof.
  eexists. split; [vm_compute; reflexivity|]. split; [reflexivity|].
  apply (returned_result_is_consistent unit (always (inr (final_answer (lit "answer"))))
           empty_tool empty_tool parse_sample (Some (lit "sk-test"))
           (lit "You are an agent.") (lit "2 bedroom condo") ()).
  vm_compute. reflexivity.
Defined.

Lemma null_answer_throws_witness :
  result (answered (lit "null")) = Throws TypeError
  /\ length (exchanges (answered (lit "null"))) = 1%nat.
Proof.
  unfold answered.
  rewrite (null_answer_throws unit (always (inr (final_answer (lit "null"))))
             empty_tool empty_tool parse_sample (Some (lit "sk-test"))
             (lit "You are an agent.") (lit "2 bedroom condo") () ()
             (final_answer (lit "null"))
             {| finish_reason := lit "stop";
                message := Some {| role := assistant; content := Some (lit "null");
                                   tool_call_id := None; tool_calls := None |} |});
    first [done | vm_compute; reflexivity].
Defined.

Lemma text_answer_gives_empty_result_witness :
  result (answered (lit "Sorry, I found nothing."))
  = Returns {| listings := []; sources := []; notes_en := None; notes_fr := None;
               warnings := []; rawResponse := Some (lit "Sorry, I found nothing.") |}
  /\ result (answered (lit "[]"))
     = Returns {| listings := []; sources := []; notes_en := None; notes_fr := None;
                  warnings := []; rawResponse := Some (lit "[]") |}.
Proof.
  unfold answered. split.
  - rewrite (text_answer_gives_empty_result unit
               (always (inr (final_answer (lit "Sorry, I found nothing."))))
               empty_tool empty_tool parse_sample (Some (lit "sk-test"))
               (lit "You are an agent.") (lit "2 bedroom condo") () ()
               (final_answer (lit "Sorry, I found nothing."))
               {| finish_reason := lit "stop";
                  message := Some {| role := assistant;
                                     content := Some (lit "Sorry, I found nothing.");
                                     tool_call_id := None; tool_calls := None |} |});
      first [done | vm_compute; reflexivity].
  - rewrite (text_answer_gives_empty_result unit (always (inr (final_answer (lit "[]"))))
               empty_tool empty_tool parse_sample (Some (lit "sk-test"))
               (lit "You are an agent.") (lit "2 bedroom condo") () ()
               (final_answer (lit "[]"))
               {| finish_reason := lit "stop";
                  message := Some {| role := assistant; content := Some (lit "[]");
                                     tool_call_id := None; tool_calls := None |} |});
      first [done | vm_compute; reflexivity].
Defined.

Lemma unknown_tools_are_reported_witness :
  fst <$> exchanges (scripted (lit "lookup_mls")) !! 1%nat
  = Some (initial_messages (lit "You are an agent.") (lit "2 bedroom condo")
          ++ [{| role := assistant; content := Some []; tool_call_id := None;
                 tool_calls := Some [{| id := lit "call_1"; function_name := lit "lookup_mls";
                                        function_arguments := lit "{}" |}] |};
              tool_message {| id := lit "call_1"; function_name := lit "lookup_mls";
                              function_arguments := lit "{}" |}
                           (unknown_tool (lit "lookup_mls"))]).
Proof.
  unfold scripted.
  rewrite (unknown_tools_are_reported unit (always (inr (tool_request (lit "lookup_mls"))))
             empty_tool empty_tool parse_braces (Some (lit "sk-test"))
             (lit "You are an agent.") (lit "2 bedroom condo") () ()
             (tool_request (lit "lookup_mls"))
             {| finish_reason := lit "tool_calls";
                message :=
                  Some {| role := assistant; content := None; tool_call_id := None;
                          tool_calls := Some [{| id := lit "call_1";
                                                 function_name := lit "lookup_mls";
                                                 function_arguments := lit "{}" |}] |} |});
    first [reflexivity | done | idtac].
  apply (bool_decide_unpack _). vm_compute. exact I.
Defined.

(** ** The workflow *)

Lemma toCleanString_trimmed (value : prim) : trim (toCleanString value) = toCleanString value.
Proof. destruct value; try reflexivity. apply trim_idem. Qed.

Section Workflow.

Variable toUpperCase : jsstring -> jsstring.
Variable runGuardrails : jsstring -> list GuardrailResult.
Variable buildGuardrailFailOutput : list GuardrailResult -> JSON.

Local Abbreviation normalizeAndDedupeListings := (normalizeAndDedupeListings toUpperCase).
Local Abbreviation runWorkflow :=
  (runWorkflow toUpperCase runGuardrails buildGuardrailFailOutput).

(** X19. An answer says it has results exactly when the [listings]
    variable of the request is an array that holds at least one object;
    what the objects hold plays no part. *)
Theorem hasResults_iff_some_object (workflow : WorkflowInput) (output_text : jsstring)
    (output : Output) :
  runWorkflow workflow = Returns (Answer output_text output) ->
  hasResults output = true <-> objects (listingsInput workflow) <> [].
Proof.
  unfold Normalizer.runWorkflow. destruct (guardrailsHasTripwire _); [done|].
  intros H. inv_bind H. injection H as _ <-. simpl.
  rewrite bool_decide_eq_true, <- (output_empty_iff toUpperCase _ _ Hx).
  destruct x; simpl; split; (done || lia).
Qed.

(** X20. In every answer the search criteria are trimmed strings. The
    location is the [location] variable, trimmed, when that is a string
    with more than white space in it; when it is missing, not a string
    or blank, the location is the default one. It is never empty. *)
Theorem criteria_are_clean (workflow : WorkflowInput) (output_text : jsstring) (output : Output) :
  runWorkflow workflow = Returns (Answer output_text output) ->
  let c := Normalizer.criteria output in
  c_location c = default DEFAULT_LOCATION (location_asked workflow)
  /\ c_location c <> []
  /\ Forall (fun s => trim s = s)
       [c_location c; c_priceMin c; c_priceMax c; c_beds c; c_baths c; c_type c; c_keywords c].
Proof.
  unfold Normalizer.runWorkflow. destruct (guardrailsHasTripwire _); [done|].
  intros H. inv_bind H. injection H as _ <-. simpl.
  split; [|split].
  - unfold location_asked, variables_of.
    destruct (get _ (lit "location")) as [| | | |s]; try reflexivity.
    simpl. by destruct (trim s).
  - by destruct (toCleanString _).
  - repeat constructor; try apply toCleanString_trimmed.
    destruct (toCleanString _) eqn:Hloc; [reflexivity|].
    rewrite <- Hloc. apply toCleanString_trimmed.
Qed.

End Workflow.

(** X21. With the local stand-in for the guardrails, which reports
    nothing, no request is answered with the guardrail failure payload:
    the workflow returns an answer, or throws where the normalizer
    throws. *)
Theorem shim_never_trips (toUpperCase : jsstring -> jsstring)
    (buildGuardrailFailOutput : list GuardrailResult -> JSON) (workflow : WorkflowInput) :
  match runWorkflow toUpperCase runGuardrails_shim buildGuardrailFailOutput workflow with
  | Returns (Answer _ _) =>
      exists out, normalizeAndDedupeListings toUpperCase (listingsInput workflow) = Returns out
  | Returns (GuardrailFail _) => False
  | Throws e => normalizeAndDedupeListings toUpperCase (listingsInput workflow) = Throws e
  end.
Proof.
  unfold runWorkflow. simpl.
  destruct (normalizeAndDedupeListings toUpperCase (listingsInput workflow)); simpl; eauto.
Qed.

Lemma hasResults_iff_some_object_witness :
  exists output_text output,
    runWorkflow toUpperCase_ascii runGuardrails_shim (fun _ => JNull) condo_request
    = Returns (Answer output_text output)
    /\ (hasResults output = true <-> objects (listingsInput condo_request) <> []).
Proof.
  do 2 eexists. split; [reflexivity|].
  apply (hasResults_iff_some_object toUpperCase_ascii runGuardrails_shim (fun _ => JNull)
           condo_request _ _ eq_refl).
Defined.

Lemma criteria_are_clean_witness :
  exists output_text output,
    runWorkflow toUpperCase_ascii runGuardrails_shim (fun _ => JNull) bare_request
    = Returns (Answer output_text output)
    /\ location_asked bare_request = None
    /\ c_keywords (Normalizer.criteria output) = lit "condo in Laval"
    /\ c_location (Normalizer.criteria output)
       = default DEFAULT_LOCATION (location_asked bare_request)
    /\ c_location (Normalizer.criteria output) <> []
    /\ Forall (fun s => trim s = s)
         [c_location (Normalizer.criteria output); c_priceMin (Normalizer.criteria output);
          c_priceMax (Normalizer.criteria output); c_beds (Normalizer.criteria output);
          c_baths (Normalizer.criteria output); c_type (Normalizer.criteria output);
          c_keywords (Normalizer.criteria output)].
Proof.
  do 2 eexists. split; [reflexivity|]. split; [reflexivity|].
  split; [vm_compute; reflexivity|].
  apply (criteria_are_clean toUpperCase_ascii runGuardrails_shim (fun _ => JNull)
           bare_request _ _ eq_refl).
Defined.

(** ** The page cleaner *)

Import Tools.

Lemma trimStart_length s : (length (trimStart s) <= length s)%nat.
Proof. destruct (trimStart_suffix s) as [pre Hpre]. rewrite Hpre at 2. rewrite length_app. lia. Qed.

Lemma trim_length s : (length (trim s) <= length s)%nat.
Proof.
  unfold trim, trimEnd. rewrite length_rev.
  etrans; [apply trimStart_length|]. rewrite length_rev. apply trimStart_length.
Qed.

(** [trim] cuts a piece out of the string. *)
Lemma trim_segment s : exists pre post, s = pre ++ trim s ++ post.
Proof.
  destruct (trimStart_suffix s) as [pre Hpre].
  destruct (trimStart_suffix (rev (trimStart s))) as [post Hpost].
  exists pre, (rev post). unfold trim, trimEnd.
  rewrite <- rev_app_distr, <- Hpost, rev_involutive. exact Hpre.
Qed.

Lemma replace_from_length matcher s : forall skip,
  (length (replace_from matcher skip s) <= length s)%nat.
Proof.
  induction s as [|c s IH]; intros [|skip]; simpl; try lia.
  - destruct (matcher (c :: s)); simpl; [specialize (IH (n - 1)%nat)|specialize (IH 0%nat)]; lia.
  - specialize (IH skip). lia.
Qed.

Lemma collapse_length s : forall within, (length (collapse within s) <= length s)%nat.
Proof.
  induction s as [|c s IH]; intros within; simpl; [lia|].
  destruct (is_space c), within; simpl;
    try (specialize (IH true); lia); specialize (IH false); lia.
Qed.

(** What [replace] and [collapse] write is a space or was there before. *)
Lemma replace_from_units matcher c s : forall skip,
  c ∈ replace_from matcher skip s -> c = 32%N \/ c ∈ s.
Proof.
  induction s as [|d s IH]; intros [|skip]; simpl; try by intros ?%elem_of_nil.
  - destruct (matcher (d :: s)).
    + intros [->|Hin%IH]%elem_of_cons; [by left|]. destruct Hin; [by left|right; by constructor].
    + intros [->|Hin%IH]%elem_of_cons; [right; by constructor|].
      destruct Hin; [by left|right; by constructor].
  - intros [?|?]%IH; [by left|right; by constructor].
Qed.

Lemma collapse_units c s : forall within,
  c ∈ collapse within s -> c = 32%N \/ c ∈ s.
Proof.
  induction s as [|d s IH]; intros within; simpl; [by intros ?%elem_of_nil|].
  destruct (is_space d), within.
  - intros [?|?]%IH; [by left|right; by constructor].
  - intros [->|[?|?]%IH]%elem_of_cons; [by left|by left|right; by constructor].
  - intros [->|[?|?]%IH]%elem_of_cons; [right; by constructor|by left|right; by constructor].
  - intros [->|[?|?]%IH]%elem_of_cons; [right; by constructor|by left|right; by constructor].
Qed.

(** *** Spacing *)

Lemma collapse_true_head s : starts_clean (collapse true s).
Proof. induction s as [|c s IH]; simpl; [done|]. by destruct (is_space c) eqn:Hc. Qed.

Lemma collapse_spaced s : forall within, spaced (collapse within s) = true.
Proof.
  induction s as [|c s IH]; intros within; simpl; [done|].
  destruct (is_space c) eqn:Hc.
  - destruct within; [apply IH|].
    cbn [spaced]. rewrite (IH true), andb_true_r.
    change (is_space 32) with true. cbn [N.eqb Pos.eqb andb].
    pose proof (collapse_true_head s) as Hhead.
    destruct (collapse true s) as [|d t]; [done|]. simpl in Hhead. by rewrite Hhead.
  - cbn [spaced]. by rewrite Hc, (IH false).
Qed.

Lemma spaced_app_r a b : spaced (a ++ b) = true -> spaced b = true.
Proof.
  induction a as [|c a IH]; [done|]. cbn [app spaced].
  intros [_ H]%andb_prop. by apply IH.
Qed.

Lemma spaced_app_l a b : spaced (a ++ b) = true -> spaced a = true.
Proof.
  induction a as [|c a IH]; [done|]. cbn [app spaced].
  intros [Hc H]%andb_prop. rewrite (IH H), andb_true_r.
  destruct (is_space c); [|done].
  apply andb_prop in Hc as [-> Hnext]. destruct a; [done|exact Hnext].
Qed.

Lemma trim_spaced s : spaced s = true -> spaced (trim s) = true.
Proof.
  destruct (trim_segment s) as (pre & post & Hs). intros H. rewrite Hs in H.
  by apply spaced_app_r, spaced_app_l in H.
Qed.

Lemma collapse_fixed s : forall within,
  spaced s = true -> (within = true -> starts_clean s) -> collapse within s = s.
Proof.
  induction s as [|c s IH]; intros within Hs Hw; [done|].
  cbn [spaced] in Hs. apply andb_prop in Hs as [Hc Hs]. cbn [collapse].
  destruct (is_space c) eqn:Hspace.
  - destruct within; [specialize (Hw eq_refl); simpl in Hw; congruence|].
    apply andb_prop in Hc as [->%N.eqb_eq Hnext]. f_equal.
    apply IH; [done|]. intros _. destruct s; [done|]. simpl. by apply negb_true_iff.
  - f_equal. by apply IH.
Qed.

(** *** Tags *)

Lemma tag_free_nil : tag_free [].
Proof. intros [|] b H; discriminate. Qed.

Lemma tag_free_cons c s : c <> 60%N -> tag_free s -> tag_free (c :: s).
Proof.
  intros Hc Hs [|d a] b H; simpl in H; [congruence|].
  injection H as _ H. by eapply Hs.
Qed.

Lemma tag_free_app_r a b : tag_free (a ++ b) -> tag_free b.
Proof. intros H x y Hb. apply (H (a ++ x) y). by rewrite Hb, <- app_assoc. Qed.

Lemma tag_free_app_l a b : tag_free (a ++ b) -> tag_free a.
Proof.
  intros H x y Ha. destruct (H x (y ++ b)) as [Hhead|Hnot].
  - by rewrite Ha, <- app_assoc.
  - destruct y as [|c y]; [right; apply not_elem_of_nil|by left].
  - right. intros Hin. apply Hnot. apply elem_of_app. by left.
Qed.

Lemma tag_free_tail c s : tag_free (c :: s) -> tag_free s.
Proof. apply (tag_free_app_r [c]). Qed.

Lemma through_unit_elem c s n : through_unit c s = Some n -> c ∈ s.
Proof.
  revert n. induction s as [|d s IH]; intros n; simpl; [done|].
  destruct (d =? c)%N eqn:Hd.
  - apply N.eqb_eq in Hd as ->. intros _. by constructor.
  - destruct (through_unit c s); [|done]. intros _. constructor. by eapply IH.
Qed.

Lemma through_unit_None c s : through_unit c s = None -> c ∉ s.
Proof.
  induction s as [|d s IH]; simpl; [intros _; apply not_elem_of_nil|].
  destruct (d =? c)%N eqn:Hd; [done|].
  destruct (through_unit c s); [done|]. intros _.
  apply not_elem_of_cons. split; [|by apply IH].
  apply N.eqb_neq in Hd. congruence.
Qed.

(** A [<] that the tag pattern does not match is followed by [>] or by
    no [>] at all. *)
Lemma match_tag_None s :
  match_tag (60%N :: s) = None -> head s = Some 62%N \/ 62%N ∉ s.
Proof.
  destruct s as [|d s]; [right; apply not_elem_of_nil|]. cbn [match_tag].
  destruct (d =? 62)%N eqn:Hd; [apply N.eqb_eq in Hd as ->; by left|].
  destruct (through_unit 62 s) eqn:Hs; [done|]. intros _. right.
  apply not_elem_of_cons. split; [apply N.eqb_neq in Hd; congruence|].
  by apply through_unit_None.
Qed.

Lemma replace_tags_tag_free s : forall skip, tag_free (replace_from match_tag skip s).
Proof.
  induction s as [|c s IH]; intros [|skip]; cbn [replace_from];
    [apply tag_free_nil|apply tag_free_nil| |apply IH].
  destruct (match_tag (c :: s)) eqn:Hm; [by apply tag_free_cons|].
  destruct (decide (c = 60%N)) as [->|Hc]; [|by apply tag_free_cons].
  intros [|d a] b H; simpl in H.
  - injection H as <-. apply match_tag_None in Hm as [Hhead|Hnot].
    + left. destruct s as [|d s]; [done|]. injection Hhead as ->. done.
    + right. intros [?|?]%replace_from_units; done.
  - injection H as _ H. by eapply IH.
Qed.

Lemma collapse_tag_free s : forall within, tag_free s -> tag_free (collapse within s).
Proof.
  induction s as [|c s IH]; intros within Hs; cbn [collapse]; [apply tag_free_nil|].
  pose proof (tag_free_tail _ _ Hs) as Htail.
  destruct (is_space c) eqn:Hc.
  - destruct within; [by apply IH|]. apply tag_free_cons; [done|by apply IH].
  - destruct (decide (c = 60%N)) as [->|Hne]; [|apply tag_free_cons; [done|by apply IH]].
    intros [|d a] b H; simpl in H.
    + injection H as <-. destruct (Hs [] s eq_refl) as [Hhead|Hnot].
      * left. destruct s as [|d s]; [done|]. injection Hhead as ->. done.
      * right. intros [?|?]%collapse_units; done.
    + injection H as _ H. by eapply (IH false).
Qed.

Lemma trim_tag_free s : tag_free s -> tag_free (trim s).
Proof.
  destruct (trim_segment s) as (pre & post & Hs). intros H. rewrite Hs in H.
  by apply tag_free_app_r, tag_free_app_l in H.
Qed.

Lemma cleaned_text_shape_parts (html : jsstring) :
  spaced (extractTextFromHtml html) = true
  /\ trim (extractTextFromHtml html) = extractTextFromHtml html
  /\ tag_free (extractTextFromHtml html).
Proof.
  unfold extractTextFromHtml, replace_all. cbv zeta. repeat split.
  - apply trim_spaced, collapse_spaced.
  - apply trim_idem.
  - apply trim_tag_free, collapse_tag_free, replace_tags_tag_free.
Qed.

(** X22. The text drawn from a page is no longer than the page; its white
    space is single spaces, none at either end; and nothing in it has
    the shape of a tag: a [<] is followed by [>] at once, or by no [>]. *)
Theorem cleaned_text_shape (html : jsstring) :
  let text := extractTextFromHtml html in
  (length text <= length html)%nat
  /\ spaced text = true /\ trim text = text
  /\ tag_free text.
Proof.
  split; [|apply cleaned_text_shape_parts].
  unfold extractTextFromHtml, replace_all. cbv zeta.
  etrans; [apply trim_length|]. etrans; [apply collapse_length|].
  do 2 (etrans; [apply replace_from_length|]). apply replace_from_length.
Qed.

(** *** Text that is clean already *)

Lemma match_tag_other c s : c <> 60%N -> match_tag (c :: s) = None.
Proof.
  intros Hc. unfold match_tag.
  destruct c as [|p]; [done|].
  do 6 (try (destruct p as [p|p|]; try done)); congruence.
Qed.

Lemma match_tag_tag_free s : tag_free s -> match_tag s = None.
Proof.
  intros Hs. destruct s as [|c s]; [done|].
  destruct (decide (c = 60%N)) as [->|Hne]; [|by apply match_tag_other].
  destruct s as [|d s]; [done|]. cbn [match_tag].
  destruct (d =? 62)%N eqn:Hd; [done|].
  destruct (through_unit 62 s) eqn:Hthrough; [|done].
  apply through_unit_elem in Hthrough. apply N.eqb_neq in Hd.
  destruct (Hs [] (d :: s) eq_refl) as [Hhead|Hnot].
  - simpl in Hhead. congruence.
  - exfalso. apply Hnot. by constructor.
Qed.

Lemma fold_case_lt c : fold_case c = 60%N -> c = 60%N.
Proof.
  unfold fold_case. destruct (_ && _) eqn:Hc; [|done].
  apply andb_prop in Hc as [H1%N.leb_le H2%N.leb_le]. lia.
Qed.

Lemma fold_case_gt c : fold_case c = 62%N -> c = 62%N.
Proof.
  unfold fold_case. destruct (_ && _) eqn:Hc; [|done].
  apply andb_prop in Hc as [H1%N.leb_le H2%N.leb_le]. lia.
Qed.

Lemma strip_prefix_ci_suffix p : forall s r,
  strip_prefix_ci p s = Some r -> exists pre, s = pre ++ r.
Proof.
  induction p as [|a p IH]; intros s r; simpl.
  - intros [= ->]. by exists [].
  - destruct s as [|c s]; [done|]. destruct (_ =? _)%N; [|done].
    intros [pre ->]%IH. by exists (c :: pre).
Qed.

(** In text that holds no tag, no element begins: its name would have
    to be followed by a [>]. *)
Lemma match_element_tag_free (name s : jsstring) (c : N) :
  head name = Some c -> fold_case c <> 62%N ->
  tag_free s -> match_element name s = None.
Proof.
  intros Hname Hc Hs. unfold match_element.
  destruct (strip_prefix_ci _ s) as [after_name|] eqn:Hstrip; [|done].
  destruct (through_unit 62 after_name) as [opening|] eqn:Hopening; [|done].
  exfalso. apply through_unit_elem in Hopening.
  destruct name as [|c' name]; [done|]. injection Hname as ->.
  destruct s as [|lt s]; [done|]. cbn [app strip_prefix_ci] in Hstrip.
  destruct (_ =? fold_case lt)%N eqn:Hlt; [|done].
  apply N.eqb_eq in Hlt. symmetry in Hlt. apply fold_case_lt in Hlt as ->.
  destruct s as [|d s]; [done|].
  destruct (_ =? fold_case d)%N eqn:Hd; [|done]. apply N.eqb_eq in Hd.
  apply strip_prefix_ci_suffix in Hstrip as [pre ->].
  destruct (Hs [] (d :: pre ++ after_name) eq_refl) as [Hhead|Hnot].
  - injection Hhead as ->. apply Hc. rewrite Hd. reflexivity.
  - apply Hnot. constructor. apply elem_of_app. by right.
Qed.

Lemma replace_from_fixed matcher s :
  (forall t, tag_free t -> matcher t = None) ->
  tag_free s -> replace_from matcher 0 s = s.
Proof.
  intros Hm. induction s as [|c s IH]; intros Hs; [done|].
  cbn [replace_from]. rewrite (Hm _ Hs). f_equal. apply IH. by eapply tag_free_tail.
Qed.

(** Text that holds no tag and is spaced and trimmed is left as it is. *)
Lemma extractTextFromHtml_fixed (s : jsstring) :
  tag_free s -> spaced s = true -> trim s = s -> extractTextFromHtml s = s.
Proof.
  intros Htags Hspaced Htrim. unfold extractTextFromHtml, replace_all. cbv zeta.
  rewrite (replace_from_fixed (match_element (lit "script")) s); [|by
    intros t Ht; apply (match_element_tag_free _ _ 115%N)|done].
  rewrite (replace_from_fixed (match_element (lit "style")) s); [|by
    intros t Ht; apply (match_element_tag_free _ _ 115%N)|done].
  rewrite (replace_from_fixed match_tag s); [|apply match_tag_tag_free|done].
  by rewrite collapse_fixed.
Qed.

(** X23. Cleaning text that was cleaned changes nothing. *)
Theorem cleaned_text_is_stable (html : jsstring) :
  extractTextFromHtml (extractTextFromHtml html) = extractTextFromHtml html.
Proof.
  destruct (cleaned_text_shape_parts html) as (Hspaced & Htrim & Htags).
  by apply extractTextFromHtml_fixed.
Qed.

(** ** The two tools *)

Lemma SFcompare_antisym (a b : number) :
  SFcompare b a = CompOpp <$> SFcompare a b.
Proof.
  destruct a as [s1| s1| |s1 m1 e1], b as [s2|s2| |s2 m2 e2]; try done;
    try (by destruct s1); try (by destruct s2); try (by destruct s1, s2).
  simpl. f_equal. rewrite (Z.compare_antisym e1 e2).
  destruct s1, s2; try done; destruct (e1 ?= e2)%Z; simpl; try done.
  - f_equal. exact (ZC4 m2 m1).
  - exact (ZC4 m2 m1).
Qed.

Lemma SFcompare_finite (a b : number) :
  isFinite a = true -> isFinite b = true -> SFcompare a b <> None.
Proof. by destruct a, b. Qed.

Lemma compare_cont_Eq (p q : positive) : Pos.compare_cont Eq p q = Eq -> p = q.
Proof. apply Pos.compare_eq. Qed.

(** Two finite numbers that compare equal are the same, up to the sign
    of zero. *)
Lemma SFcompare_Eq (s : bool) (m : positive) (e : Z) (x : number) :
  SFcompare x (S754_finite s m e) = Some Eq -> x = S754_finite s m e.
Proof.
  destruct x as [s'|s'| |s' m' e']; simpl; try done; try (by destruct s); try (by destruct s').
  destruct s', s; try done; destruct (e' ?= e)%Z eqn:He; try done;
    apply Z.compare_eq in He as ->; intros [= H].
  - apply (f_equal CompOpp) in H. rewrite CompOpp_involutive in H. simpl in H.
    by apply compare_cont_Eq in H as ->.
  - by apply compare_cont_Eq in H as ->.
Qed.

Lemma of_Z_1 : of_Z 1 = S754_finite false 4503599627370496 (-52).
Proof. vm_compute. reflexivity. Qed.

Lemma of_Z_10 : of_Z 10 = S754_finite false 5629499534213120 (-49).
Proof. vm_compute. reflexivity. Qed.

(** [Math.min(Math.max(n, 1), 10)] lies between 1 and 10 for every
    finite [n]. *)
Lemma clamp_in_range (n : number) :
  isFinite n = true -> in_range (Math_min (Math_max n (of_Z 1)) (of_Z 10)) = true.
Proof.
  intros Hn. unfold in_range. rewrite of_Z_1, of_Z_10.
  set (one := S754_finite false 4503599627370496 (-52)).
  set (ten := S754_finite false 5629499534213120 (-49)).
  assert (Hlt : SFcompare one ten = Some Lt) by reflexivity.
  assert (Hone : SFcompare one one = Some Eq) by reflexivity.
  assert (Hten : SFcompare ten ten = Some Eq) by reflexivity.
  unfold Math_max.
  destruct (SFcompare n one) as [[]|] eqn:Hlow.
  - apply SFcompare_Eq in Hlow as ->. fold one.
    unfold Math_min, SFleb. rewrite Hlt. by rewrite Hone, Hlt.
  - unfold Math_min, SFleb. rewrite Hlt. by rewrite Hone, Hlt.
  - pose proof (SFcompare_antisym n one) as Hflip. rewrite Hlow in Hflip.
    unfold Math_min, SFleb.
    destruct (SFcompare n ten) as [[]|] eqn:Hhigh.
    + apply SFcompare_Eq in Hhigh as ->. fold ten. by rewrite Hlt, Hten.
    + by rewrite Hflip, Hhigh.
    + by rewrite Hlt, Hten.
    + exfalso. by apply (SFcompare_finite n ten Hn eq_refl).
  - exfalso. by apply (SFcompare_finite n one Hn eq_refl).
Qed.

Section ToolFacts.

Variable World : Type.
Variable http_get : jsstring -> World -> reply jsstring * World.
Variable TAVILY_API_KEY : option jsstring.

Local Abbreviation fetchListingPage := (fetchListingPage World http_get).

(** X24. Whatever the page and the network do, [fetchListingPage]
    resolves to an error object, or to a page with a non-empty URL and a
    text of at most 9000 code units that is spaced with single spaces,
    holds nothing of the shape of a tag, and is as long as the [length]
    beside it says. *)
Theorem fetched_page_shape (args : JSON) (w : World) :
  page_result (fetchListingPage args w).1.
Proof.
  unfold Tools.fetchListingPage.
  destruct (Agent.property args (lit "url")) as [[| | |[|c u]| |]|]; try done.
  destruct (http_get (c :: u) w) as [[message|status statusText errorText|html] w']; try done.
  cbn [fst page_result].
  destruct (cleaned_text_shape_parts html) as (Hspaced & _ & Htags).
  match goal with
  | |- context [take ?n _] =>
      rewrite <- (take_drop n (extractTextFromHtml html)) in Hspaced, Htags
  end.
  repeat split; try done.
  - rewrite length_take. apply Nat.le_min_l.
  - by apply spaced_app_l in Hspaced.
  - by apply tag_free_app_l in Htags.
Qed.

(** X25. Without a [url] argument that is a non-empty string, whatever
    the arguments parsed to, no page is requested and the error object
    says that the URL is required. *)
Theorem fetch_needs_url (args : JSON) (w : World) :
  (forall c u, Agent.property args (lit "url") <> Some (JString (c :: u))) ->
  fetchListingPage args w = (error_object (lit "url is required"), w).
Proof.
  intros Hurl. unfold Tools.fetchListingPage.
  destruct (Agent.property args (lit "url")) as [[| | |[|c u]| |]|]; try done.
  by destruct (Hurl c u).
Qed.

Section Search.

Variable tavily : JSON -> World -> reply JSON * World.

Local Abbreviation performWebSearch := (performWebSearch World tavily TAVILY_API_KEY).

(** X26. [performWebSearch] throws when the [max_results] argument is an
    object with a member named [toString]: the number is converted
    before the query is checked and outside the [try] block, so the
    search is not made and no error object is returned. *)
Theorem search_throws_on_unconvertible_limit (args : JSON) (members : list (jsstring * JSON))
    (w : World) :
  Agent.property args (lit "max_results") = Some (JObject members) ->
  has_member (lit "toString") members = true ->
  performWebSearch args w = (Throws TypeError, w).
Proof.
  intros Hlimit Hmember. unfold Tools.performWebSearch, maxResultsRaw.
  rewrite Hlimit. unfold JSON_toNumber, JSON_toString. by rewrite Hmember.
Qed.

(** X27. When [max_results] is missing or is [null], a boolean, a number
    or a string, [performWebSearch] returns; and without a [query] that
    is a string with more than white space in it, it returns the error
    object for a missing query and makes no request. *)
Theorem search_needs_query (args : JSON) (w : World) :
  plain_limit args = true ->
  (exists r w', performWebSearch args w = (Returns r, w'))
  /\ (query_of args = None ->
      performWebSearch args w = (Returns (error_object (lit "query is required")), w)).
Proof.
  intros Hplain. unfold Tools.performWebSearch.
  assert (Hraw : exists raw, maxResultsRaw args = Returns raw).
  { unfold maxResultsRaw, plain_limit in *.
    destruct (Agent.property args (lit "max_results")) as [[]|]; simpl; eauto; done. }
  destruct Hraw as [raw ->]. split; [|by intros ->].
  destruct (query_of args) as [query|]; [|eauto].
  destruct TAVILY_API_KEY as [[|c apiKey]|]; [eauto| |eauto].
  destruct (runTavilySearch _ _ _ _ _ _) as [[message|results] w']; eauto.
Qed.

End Search.

Lemma query_of_trimmed (args : JSON) (query : jsstring) :
  query_of args = Some query -> query <> [] /\ trim query = query.
Proof.
  unfold query_of. destruct (Agent.property args (lit "query")) as [[]|]; try done.
  destruct (trim s) as [|c q] eqn:Hs; [done|]. intros [= <-].
  split; [done|]. rewrite <- Hs. apply trim_idem.
Qed.

Lemma search_body_well_formed (query apiKey : jsstring) (maxResults : number) :
  query <> [] -> trim query = query -> apiKey <> [] -> isFinite maxResults = true ->
  well_formed (search_body query apiKey maxResults) = true.
Proof.
  intros Hq Htrim Hkey Hfinite. unfold search_body, well_formed.
  destruct apiKey as [|k apiKey]; [done|]. destruct query as [|c q]; [done|].
  rewrite clamp_in_range by done. rewrite Htrim.
  rewrite !bool_decide_eq_true_2 by done. done.
Qed.

(** X28. The search service only gets requests that are well formed: a
    key and a query that are not empty, the query trimmed, and a number
    of results between 1 and 10. What the service would do with any
    other request has no effect on [performWebSearch]. *)
Theorem search_requests_are_well_formed (tavily1 tavily2 : JSON -> World -> reply JSON * World)
    (args : JSON) (w : World) :
  (forall body w, well_formed body = true -> tavily1 body w = tavily2 body w) ->
  performWebSearch World tavily1 TAVILY_API_KEY args w
  = performWebSearch World tavily2 TAVILY_API_KEY args w.
Proof.
  intros Hsame. unfold performWebSearch.
  destruct (maxResultsRaw args) as [raw|e]; [|done].
  destruct (query_of args) as [query|] eqn:Hquery; [|done].
  apply query_of_trimmed in Hquery as [Hq Htrim].
  destruct TAVILY_API_KEY as [[|c apiKey]|]; try done.
  unfold runTavilySearch. rewrite Hsame; [done|].
  apply search_body_well_formed; try done.
  by destruct (isFinite raw) eqn:Hraw.
Qed.

End ToolFacts.

(** *** The tools on sample inputs *)

Example extractTextFromHtml_sample :
  extractTextFromHtml sample_page = lit "12 Oak Ave $450,000 &lt; 3 beds"
  /\ extractTextFromHtml (lit "a <<b> c<>d < e <script>x</script > <SCRIPT >y</sCript>z")
     = lit "a c<>d < e z"
  /\ extractTextFromHtml (lit "1 < 2 <script>never closed") = lit "1 never closed".
Proof. repeat split; vm_compute; reflexivity. Qed.

Example JSON_toNumber_samples :
  JSON_toNumber (JArray []) = Returns zero
  /\ JSON_toNumber (JArray [JArray [JString (lit "7")]]) = Returns (of_Z 7)
  /\ JSON_toNumber (JArray [JNumber (of_Z 1); JNumber (of_Z 2)]) = Returns NaN
  /\ JSON_toNumber (JObject []) = Returns NaN
  /\ JSON_toNumber (JArray [JObject [(lit "toString", JNull)]]) = Throws TypeError.
Proof. repeat split; vm_compute; reflexivity. Qed.

Example fetchListingPage_sample :
  fetchListingPage unit (one_page sample_page)
    (JObject [(lit "url", JString (lit "https://centris.ca/1"))]) ()
  = (JObject [(lit "url", JString (lit "https://centris.ca/1"));
              (lit "text", JString (lit "12 Oak Ave $450,000 &lt; 3 beds"));
              (lit "length", JNumber (of_Z 31))], ()).
Proof. vm_compute. reflexivity. Qed.

Lemma fetch_needs_url_witness :
  fetchListingPage unit (one_page sample_page) no_url_args ()
  = (error_object (lit "url is required"), ()).
Proof.
  apply (fetch_needs_url unit (one_page sample_page) no_url_args ()).
  intros c u. vm_compute. discriminate.
Defined.

Lemma search_throws_on_unconvertible_limit_witness :
  performWebSearch unit (one_answer sample_data) (Some (lit "tvly-test")) bad_limit_args ()
  = (Throws TypeError, ()).
Proof.
  apply (search_throws_on_unconvertible_limit unit (Some (lit "tvly-test"))
           (one_answer sample_data) bad_limit_args [(lit "toString", JNumber (of_Z 1))] ());
    reflexivity.
Defined.

Lemma search_needs_query_witness :
  (exists r w', performWebSearch unit (one_answer sample_data) (Some (lit "tvly-test"))
                  no_query_args () = (Returns r, w'))
  /\ performWebSearch unit (one_answer sample_data) (Some (lit "tvly-test")) no_query_args ()
     = (Returns (error_object (lit "query is required")), ()).
Proof.
  destruct (search_needs_query unit (Some (lit "tvly-test")) (one_answer sample_data)
              no_query_args () eq_refl) as [Hreturns Hquery].
  split; [exact Hreturns|]. apply Hquery. reflexivity.
Defined.

Lemma search_requests_are_well_formed_witness :
  performWebSearch unit (one_answer sample_data) (Some (lit "tvly-test")) wide_search_args ()
  = performWebSearch unit (strict_answer sample_data) (Some (lit "tvly-test"))
      wide_search_args ()
  /\ performWebSearch unit (strict_answer sample_data) (Some (lit "tvly-test"))
       wide_search_args ()
     = (Returns (JObject [(lit "query", JString (lit "condo Laval"));
                          (lit "results",
                           JArray [JObject [(lit "title", JString (lit "12 Oak Ave"));
                                            (lit "url", JString (lit "https://centris.ca/1"));
                                            (lit "snippet", JNull)];
                                   JObject [(lit "title", JNull); (lit "url", JNull);
                                            (lit "snippet", JNull)]])]), ()).
Proof.
  split; [|vm_compute; reflexivity].
  apply (search_requests_are_well_formed unit (Some (lit "tvly-test"))
           (one_answer sample_data) (strict_answer sample_data) wide_search_args ()).
  intros body w Hbody. unfold strict_answer, one_answer. by rewrite Hbody.
Defined.

(** ** The SDK variant of the normalizer *)

Lemma key_of_head (toUpperCase : jsstring -> jsstring) (record : RawRecord) (len : nat) :
  head (key_of toUpperCase record len) ∈ [Some 77%N; Some 85%N; Some 73%N].
Proof.
  unfold key_of. repeat case_match.
  - apply elem_of_cons. by left.
  - apply elem_of_cons. right. apply elem_of_cons. by left.
  - do 2 (apply elem_of_cons; right). apply elem_of_cons. by left.
Qed.

(** No key of the normalizer is the name of a member of
    [Object.prototype]: each begins with [MLS:], [URL:] or [IDX:]. *)
Lemma key_of_own (toUpperCase : jsstring -> jsstring) (record : RawRecord) (len : nat) :
  key_of toUpperCase record len ∉ Object_prototype.
Proof.
  intros Hin.
  assert (Hheads : Forall (fun name => head name ∉ [Some 77%N; Some 85%N; Some 73%N])
                          Object_prototype).
  { apply (bool_decide_unpack _). by vm_compute. }
  rewrite Forall_forall in Hheads. apply (Hheads _ Hin). apply key_of_head.
Qed.

Section SdkFacts.

Variable toUpperCase : jsstring -> jsstring.

Lemma sdk_step (seen : gmap jsstring nat) (out : list NormalizedListing) (record : RawRecord) :
  Sdk.step toUpperCase seen out record = Normalizer.step toUpperCase seen out record.
Proof.
  unfold Sdk.step, Normalizer.step, Sdk.seen_get.
  destruct (normalize record) as [normalized|e]; [|done]. simpl.
  destruct (seen !! _) as [idx|]; [done|].
  case_decide as Hin; [|done]. by apply key_of_own in Hin.
Qed.

Lemma sdk_loop (listings : list RawRecord) : forall seen out,
  Sdk.loop toUpperCase listings seen out
  = Normalizer.loop toUpperCase (Object <$> listings) seen out.
Proof.
  induction listings as [|record listings IH]; intros seen out; [done|].
  csimpl. rewrite sdk_step.
  destruct (Normalizer.step toUpperCase seen out record) as [[seen' out']|e]; [|done].
  simpl. unfold MAX_LISTINGS. case_decide; [done|apply IH].
Qed.

(** X29. The normalizer of the SDK variant, which keeps its keys in an
    object literal and does not skip elements that are not objects,
    gives on every array of objects what the normalizer of main.ts
    gives: the same records, the same throw. *)
Theorem sdk_normalizer_agrees (listings : list RawRecord) :
  Sdk.normalizeAndDedupeListings toUpperCase listings
  = Normalizer.normalizeAndDedupeListings toUpperCase (Object <$> listings).
Proof.
  unfold Sdk.normalizeAndDedupeListings, Normalizer.normalizeAndDedupeListings.
  by rewrite sdk_loop.
Qed.

End SdkFacts.
